(** * HDX MCP server: the OpenAPI-to-tool pipeline and the gateway tools

    A shallow embedding of the transformation passes of
    [src/hdx_mcp_server/server.py] (schema dereferencing, parameter
    defaults, operation identifiers, usage guidance, component
    customisation, client construction) and of the custom tools of
    [src/hdx_mcp_server/tools/hdx_tools.py], followed by the properties
    proved about them.

    Python values that come out of [response.json()] are modelled by the
    type [json]; a [dict] is an association list in insertion order, the
    way Python iterates it.  Python exceptions are explicit outcomes. *)

From Stdlib Require Import String Ascii List ZArith Bool Arith Lia.
From Stdlib Require Import SpecFloat.
Import ListNotations.
Local Open Scope string_scope.

(* ================================================================== *)
(** ** Python values and the operators the code applies to them *)
(* ================================================================== *)

Module Py.

(** What [json.loads] can produce.  [int] is unbounded, [float] is an
    IEEE-754 double (kept in its specification form), [str] is the
    UTF-8 byte string of the text. *)
Unset Elimination Schemes.
Inductive json : Type :=
| JNull
| JBool (b : bool)
| JInt (n : Z)
| JFloat (f : spec_float)
| JStr (s : string)
| JList (items : list json)
| JDict (entries : list (string * json)).
Set Elimination Schemes.

(** The exceptions the modelled code can meet: the built-in ones, and
    [TransportError] for whatever the HTTP layer raises (a timeout, a
    connection error, the status error of [raise_for_status], a body
    that is not JSON). *)
Inductive exn : Type :=
| TypeError
| AttributeError
| KeyError
| IndexError
| TransportError.

(** Outcome of running a piece of code: a value, a raised exception, or
    the recursion budget of the model ran out. *)
Inductive res (A : Type) : Type :=
| Ret (a : A)
| Exc (e : exn)
| OutOfGas.

Arguments Ret {A} a.
Arguments Exc {A} e.
Arguments OutOfGas {A}.

Definition bind {A B : Type} (c : res A) (k : A -> res B) : res B :=
  match c with
  | Ret a => k a
  | Exc e => Exc e
  | OutOfGas => OutOfGas
  end.

Fixpoint mapM {A B : Type} (f : A -> res B) (l : list A) : res (list B) :=
  match l with
  | [] => Ret []
  | x :: rest =>
      bind (f x) (fun y => bind (mapM f rest) (fun ys => Ret (y :: ys)))
  end.

(** [bool(v)] *)
Definition truthy (v : json) : bool :=
  match v with
  | JNull => false
  | JBool b => b
  | JInt n => negb (Z.eqb n 0)
  | JFloat (S754_zero _) => false
  | JFloat _ => true
  | JStr s => negb (String.eqb s "")
  | JList l => match l with [] => false | _ :: _ => true end
  | JDict d => match d with [] => false | _ :: _ => true end
  end.

Definition is_dict (v : json) : bool :=
  match v with JDict _ => true | _ => false end.

(** *** dict *)

Definition dict := list (string * json).

Fixpoint dict_get (k : string) (d : dict) : option json :=
  match d with
  | [] => None
  | (k', v) :: rest => if String.eqb k k' then Some v else dict_get k rest
  end.

Definition dict_has (k : string) (d : dict) : bool :=
  match dict_get k d with Some _ => true | None => false end.

(** [d[k] = v]: an existing key keeps its position, a new key goes last. *)
Fixpoint dict_set (k : string) (v : json) (d : dict) : dict :=
  match d with
  | [] => [(k, v)]
  | (k', v') :: rest =>
      if String.eqb k k' then (k', v) :: rest else (k', v') :: dict_set k v rest
  end.

(** [del d[k]] on a dict that has the key: the entry under [k] goes. *)
Definition dict_del (k : string) (d : dict) : dict :=
  filter (fun kv => negb (String.eqb k (fst kv))) d.

Definition keys (d : dict) : list string := map fst d.

(** *** str *)

(** [needle in hay] on two strings. *)
Fixpoint contains (needle hay : string) : bool :=
  String.prefix needle hay
  || match hay with
     | EmptyString => false
     | String _ rest => contains needle rest
     end.

(** [s.replace(pat, "")] for a non-empty [pat]: the occurrences of [pat]
    are dropped, scanning from the left; [skip] counts the characters of
    the occurrence being dropped that are still ahead. *)
Fixpoint remove_from (pat : string) (skip : nat) (s : string) : string :=
  match s with
  | EmptyString => EmptyString
  | String c rest =>
      match skip with
      | S k => remove_from pat k rest
      | O =>
          if String.prefix pat s
          then remove_from pat (String.length pat - 1) rest
          else String c (remove_from pat 0 rest)
      end
  end.

Definition remove_all (pat s : string) : string := remove_from pat 0 s.

(** *** operators on arbitrary values *)

Definition str_eq (s : string) (v : json) : bool :=
  match v with JStr t => String.eqb s t | _ => false end.

(** [s in c] for a string [s]. *)
Definition str_in (s : string) (c : json) : res bool :=
  match c with
  | JStr t => Ret (contains s t)
  | JList l => Ret (existsb (str_eq s) l)
  | JDict d => Ret (dict_has s d)
  | _ => Exc TypeError
  end.

(** [c[k]] for a string [k]. *)
Definition getitem (c : json) (k : string) : res json :=
  match c with
  | JDict d => match dict_get k d with Some v => Ret v | None => Exc KeyError end
  | _ => Exc TypeError
  end.

(** [c[k] = v] for a string [k]; the updated container is returned. *)
Definition setitem (c : json) (k : string) (v : json) : res json :=
  match c with
  | JDict d => Ret (JDict (dict_set k v d))
  | _ => Exc TypeError
  end.

(** A byte that continues a UTF-8 sequence: [0x80 .. 0xBF]. *)
Definition continuation (c : ascii) : bool :=
  let n := nat_of_ascii c in (128 <=? n)%nat && (n <? 192)%nat.

(** Number of characters of a string. *)
Fixpoint characters (s : string) : nat :=
  match s with
  | EmptyString => 0
  | String c rest =>
      if continuation c then characters rest else S (characters rest)
  end.

Fixpoint continuations (s : string) : string :=
  match s with
  | EmptyString => EmptyString
  | String c rest =>
      if continuation c then String c (continuations rest) else EmptyString
  end.

(** [len(c)] *)
Definition len (c : json) : res nat :=
  match c with
  | JStr s => Ret (characters s)
  | JList l => Ret (List.length l)
  | JDict d => Ret (List.length d)
  | _ => Exc TypeError
  end.

(** [c[0]] *)
Definition getitem0 (c : json) : res json :=
  match c with
  | JList (x :: _) => Ret x
  | JList [] => Exc IndexError
  | JStr (String c rest) => Ret (JStr (String c (continuations rest)))
  | JStr EmptyString => Exc IndexError
  | JDict _ => Exc KeyError
  | _ => Exc TypeError
  end.

(** [c.get(k, default)] *)
Definition get (c : json) (k : string) (default : json) : res json :=
  match c with
  | JDict d => Ret (match dict_get k d with Some v => v | None => default end)
  | _ => Exc AttributeError
  end.

(** [c.items()] *)
Definition items (c : json) : res dict :=
  match c with
  | JDict d => Ret d
  | _ => Exc AttributeError
  end.

Fixpoint chars (s : string) : list json :=
  match s with
  | EmptyString => []
  | String c rest => JStr (String c EmptyString) :: chars rest
  end.

(** [for x in c]: the sequence a loop over [c] visits.  A loop over a
    string visits strings only (here one per byte). *)
Definition iter (c : json) : res (list json) :=
  match c with
  | JList l => Ret l
  | JDict d => Ret (map (fun kv => JStr (fst kv)) d)
  | JStr s => Ret (chars s)
  | _ => Exc TypeError
  end.

End Py.

Export Py.

Declare Scope py_scope.
Delimit Scope py_scope with py.
Notation "x <- c ;; k" := (bind c (fun x => k))
  (at level 61, c at next level, right associativity) : py_scope.
Notation "c ;;; k" := (bind c (fun _ => k))
  (at level 61, right associativity) : py_scope.
Local Open Scope py_scope.

(* ================================================================== *)
(** ** SchemaResolver: [_fix_openapi_schema_references] *)
(* ================================================================== *)

Module Resolver.

Section WithSchemas.

(** [schemas = fixed_spec.get("components", {}).get("schemas", {})] *)
Variable schemas : json.

Definition ref_prefix : string := "#/components/schemas/".

(** [resolve_ref]: the definition a reference path names, [{}] when the
    path is foreign or the name is unknown. *)
Definition resolve_ref (ref_path : json) : res json :=
  match ref_path with
  | JStr p =>
      if String.prefix ref_prefix p then
        let schema_name := remove_all ref_prefix p in
        known <- str_in schema_name schemas ;;
        if known then getitem schemas schema_name else Ret (JDict [])
      else Ret (JDict [])
  | _ => Exc AttributeError
  end.

(** The loop [for key, value in obj.items(): if key != "$ref":
    inline_schema[key] = value]. *)
Fixpoint merge_siblings (inline_schema : json) (obj_items : dict) : res json :=
  match obj_items with
  | [] => Ret inline_schema
  | (key, value) :: rest =>
      if String.eqb key "$ref" then merge_siblings inline_schema rest
      else
        inline_schema' <- setitem inline_schema key value ;;
        merge_siblings inline_schema' rest
  end.

(** The debug message of the reference branch is formatted whether or
    not it is emitted: [len(resolved_schema['enum'])]. *)
Definition log_preserved_enum (resolved_schema : json) : res unit :=
  has_enum <- str_in "enum" resolved_schema ;;
  if has_enum
  then e <- getitem resolved_schema "enum" ;; len e ;;; Ret tt
  else Ret tt.

(** The debug message of the [anyOf] and [oneOf] branches:
    [isinstance(item, dict) and "enum" in item], then
    [len(item['enum'])]. *)
Definition log_found_enum (item : json) : res unit :=
  match item with
  | JDict d =>
      match dict_get "enum" d with
      | Some e => len e ;;; Ret tt
      | None => Ret tt
      end
  | _ => Ret tt
  end.

(** ["anyOf" in obj and isinstance(obj["anyOf"], list)] *)
Definition branch_list (key : string) (d : dict) : option (list json) :=
  match dict_get key d with
  | Some (JList l) => Some l
  | _ => None
  end.

(** The body of [resolve_refs_recursively(obj, depth)]; [self] stands
    for the function itself at its recursive calls. *)
Definition resolve_body (self : json -> nat -> res json) (obj : json) (depth : nat)
  : res json :=
  if (10 <? depth)%nat then Ret obj
  else
    match obj with
    | JDict d =>
        match dict_get "$ref" d with
        | Some ref_path =>
            resolved_schema <- resolve_ref ref_path ;;
            if truthy resolved_schema then
              inline_schema <- merge_siblings resolved_schema d ;;
              log_preserved_enum resolved_schema ;;;
              self inline_schema (depth + 1)
            else Ret obj
        | None =>
            let resolve_item item := self item (depth + 1) in
            match branch_list "anyOf" d with
            | Some any_of =>
                resolved_any_of <- mapM resolve_item any_of ;;
                let resolved_obj := dict_set "anyOf" (JList resolved_any_of) d in
                mapM log_found_enum resolved_any_of ;;;
                Ret (JDict resolved_obj)
            | None =>
            match branch_list "oneOf" d with
            | Some one_of =>
                resolved_one_of <- mapM resolve_item one_of ;;
                let resolved_obj := dict_set "oneOf" (JList resolved_one_of) d in
                mapM log_found_enum resolved_one_of ;;;
                Ret (JDict resolved_obj)
            | None =>
            match branch_list "allOf" d with
            | Some all_of =>
                resolved_all_of <- mapM resolve_item all_of ;;
                Ret (JDict (dict_set "allOf" (JList resolved_all_of) d))
            | None =>
                resolved_obj <-
                  mapM (fun kv => v <- resolve_item (snd kv) ;; Ret (fst kv, v)) d ;;
                Ret (JDict resolved_obj)
            end end end
        end
    | JList l =>
        resolved <- mapM (fun item => self item (depth + 1)) l ;;
        Ret (JList resolved)
    | _ => Ret obj
    end.

(** [resolve_refs_recursively(obj, depth)].  Every Python call spends one
    unit of [gas]; a call that finds none left is cut off. *)
Fixpoint resolve_refs_recursively (gas : nat) (obj : json) (depth : nat)
  {struct gas} : res json :=
  match gas with
  | O => OutOfGas
  | S gas' => resolve_body (resolve_refs_recursively gas') obj depth
  end.

(** The call [resolve_refs_recursively(original_schema)] of the pass:
    depth 0, and a budget of twelve nested calls. *)
Definition resolve_schema (obj : json) : res json :=
  resolve_refs_recursively 12 obj 0.

(** [param["schema"]["default"] = value], under [if "schema" in param]. *)
Definition set_schema_default (param : dict) (value : json) : res dict :=
  match dict_get "schema" param with
  | Some schema =>
      schema' <- setitem schema "default" value ;;
      Ret (dict_set "schema" schema' param)
  | None => Ret param
  end.

(** The branch on [param_name] that updates the default of the commonly
    used parameters. *)
Definition update_default (param : dict) : res dict :=
  let param_name :=
    match dict_get "name" param with Some n => n | None => JNull end in
  if str_eq "limit" param_name then set_schema_default param (JInt 10)
  else if str_eq "age_range" param_name then set_schema_default param (JStr "all")
  else if str_eq "gender" param_name then set_schema_default param (JStr "all")
  else Ret param.

(** The debug messages about a resolved parameter schema; the loop over
    [resolved_schema.get("anyOf", [])] needs an iterable. *)
Definition log_param_enum (resolved_schema : json) : res unit :=
  match resolved_schema with
  | JDict r =>
      if dict_has "enum" r then Ret tt
      else
        match dict_get "anyOf" r with
        | Some any_of => iter any_of ;;; Ret tt
        | None => Ret tt
        end
  | _ => Ret tt
  end.

(** Body of [for param in parameters]. *)
Definition fix_param (param : json) : res json :=
  match param with
  | JDict p =>
      p1 <- update_default p ;;
      match dict_get "schema" p1 with
      | Some original_schema =>
          resolved_schema <- resolve_schema original_schema ;;
          log_param_enum resolved_schema ;;;
          Ret (JDict (dict_set "schema" resolved_schema p1))
      | None => Ret (JDict p1)
      end
  | _ => Ret param
  end.

(** [parameters = method_data.get("parameters", [])] and the loop over
    it; the parameters are updated in place. *)
Definition fix_parameters (method_data : dict) : res dict :=
  match dict_get "parameters" method_data with
  | Some (JList params) =>
      params' <- mapM fix_param params ;;
      Ret (dict_set "parameters" (JList params') method_data)
  | Some other => iter other ;;; Ret method_data
  | None => Ret method_data
  end.

(** Body of [for _media_type, media_type_data in content.items()]. *)
Definition fix_media (media_type_data : json) : res json :=
  has_schema <- str_in "schema" media_type_data ;;
  if has_schema then
    original_schema <- getitem media_type_data "schema" ;;
    resolved_schema <- resolve_schema original_schema ;;
    setitem media_type_data "schema" resolved_schema
  else Ret media_type_data.

(** [content = holder.get("content", {})] and the loop over its items,
    for a response or a request body. *)
Definition fix_content (holder : dict) : res dict :=
  match dict_get "content" holder with
  | Some content =>
      entries <- items content ;;
      entries' <- mapM (fun kv => v <- fix_media (snd kv) ;; Ret (fst kv, v)) entries ;;
      Ret (dict_set "content" (JDict entries') holder)
  | None => Ret holder
  end.

Definition fix_response (response : json) : res json :=
  match response with
  | JDict r => r' <- fix_content r ;; Ret (JDict r')
  | _ => Ret response
  end.

Definition fix_responses (method_data : dict) : res dict :=
  match dict_get "responses" method_data with
  | Some responses =>
      entries <- items responses ;;
      entries' <- mapM (fun kv => v <- fix_response (snd kv) ;; Ret (fst kv, v)) entries ;;
      Ret (dict_set "responses" (JDict entries') method_data)
  | None => Ret method_data
  end.

Definition fix_request_body (method_data : dict) : res dict :=
  match dict_get "requestBody" method_data with
  | Some (JDict request_body) =>
      request_body' <- fix_content request_body ;;
      Ret (dict_set "requestBody" (JDict request_body') method_data)
  | _ => Ret method_data
  end.

(** Body of [for method, method_data in path_data.items()]. *)
Definition fix_method (method_data : json) : res json :=
  match method_data with
  | JDict m =>
      m1 <- fix_parameters m ;;
      m2 <- fix_responses m1 ;;
      m3 <- fix_request_body m2 ;;
      Ret (JDict m3)
  | _ => Ret method_data
  end.

Definition fix_path (path_data : json) : res json :=
  methods <- items path_data ;;
  methods' <- mapM (fun kv => v <- fix_method (snd kv) ;; Ret (fst kv, v)) methods ;;
  Ret (JDict methods').

End WithSchemas.

(** The loop [for path, path_data in spec.get("paths", {}).items()] of
    the passes, each of which updates [path_data] in place in its own
    deep copy of the specification. *)
Definition over_paths (f : string -> json -> res json) (spec : json) : res json :=
  paths <- get spec "paths" (JDict []) ;;
  entries <- items paths ;;
  entries' <- mapM (fun kv => v <- f (fst kv) (snd kv) ;; Ret (fst kv, v)) entries ;;
  match spec with
  | JDict s =>
      if dict_has "paths" s then Ret (JDict (dict_set "paths" (JDict entries') s))
      else Ret spec
  | _ => Ret spec
  end.

(** [_fix_openapi_schema_references(spec)] *)
Definition _fix_openapi_schema_references (spec : json) : res json :=
  components <- get spec "components" (JDict []) ;;
  schemas <- get components "schemas" (JDict []) ;;
  items schemas ;;;
  over_paths (fun _ path_data => fix_path schemas path_data) spec.

End Resolver.

Export Resolver.

(* ================================================================== *)
(** ** OperationCatalog: [_simplify_operation_ids] *)
(* ================================================================== *)

Module Catalog.

(** The mapping of paths to simplified operation identifiers. *)
Definition path_to_operation_id : list (string * string) :=
  [ ("/api/v2/affected-people/refugees-persons-of-concern", "affected_people_refugees_get");
    ("/api/v2/affected-people/humanitarian-needs", "affected_people_humanitarian_needs_get");
    ("/api/v2/affected-people/idps", "affected_people_idps_get");
    ("/api/v2/affected-people/returnees", "affected_people_returnees_get");
    ("/api/v2/coordination-context/operational-presence", "coordination_operational_presence_get");
    ("/api/v2/coordination-context/funding", "coordination_funding_get");
    ("/api/v2/coordination-context/conflict-events", "coordination_conflict_events_get");
    ("/api/v2/coordination-context/national-risk", "coordination_national_risk_get");
    ("/api/v2/food-security-nutrition-poverty/food-security", "food_security_get");
    ("/api/v2/food-security-nutrition-poverty/food-prices-market-monitor", "food_prices_get");
    ("/api/v2/food-security-nutrition-poverty/poverty-rate", "poverty_rate_get");
    ("/api/v2/geography-infrastructure/baseline-population", "baseline_population_get");
    ("/api/v2/climate/rainfall", "climate_rainfall_get");
    ("/api/v2/metadata/dataset", "metadata_dataset_get");
    ("/api/v2/metadata/resource", "metadata_resource_get");
    ("/api/v2/metadata/location", "metadata_location_get");
    ("/api/v2/metadata/admin1", "metadata_admin1_get");
    ("/api/v2/metadata/admin2", "metadata_admin2_get");
    ("/api/v2/metadata/currency", "metadata_currency_get");
    ("/api/v2/metadata/org", "metadata_org_get");
    ("/api/v2/metadata/org-type", "metadata_org_type_get");
    ("/api/v2/metadata/sector", "metadata_sector_get");
    ("/api/v2/metadata/wfp-commodity", "metadata_wfp_commodity_get");
    ("/api/v2/metadata/wfp-market", "metadata_wfp_market_get");
    ("/api/v2/metadata/data-availability", "metadata_data_availability_get");
    ("/api/v2/util/version", "util_version_get") ].

Fixpoint table_get (path : string) (table : list (string * string)) : option string :=
  match table with
  | [] => None
  | (p, id) :: rest => if String.eqb path p then Some id else table_get path rest
  end.

(** Body of [for method, method_data in path_data.items()]: the
    identifier is replaced when the method entry is a dict that has
    one. *)
Definition rename_method (new_operation_id : string) (method_data : json) : json :=
  match method_data with
  | JDict m =>
      if dict_has "operationId" m
      then JDict (dict_set "operationId" (JStr new_operation_id) m)
      else method_data
  | _ => method_data
  end.

(** Body of the loop over the paths. *)
Definition rename_path (path : string) (path_data : json) : res json :=
  match table_get path path_to_operation_id with
  | Some new_operation_id =>
      methods <- items path_data ;;
      Ret (JDict (map (fun kv => (fst kv, rename_method new_operation_id (snd kv))) methods))
  | None => Ret path_data
  end.

(** [_simplify_operation_ids(spec)] *)
Definition _simplify_operation_ids (spec : json) : res json :=
  over_paths rename_path spec.

(** The operations of a specification that carry an identifier, as
    (path, method, operationId), in document order. *)
Definition method_ids (path : string) (path_data : json) : list (string * string * json) :=
  match path_data with
  | JDict methods =>
      flat_map (fun kv =>
                  match snd kv with
                  | JDict m =>
                      match dict_get "operationId" m with
                      | Some id => [(path, fst kv, id)]
                      | None => []
                      end
                  | _ => []
                  end) methods
  | _ => []
  end.

Definition operation_ids (spec : json) : list (string * string * json) :=
  match spec with
  | JDict s =>
      match dict_get "paths" s with
      | Some (JDict paths) => flat_map (fun kv => method_ids (fst kv) (snd kv)) paths
      | _ => []
      end
  | _ => []
  end.

End Catalog.

Export Catalog.

(* ================================================================== *)
(** ** GuidanceInjector: [_add_admin_level_guidance] *)
(* ================================================================== *)

Module Guidance.

Definition nl : string := String (ascii_of_nat 10) EmptyString.

Definition admin_level_endpoints : list string :=
  [ "affected-people"; "baseline-population"; "humanitarian-needs"; "refugees";
    "idps"; "returnees"; "population"; "food-security"; "nutrition"; "poverty";
    "conflict"; "funding" ].

Definition location_endpoints : list string := [ "location"; "admin1"; "admin2" ].

Definition admin_level_guidance : string :=
  nl ++ nl ++ "🎯 **CRITICAL - Data Coverage Warning**: "
  ++ "Data coverage is only determined by the metadata_data_availability_get tool. "
  ++ "Just because a country is in the system doesn't mean it has data. "
  ++ "ALWAYS verify data availability before making data queries. "
  ++ nl ++ nl ++ "🎯 **CRITICAL - Administrative Level Efficiency**: "
  ++ "Before making aggregate queries (totals, country-wide statistics), "
  ++ "ALWAYS check data availability using metadata_data_availability_get for the target country. "
  ++ "Use the LOWEST available admin level (0=country, 1=state, "
  ++ "2=district) to avoid downloading excessive granular data. "
  ++ "For country totals, use admin level 0 if available, "
  ++ "otherwise level 1. "
  ++ "Never query admin level 2 for simple aggregations when level 0/1 is sufficient.".

Definition location_guidance : string :=
  nl ++ nl ++ "⚠️ **CRITICAL - Data Coverage Warning**: "
  ++ "Data coverage is only determined by the metadata_data_availability_get tool. "
  ++ "Just because a country appears in location metadata doesn't mean it has actual data. "
  ++ "ALWAYS verify data availability using metadata_data_availability_get before making data queries.".

Definition pagination_guidance : string :=
  nl ++ nl ++ "🔄 **Pagination**: You can page through results using `limit` and `offset` parameters "
  ++ "(limit=records per page, offset=starting position).".

(** [any(endpoint in path for endpoint in endpoints)] *)
Definition any_in (endpoints : list string) (path : string) : bool :=
  existsb (fun endpoint => contains endpoint path) endpoints.

(** [a + text] for a string [text]. *)
Definition add_str (a : json) (text : string) : res json :=
  match a with
  | JStr s => Ret (JStr (s ++ text))
  | _ => Exc TypeError
  end.

(** [if text not in operation[field]:
       operation[field] = operation[field] + text] *)
Definition append_once (field text : string) (operation : dict) : res dict :=
  current <- getitem (JDict operation) field ;;
  present <- str_in text current ;;
  if present then Ret operation
  else
    updated <- add_str current text ;;
    Ret (dict_set field updated operation).

(** Body of [for method, operation in path_data.items()]. *)
Definition guide_operation (path : string) (operation : json) : res json :=
  match operation with
  | JDict op =>
      if dict_has "summary" op then
        op1 <- (if any_in admin_level_endpoints path
                then append_once "summary" admin_level_guidance op
                else if any_in location_endpoints path
                then append_once "summary" location_guidance op
                else Ret op) ;;
        op2 <- append_once "summary" pagination_guidance op1 ;;
        Ret (JDict op2)
      else if dict_has "description" op then
        op1 <- (if any_in location_endpoints path
                then append_once "description" location_guidance op
                else Ret op) ;;
        op2 <- append_once "description" pagination_guidance op1 ;;
        Ret (JDict op2)
      else Ret operation
  | _ => Ret operation
  end.

(** Body of the loop over the paths; the application-identifier endpoint
    is skipped. *)
Definition guide_path (path : string) (path_data : json) : res json :=
  if contains "app-identifier" path then Ret path_data
  else
    operations <- items path_data ;;
    operations' <-
      mapM (fun kv => v <- guide_operation path (snd kv) ;; Ret (fst kv, v)) operations ;;
    Ret (JDict operations').

(** [_add_admin_level_guidance(spec)] *)
Definition _add_admin_level_guidance (spec : json) : res json :=
  over_paths guide_path spec.

End Guidance.

Export Guidance.

(* ================================================================== *)
(** ** ToolRegistry: [_customize_mcp_components], [_create_http_client] *)
(* ================================================================== *)

Module Registry.

(** What the customisation hook looks at in a component: the name of its
    class, its name, and its [parameters] attribute when it has one. *)
Record component : Type := {
  class_name : string;
  name : string;
  parameters : option json
}.

(** [required.remove(s)]: the first element equal to [s] goes. *)
Fixpoint remove_first (s : string) (l : list json) : list json :=
  match l with
  | [] => []
  | x :: rest => if str_eq s x then rest else x :: remove_first s rest
  end.

(** [properties = component.parameters.get("properties", {})], then the
    deletion of the entry of the identifier. *)
Definition strip_properties (params : json) : res json :=
  properties <- get params "properties" (JDict []) ;;
  present <- str_in "app_identifier" properties ;;
  if present then
    match properties with
    | JDict props =>
        setitem params "properties" (JDict (dict_del "app_identifier" props))
    | _ => Exc TypeError
    end
  else Ret params.

(** [required = component.parameters.get("required", [])], then the
    removal of the identifier and the assignment back. *)
Definition strip_required (params : json) : res json :=
  required <- get params "required" (JList []) ;;
  present <- str_in "app_identifier" required ;;
  if present then
    match required with
    | JList l => setitem params "required" (JList (remove_first "app_identifier" l))
    | _ => Exc AttributeError
    end
  else Ret params.

Definition with_parameters (c : component) (params : json) : component :=
  {| class_name := class_name c; name := name c; parameters := Some params |}.

(** [_customize_mcp_components(route, component)].  The component is
    updated in place; an exception leaves it as it was when raised, and
    is logged. *)
Definition _customize_mcp_components (c : component) : component :=
  if contains "Tool" (class_name c) then
    match parameters c with
    | Some params =>
        if truthy params then
          match strip_properties params with
          | Ret params1 =>
              match strip_required params1 with
              | Ret params2 => with_parameters c params2
              | _ => with_parameters c params1
              end
          | _ => c
          end
        else c
    | None => c
    end
  else c.

(** *** The HTTP client *)

Definition b64_alphabet : string :=
  "ABCDEFGHIJKLMNOPQRSTUVWXYZabcdefghijklmnopqrstuvwxyz0123456789+/".

Definition b64_digit (n : nat) : string :=
  match String.get n b64_alphabet with
  | Some c => String c EmptyString
  | None => EmptyString
  end.

(** [base64.b64encode] *)
Fixpoint b64encode (s : string) : string :=
  match s with
  | EmptyString => EmptyString
  | String a EmptyString =>
      let x := nat_of_ascii a in
      b64_digit (x / 4) ++ b64_digit (x mod 4 * 16) ++ "=="
  | String a (String b EmptyString) =>
      let x := nat_of_ascii a in
      let y := nat_of_ascii b in
      b64_digit (x / 4) ++ b64_digit (x mod 4 * 16 + y / 16)
      ++ b64_digit (y mod 16 * 4) ++ "="
  | String a (String b (String c rest)) =>
      let x := nat_of_ascii a in
      let y := nat_of_ascii b in
      let z := nat_of_ascii c in
      b64_digit (x / 4) ++ b64_digit (x mod 4 * 16 + y / 16)
      ++ b64_digit (y mod 16 * 4 + z / 64) ++ b64_digit (z mod 64)
      ++ b64encode rest
  end.

(** The attributes of the server the client is built from. *)
Record server : Type := {
  api_key : string;
  base_url : string;
  timeout : spec_float;
  app_name : string;
  app_email : string
}.

(** The configuration an [httpx.AsyncClient] is constructed with. *)
Record async_client : Type := {
  client_base_url : string;
  client_headers : list (string * string);
  client_timeout : spec_float;
  client_params : list (string * string)
}.

(** [_create_app_identifier] *)
Definition _create_app_identifier (self : server) : string :=
  b64encode (app_name self ++ ":" ++ app_email self).

(** The wrapper class [RateLimitedClient]. *)
Record rate_limited_client : Type := {
  _client : async_client
}.

Definition _wrap_client_with_rate_limiting (client : async_client)
  : rate_limited_client :=
  {| _client := client |}.

(** [_create_http_client] *)
Definition _create_http_client (self : server) : rate_limited_client :=
  let headers :=
    [ ("X-HDX-HAPI-APP-IDENTIFIER", api_key self);
      ("Content-Type", "application/json");
      ("Accept", "application/json") ] in
  let base_client :=
    {| client_base_url := base_url self;
       client_headers := headers;
       client_timeout := timeout self;
       client_params := [("app_identifier", _create_app_identifier self)] |} in
  _wrap_client_with_rate_limiting base_client.

(** What a call of a verb of the wrapper does, in order: it enters the
    throttler, then calls the method of that name of the wrapped client
    with the arguments it was given. *)
Inductive event (A : Type) : Type :=
| Enter_throttler
| Call (client : async_client) (method_name : string) (args : A).

Arguments Enter_throttler {A}.
Arguments Call {A} client method_name args.

Section Verbs.

Context {A : Type}.

(** [_rate_limited_method] *)
Definition _rate_limited_method (self : rate_limited_client)
  (method_name : string) (args : A) : list (event A) :=
  [ Enter_throttler; Call (_client self) method_name args ].

(** The method [get] of the wrapper ([get] alone names the dict method
    above). *)
Definition get_ (self : rate_limited_client) (args : A) :=
  _rate_limited_method self "get" args.
Definition post (self : rate_limited_client) (args : A) :=
  _rate_limited_method self "post" args.
Definition put (self : rate_limited_client) (args : A) :=
  _rate_limited_method self "put" args.
Definition patch (self : rate_limited_client) (args : A) :=
  _rate_limited_method self "patch" args.
Definition delete (self : rate_limited_client) (args : A) :=
  _rate_limited_method self "delete" args.
Definition head (self : rate_limited_client) (args : A) :=
  _rate_limited_method self "head" args.
Definition options (self : rate_limited_client) (args : A) :=
  _rate_limited_method self "options" args.
Definition request (self : rate_limited_client) (args : A) :=
  _rate_limited_method self "request" args.


End Verbs.

End Registry.

Export Registry.

(* ================================================================== *)
(** ** Gateway: the custom tools of [hdx_tools.py] *)
(* ================================================================== *)

Module Gateway.

(** What the tools use of an [httpx.Response]: the outcome of
    [raise_for_status()] and the outcome of [json()]. *)
Record response : Type := {
  raise_for_status : res unit;
  response_json : res json
}.

Definition optional_str (o : option string) : json :=
  match o with Some s => JStr s | None => JNull end.

Definition optional_bool (o : option bool) : json :=
  match o with Some b => JBool b | None => JNull end.

Section WithServer.

(** [server_instance._rate_limited_request(method, url, params=...)]:
    the awaited call either raises or gives a response. *)
Variable _rate_limited_request : string -> string -> dict -> res response.

(** The [try] block of [get_dataset_info]. *)
Definition get_dataset_info_try (dataset_hdx_id : string) : res json :=
  response <- _rate_limited_request "get" "/metadata/dataset"
                [("dataset_hdx_id", JStr dataset_hdx_id)] ;;
  raise_for_status response ;;;
  data <- response_json response ;;
  found <- get data "data" JNull ;;
  if negb (truthy found) then
    Ret (JDict [ ("error", JStr "Dataset not found");
                 ("dataset_hdx_id", JStr dataset_hdx_id) ])
  else
    payload <- getitem data "data" ;;
    dataset <- (if truthy payload
                then again <- getitem data "data" ;; getitem0 again
                else Ret JNull) ;;
    Ret (JDict [ ("status", JStr "success");
                 ("dataset", dataset);
                 ("dataset_hdx_id", JStr dataset_hdx_id) ]).

(** [get_dataset_info(server_instance, dataset_hdx_id)] *)
Definition get_dataset_info (dataset_hdx_id : string) : json :=
  match get_dataset_info_try dataset_hdx_id with
  | Ret result => result
  | _ =>
      JDict [ ("error", JStr "Failed to fetch dataset information");
              ("dataset_hdx_id", JStr dataset_hdx_id) ]
  end.

Definition filters_applied (name_pattern : option string) (has_hrp : option bool)
  : json :=
  JDict [ ("name_pattern", optional_str name_pattern);
          ("has_hrp", optional_bool has_hrp) ].

(** The query parameters [search_locations] builds. *)
Definition location_params (name_pattern : option string) (has_hrp : option bool)
  : dict :=
  let params := [] in
  let params :=
    if truthy (optional_str name_pattern)
    then dict_set "name" (optional_str name_pattern) params
    else params in
  match has_hrp with
  | Some b => dict_set "has_hrp" (JStr (if b then "true" else "false")) params
  | None => params
  end.

(** The [try] block of [search_locations]. *)
Definition search_locations_try (name_pattern : option string)
  (has_hrp : option bool) : res json :=
  response <- _rate_limited_request "get" "/metadata/location"
                (location_params name_pattern has_hrp) ;;
  raise_for_status response ;;;
  data <- response_json response ;;
  locations <- get data "data" (JList []) ;;
  counted <- get data "data" (JList []) ;;
  count <- len counted ;;
  Ret (JDict [ ("status", JStr "success");
               ("locations", locations);
               ("count", JInt (Z.of_nat count));
               ("filters_applied", filters_applied name_pattern has_hrp) ]).

(** [search_locations(server_instance, name_pattern, has_hrp)] *)
Definition search_locations (name_pattern : option string)
  (has_hrp : option bool) : json :=
  match search_locations_try name_pattern has_hrp with
  | Ret result => result
  | _ =>
      JDict [ ("error", JStr "Failed to search locations");
              ("filters_applied", filters_applied name_pattern has_hrp) ]
  end.

End WithServer.

End Gateway.

Export Gateway.

(* ================================================================== *)
(** ** Vocabulary of the properties *)
(* ================================================================== *)

Module Graph.

(** A reference node is a dict with a ["$ref"] key.  [has_ref v]: there
    is a reference node somewhere in [v]. *)
Fixpoint has_ref (v : json) : bool :=
  match v with
  | JDict d =>
      dict_has "$ref" d || existsb (fun kv => has_ref (snd kv)) d
  | JList l => existsb has_ref l
  | _ => false
  end.

(** There is a reference node in [v] at nesting depth at most [n], the
    depth of [v] itself being 0 and each dict or list adding one. *)
Fixpoint has_ref_within (n : nat) (v : json) {struct v} : bool :=
  match v with
  | JDict d =>
      dict_has "$ref" d
      || match n with
         | O => false
         | S m => existsb (fun kv => has_ref_within m (snd kv)) d
         end
  | JList l =>
      match n with
      | O => false
      | S m => existsb (has_ref_within m) l
      end
  | _ => false
  end.

(** There is a reference node in [v] at nesting depth above [n]. *)
Fixpoint has_ref_beyond (n : nat) (v : json) {struct v} : bool :=
  match v with
  | JDict d =>
      existsb (fun kv => match n with
                         | O => has_ref (snd kv)
                         | S m => has_ref_beyond m (snd kv)
                         end) d
  | JList l =>
      existsb (fun x => match n with
                        | O => has_ref x
                        | S m => has_ref_beyond m x
                        end) l
  | _ => false
  end.

Definition is_str (v : json) : bool :=
  match v with JStr _ => true | _ => false end.

Definition is_list (v : json) : bool :=
  match v with JList _ => true | _ => false end.

(** The shape the resolver relies on: the value of every ["$ref"] key is
    a string and the value of every ["enum"] key is a list. *)
Definition key_typed (k : string) (v : json) : bool :=
  (if String.eqb k "$ref" then is_str v else true)
  && (if String.eqb k "enum" then is_list v else true).

Fixpoint well_typed (v : json) : bool :=
  match v with
  | JDict d => forallb (fun kv => key_typed (fst kv) (snd kv) && well_typed (snd kv)) d
  | JList l => forallb well_typed l
  | _ => true
  end.

Definition entry_typed (kv : string * json) : bool :=
  key_typed (fst kv) (snd kv) && well_typed (snd kv).

(** The table of definitions is a dict of well-typed dicts. *)
Definition well_typed_schemas (schemas : json) : bool :=
  match schemas with
  | JDict defs => forallb (fun kv => is_dict (snd kv) && well_typed (snd kv)) defs
  | _ => false
  end.

Section WithSchemas.

Variable schemas : json.

(** The composite node [d] carries no reference outside the branch list
    under [key]. *)
Definition rest_ref_free (key : string) (d : dict) : bool :=
  negb (has_ref (JDict (dict_set key JNull d))).

(** The traversal of [obj] that [resolve_refs_recursively] makes from
    [depth] expands every reference it meets: each one names a
    definition that is there and not empty, none is left in a node
    reached above depth 10, and none sits beside the branch list of a
    composite node. *)
Fixpoint expands_fully (gas : nat) (obj : json) (depth : nat) {struct gas} : bool :=
  match gas with
  | O => false
  | S gas' =>
      if (10 <? depth)%nat then negb (has_ref obj)
      else
        match obj with
        | JDict d =>
            match dict_get "$ref" d with
            | Some ref_path =>
                match resolve_ref schemas ref_path with
                | Ret resolved_schema =>
                    truthy resolved_schema
                    && match merge_siblings resolved_schema d with
                       | Ret inline_schema => expands_fully gas' inline_schema (depth + 1)
                       | _ => false
                       end
                | _ => false
                end
            | None =>
                let expands item := expands_fully gas' item (depth + 1) in
                match branch_list "anyOf" d with
                | Some any_of => forallb expands any_of && rest_ref_free "anyOf" d
                | None =>
                match branch_list "oneOf" d with
                | Some one_of => forallb expands one_of && rest_ref_free "oneOf" d
                | None =>
                match branch_list "allOf" d with
                | Some all_of => forallb expands all_of && rest_ref_free "allOf" d
                | None => forallb (fun kv => expands (snd kv)) d
                end end end
            end
        | JList l => forallb (fun item => expands_fully gas' item (depth + 1)) l
        | _ => true
        end
  end.

End WithSchemas.

(** [v'] is what the resolver returns for [v] at some depth. *)
Definition resolution_of (schemas v v' : json) : Prop :=
  exists gas depth, resolve_refs_recursively schemas gas v depth = Ret v'.

Fixpoint distinct_keys (l : list string) : bool :=
  match l with
  | [] => true
  | k :: rest => negb (existsb (String.eqb k) rest) && distinct_keys rest
  end.

(** All the dicts of a value have pairwise distinct keys, as every
    Python dict has. *)
Fixpoint wf (v : json) : bool :=
  match v with
  | JDict d => distinct_keys (map fst d) && forallb (fun kv => wf (snd kv)) d
  | JList l => forallb wf l
  | _ => true
  end.

End Graph.

Export Graph.

(** *** Tools *)

(** The envelope [search_locations] returns when its [try] block
    raises. *)
Definition search_failure (name_pattern : option string) (has_hrp : option bool)
  : json :=
  JDict [ ("error", JStr "Failed to search locations");
          ("filters_applied",
           JDict [ ("name_pattern", optional_str name_pattern);
                   ("has_hrp", optional_bool has_hrp) ]) ].

Definition not_found (dataset_hdx_id : string) : json :=
  JDict [ ("error", JStr "Dataset not found");
          ("dataset_hdx_id", JStr dataset_hdx_id) ].

Definition fetch_failure (dataset_hdx_id : string) : json :=
  JDict [ ("error", JStr "Failed to fetch dataset information");
          ("dataset_hdx_id", JStr dataset_hdx_id) ].

Definition found (dataset : json) (dataset_hdx_id : string) : json :=
  JDict [ ("status", JStr "success");
          ("dataset", dataset);
          ("dataset_hdx_id", JStr dataset_hdx_id) ].

(** [envelope[key]] when the envelope has the key. *)
Definition field (key : string) (envelope : json) : option json :=
  match envelope with
  | JDict d => dict_get key d
  | _ => None
  end.

(** A server whose upstream call answers 200 with the body [body]. *)
Definition answers (body : json) : string -> string -> dict -> res response :=
  fun _ _ _ => Ret {| raise_for_status := Ret tt; response_json := Ret body |}.

(** *** Components *)

(** The schema a component advertises names the identity parameter,
    among its properties or in its list of required names. *)
Definition mentions_identity (c : component) : bool :=
  match parameters c with
  | Some (JDict params) =>
      match dict_get "properties" params with
      | Some (JDict properties) => dict_has "app_identifier" properties
      | _ => false
      end
      || match dict_get "required" params with
         | Some (JList required) => existsb (str_eq "app_identifier") required
         | _ => false
         end
  | _ => false
  end.


(** *** Parameter defaults *)

(** [param["schema"]["default"]] of a parameter whose schema is a
    dict. *)
Definition default_of (param : json) : option json :=
  match param with
  | JDict p =>
      match dict_get "schema" p with
      | Some (JDict schema) => dict_get "default" schema
      | _ => None
      end
  | _ => None
  end.


(** *** Operation identifiers *)

(** The identifier the table gives to an operation, its own when the
    path is not in the table. *)
Definition canonical (op : string * string * json) : string * string * json :=
  match op with
  | (path, method, id) =>
      match table_get path path_to_operation_id with
      | Some new_operation_id => (path, method, JStr new_operation_id)
      | None => (path, method, id)
      end
  end.

Definition mapped (path : string) : Prop :=
  table_get path path_to_operation_id <> None.

(** *** Guidance *)

(** [text] appended to [s] unless [s] contains it already. *)
Definition once (text s : string) : string :=
  if contains text s then s else s ++ text.



(** The field [field] of the operation holds a value that contains
    [text]. *)
Definition present (field text : string) (operation : dict) : Prop :=
  exists current,
    dict_get field operation = Some current /\ str_in text current = Ret true.

(** The summary, or without one the description, is text. *)
Definition text_fields (operation : dict) : bool :=
  match dict_get "summary" operation with
  | Some v => is_str v
  | None =>
      match dict_get "description" operation with
      | Some v => is_str v
      | None => true
      end
  end.

(** Data of the examples. *)
Module Examples.

Definition location_schemas : json :=
  JDict
    [ ("LocationResponse",
       JDict [ ("type", JStr "object");
               ("description", JStr "from the definition");
               ("properties",
                JDict [ ("code", JDict [("type", JStr "string")]);
                        ("admin1", JDict [("$ref", JStr "#/components/schemas/Admin1")]) ]) ]);
      ("Admin1",
       JDict [ ("type", JStr "object");
               ("properties", JDict [("name", JDict [("type", JStr "string")])]) ]);
      ("Loop", JDict [("$ref", JStr "#/components/schemas/Loop")]);
      ("Tree",
       JDict [("children", JDict [("$ref", JStr "#/components/schemas/Tree")])]) ].

Definition location_ref : dict :=
  [ ("$ref", JStr "#/components/schemas/LocationResponse");
    ("description", JStr "local") ].

Definition loop_ref : json :=
  JDict [("$ref", JStr "#/components/schemas/Loop")].

Definition missing_ref : json :=
  JDict [("$ref", JStr "#/components/schemas/Missing")].

Definition guidance_spec : json :=
  JDict
    [ ("paths",
       JDict
         [ ("/api/v2/affected-people/idps",
            JDict [ ("get", JDict [ ("operationId", JStr "affected_people_idps_get");
                                    ("summary", JStr "Get IDP data") ]) ]);
           ("/api/v2/metadata/location",
            JDict [ ("get", JDict [ ("operationId", JStr "metadata_location_get");
                                    ("summary", JStr "Get locations") ]) ]);
           ("/api/v2/affected-people/returnees",
            JDict [ ("get", JDict [ ("description", JStr "Returnees") ]) ]) ]) ].

Definition twice_required_tool : component :=
  {| class_name := "OpenAPITool";
     name := "metadata_location_get";
     parameters :=
       Some (JDict [ ("type", JStr "object");
                     ("properties", JDict [ ("app_identifier", JDict [("type", JStr "string")]);
                                            ("limit", JDict [("type", JStr "integer")]) ]);
                     ("required", JList [JStr "app_identifier"; JStr "app_identifier"]) ]) |}.

Definition location_tool : component :=
  {| class_name := "OpenAPITool";
     name := "metadata_location_get";
     parameters :=
       Some (JDict [ ("type", JStr "object");
                     ("properties", JDict [ ("app_identifier", JDict [("type", JStr "string")]);
                                            ("limit", JDict [("type", JStr "integer")]) ]);
                     ("required", JList [JStr "app_identifier"]) ]) |}.

Definition location_tool_parameters : dict :=
  [ ("type", JStr "object");
    ("properties", JDict [ ("app_identifier", JDict [("type", JStr "string")]);
                           ("limit", JDict [("type", JStr "integer")]) ]);
    ("required", JList [JStr "app_identifier"]) ].

Definition limit_schema : dict :=
  [("type", JStr "integer"); ("default", JInt 10000)].

(** Two methods on one path of the table, with identifiers of their
    own. *)
Definition two_methods_spec : json :=
  JDict
    [ ("paths",
       JDict
         [ ("/api/v2/metadata/location",
            JDict [ ("get", JDict [("operationId", JStr "get_locations")]);
                    ("post", JDict [("operationId", JStr "post_locations")]) ]) ]) ].

(** The specifications of [tests/unit/test_server_functions.py]. *)
Definition schema_test_spec : json :=
  JDict
    [ ("components",
       JDict
         [ ("schemas",
            JDict
              [ ("LocationResponse",
                 JDict [ ("type", JStr "object");
                         ("properties",
                          JDict [ ("code", JDict [("type", JStr "string")]);
                                  ("admin1",
                                   JDict [("$ref", JStr "#/components/schemas/Admin1")]) ]) ]);
                ("Admin1",
                 JDict [ ("type", JStr "object");
                         ("properties",
                          JDict [("name", JDict [("type", JStr "string")])]) ]) ]) ]);
      ("paths",
       JDict
         [ ("/api/v2/metadata/location",
            JDict
              [ ("get",
                 JDict
                   [ ("parameters",
                      JList
                        [ JDict [ ("name", JStr "limit");
                                  ("schema", JDict [ ("type", JStr "integer");
                                                     ("default", JInt 10000) ]) ];
                          JDict [ ("name", JStr "age_range");
                                  ("schema", JDict [("type", JStr "string")]) ];
                          JDict [ ("name", JStr "gender");
                                  ("schema", JDict [("type", JStr "string")]) ] ]);
                     ("responses",
                      JDict
                        [ ("200",
                           JDict
                             [ ("content",
                                JDict
                                  [ ("application/json",
                                     JDict
                                       [ ("schema",
                                          JDict
                                            [ ("$ref",
                                               JStr "#/components/schemas/LocationResponse") ]) ]) ]) ]) ]) ]) ]) ]) ].

Definition operation_id_test_spec : json :=
  JDict
    [ ("paths",
       JDict
         [ ("/api/v2/affected-people/idps",
            JDict [ ("get", JDict [ ("operationId",
                                     JStr "long_generated_operation_id_affected_people_idps") ]) ]);
           ("/api/v2/metadata/location",
            JDict [ ("get", JDict [ ("operationId",
                                     JStr "very_long_metadata_location_operation_id") ]) ]);
           ("/api/v2/unmapped/endpoint",
            JDict [ ("get", JDict [ ("operationId", JStr "should_remain_unchanged") ]) ]) ]) ].

(** [result["paths"][path]["get"]] *)
Definition get_operation (path : string) (result : res json) : option json :=
  match result with
  | Ret (JDict s) =>
      match dict_get "paths" s with
      | Some (JDict paths) =>
          match dict_get path paths with
          | Some (JDict methods) => dict_get "get" methods
          | _ => None
          end
      | _ => None
      end
  | _ => None
  end.

(** There is a reference node under ["paths"]. *)
Definition has_ref_in_paths (spec : json) : bool :=
  match spec with
  | JDict s =>
      match dict_get "paths" s with
      | Some paths => has_ref paths
      | None => false
      end
  | _ => false
  end.

Definition idps_path : string := "/api/v2/affected-people/idps".


Definition summarised_operation : dict :=
  [ ("operationId", JStr "affected_people_idps_get"); ("summary", JStr "Get IDP data") ].

End Examples.

(* ================================================================== *)
(** ** Further functions of the server and of the tools *)
(* ================================================================== *)

Module Summary.

(** [get_server_info(server_instance)] of [hdx_tools.py], on the
    [base_url] and the [openapi_spec] of the server; it has no [try]
    block. *)
Definition get_server_info (base_url : json) (openapi_spec : json) : res json :=
  paths <- get openapi_spec "paths" (JDict []) ;;
  total_endpoints <- len paths ;;
  Ret (JDict [ ("server_name", JStr "HDX MCP Server");
               ("version", JStr "1.0.0");
               ("base_url", base_url);
               ("total_endpoints", JInt (Z.of_nat total_endpoints));
               ("available_tools", JStr "Multiple tools available (see tools/list)");
               ("description", JStr "MCP server for Humanitarian Data Exchange API") ]).

End Summary.

Export Summary.

Module Transport.

(** [c.lower()] on a letter of the ASCII alphabet; every other byte is
    kept.  A method name is one of the names below after [str.lower]
    exactly when it is after this lowering of its bytes: no character
    outside ASCII lowers to the letters of these names. *)
Definition lower_byte (c : ascii) : ascii :=
  let n := nat_of_ascii c in
  if (65 <=? n)%nat && (n <=? 90)%nat then ascii_of_nat (n + 32) else c.

Fixpoint lower (s : string) : string :=
  match s with
  | EmptyString => EmptyString
  | String c rest => String (lower_byte c) (lower rest)
  end.

Section Request.

Context {A : Type}.

(** [getattr(self.client, name)] for the names the wrapper class defines
    as rate-limited verbs; any other name is looked up on the wrapped
    [httpx] client and is not modelled. *)
Definition verb_named (name : string)
  : option (rate_limited_client -> A -> list (event A)) :=
  if String.eqb name "get" then Some get_
  else if String.eqb name "post" then Some post
  else if String.eqb name "put" then Some put
  else if String.eqb name "patch" then Some patch
  else if String.eqb name "delete" then Some delete
  else if String.eqb name "head" then Some head
  else if String.eqb name "options" then Some options
  else if String.eqb name "request" then Some request
  else None.

(** [_rate_limited_request(method, url, **kwargs)] of the server, whose
    [self.client] is the rate-limited wrapper: the throttler is entered,
    then the verb of the wrapper is called with the URL and the keyword
    arguments. *)
Definition _rate_limited_request (client : rate_limited_client)
  (method : string) (args : A) : option (list (event A)) :=
  match verb_named (lower method) with
  | Some verb => Some (Enter_throttler :: verb client args)
  | None => None
  end.

End Request.

(** The number of times a trace enters the throttler. *)
Fixpoint admissions {A : Type} (trace : list (event A)) : nat :=
  match trace with
  | [] => 0
  | Enter_throttler :: rest => S (admissions rest)
  | Call _ _ _ :: rest => admissions rest
  end.

(** The calls a trace makes on the wrapped client. *)
Fixpoint calls {A : Type} (trace : list (event A))
  : list (async_client * string * A) :=
  match trace with
  | [] => []
  | Enter_throttler :: rest => calls rest
  | Call client method_name args :: rest => (client, method_name, args) :: calls rest
  end.

End Transport.

Export Transport.

(* ================================================================== *)
(** ** Descriptions: references to endpoints rewritten to tools *)
(* ================================================================== *)

Module Descriptions.

(** The part of the syntax of [re] the patterns of the table are written
    in: a character, a character followed by [?], and a class of
    characters.  The patterns are ASCII, and a byte of ASCII is a
    character of its own in UTF-8, so that matching bytes is matching
    characters. *)
Inductive atom : Type :=
| Chr (c : ascii)
| Opt (c : ascii)
| OneOf (cs : list ascii).

Definition regex : Type := list atom.

(** One character that satisfies [one], then what [k] matches. *)
Definition step (one : ascii -> bool) (k : string -> option nat) (s : string)
  : option nat :=
  match s with
  | String a rest => if one a then option_map S (k rest) else None
  | EmptyString => None
  end.

(** The match of [p] at the start of [s], as the number of characters
    it consumes: the first one in the order of a backtracking matcher,
    in which [c?] takes the character when the rest then matches. *)
Fixpoint match_here (p : regex) (s : string) : option nat :=
  match p with
  | [] => Some 0
  | Chr c :: p' => step (Ascii.eqb c) (match_here p') s
  | OneOf cs :: p' => step (fun a => existsb (Ascii.eqb a) cs) (match_here p') s
  | Opt c :: p' =>
      match step (Ascii.eqb c) (match_here p') s with
      | Some n => Some n
      | None => match_here p' s
      end
  end.

(** [re.search(pattern, s)], as a truth value. *)
Fixpoint search (p : regex) (s : string) : bool :=
  match match_here p s with
  | Some _ => true
  | None =>
      match s with
      | String _ rest => search p rest
      | EmptyString => false
      end
  end.

(** [re.sub(pattern, replacement, s)] for a pattern that matches no
    empty string and a replacement without a backslash, which is what
    the table holds: the matches are replaced from the left, [skip]
    counting the characters of the current match that are still
    ahead. *)
Fixpoint sub_from (p : regex) (replacement : string) (skip : nat) (s : string)
  : string :=
  match s with
  | EmptyString => EmptyString
  | String c rest =>
      match skip with
      | S k => sub_from p replacement k rest
      | O =>
          match match_here p s with
          | Some (S n) => replacement ++ sub_from p replacement n rest
          | _ => String c (sub_from p replacement 0 rest)
          end
      end
  end.

Definition sub (p : regex) (replacement s : string) : string :=
  sub_from p replacement 0 s.

(** The pattern that matches the text [s] and nothing else. *)
Definition lit (s : string) : regex := map Chr (list_ascii_of_string s).

(** The double quote. *)
Definition quote : ascii := "034"%char.

(** [See the <a href="TARGET" target="_blank">] *)
Definition anchor (target : regex) : regex :=
  (lit "See the <a href=" ++ [Chr quote] ++ target ++ [Chr quote]
   ++ lit " target=" ++ [Chr quote] ++ lit "_blank" ++ [Chr quote] ++ lit ">")%list.

(** [_api_v[12]_] *)
Definition api_version : regex :=
  (lit "_api_v" ++ [OneOf ["1"; "2"]%char] ++ lit "_")%list.

(** [</a> for details\.?] *)
Definition for_details : regex := (lit "</a> for details" ++ [Opt "."%char])%list.

(** [description_patterns] *)
Definition description_patterns : list (regex * string) :=
  [ ((anchor (lit "/docs#/Metadata/get_location" ++ [Opt "s"%char] ++ api_version
             ++ lit "metadata_location_get")
      ++ lit "location endpoint" ++ for_details)%list,
     "Use the metadata_location_get tool to get available location codes and names.");
    ((anchor (lit "/docs#/Metadata/get_admin1" ++ api_version
             ++ lit "metadata_admin1_get")
      ++ lit "admin1 endpoint" ++ for_details)%list,
     "Use the metadata_admin1_get tool to get available admin1 codes and names.");
    ((anchor (lit "/docs#/Metadata/get_admin2" ++ api_version
             ++ lit "metadata_admin2_get")
      ++ lit "admin2 endpoint" ++ for_details)%list,
     "Use the metadata_admin2_get tool to get available admin2 codes and names.");
    ((anchor (lit "/docs#/Metadata/get_org_type" ++ api_version
             ++ lit "metadata_org_type_get")
      ++ lit "org type endpoint" ++ for_details)%list,
     "Use the metadata_org_type_get tool to get available "
     ++ "organization type codes and descriptions.");
    ((anchor (lit "/docs#/Metadata/get_org" ++ [Opt "s"%char] ++ api_version
             ++ lit "metadata_org_get")
      ++ lit "org endpoint" ++ for_details)%list,
     "Use the metadata_org_get tool to get available organization codes and names.");
    ((anchor (lit "/docs#/Metadata/get_sector" ++ [Opt "s"%char] ++ api_version
             ++ lit "metadata_sector_get")
      ++ lit "sector endpoint" ++ for_details)%list,
     "Use the metadata_sector_get tool to get available sector codes and names.");
    ((anchor (lit "/docs#/Metadata/get_currencie" ++ [Opt "s"%char] ++ api_version
             ++ lit "metadata_currency_get")
      ++ lit "currency endpoint" ++ for_details)%list,
     "Use the metadata_currency_get tool to get available currency codes.");
    ((anchor (lit "/docs#/Metadata/get_wfp_commoditie" ++ [Opt "s"%char] ++ api_version
             ++ lit "metadata_wfp_commodity_get")
      ++ lit "wfp commodity endpoint" ++ for_details)%list,
     "Use the metadata_wfp_commodity_get tool to get available "
     ++ "WFP commodity codes and names.");
    ((anchor (lit "/docs#/Metadata/get_wfp_market" ++ [Opt "s"%char] ++ api_version
             ++ lit "metadata_wfp_market_get")
      ++ lit "wfp market endpoint" ++ for_details)%list,
     "Use the metadata_wfp_market_get tool to get available WFP market codes and names.");
    ((anchor (lit "/docs#/Metadata/get_dataset" ++ [Opt "s"%char] ++ api_version
             ++ lit "metadata_dataset_get")
      ++ lit "dataset endpoint" ++ for_details)%list,
     "Use the metadata_dataset_get tool to get available dataset information.");
    ((anchor (lit "/docs#/Metadata/get_resource" ++ [Opt "s"%char] ++ api_version
             ++ lit "metadata_resource_get")
      ++ lit "resource endpoint" ++ for_details)%list,
     "Use the metadata_resource_get tool to get available resource information.");
    (lit "location endpoint", "metadata_location_get tool");
    (lit "admin1 endpoint", "metadata_admin1_get tool");
    (lit "admin2 endpoint", "metadata_admin2_get tool");
    (lit "org type endpoint", "metadata_org_type_get tool");
    (lit "org endpoint", "metadata_org_get tool");
    (lit "sector endpoint", "metadata_sector_get tool");
    (lit "currency endpoint", "metadata_currency_get tool");
    (lit "wfp commodity endpoint", "metadata_wfp_commodity_get tool");
    (lit "wfp market endpoint", "metadata_wfp_market_get tool");
    (lit "dataset endpoint", "metadata_dataset_get tool");
    (lit "resource endpoint", "metadata_resource_get tool") ].

(** Body of [for pattern, replacement in description_patterns]. *)
Definition apply_pattern (updated_desc : string) (entry : regex * string) : string :=
  if search (fst entry) updated_desc
  then sub (fst entry) (snd entry) updated_desc
  else updated_desc.

(** The loop over the table, from the original description. *)
Definition apply_patterns (original_desc : string) : string :=
  fold_left apply_pattern description_patterns original_desc.

(** The rewriting of the description of one dict, when it has one that
    is a string. *)
Definition update_description (obj : dict) : dict :=
  match dict_get "description" obj with
  | Some (JStr original_desc) =>
      let updated_desc := apply_patterns original_desc in
      if String.eqb updated_desc original_desc then obj
      else dict_set "description" (JStr updated_desc) obj
  | _ => obj
  end.

(** [update_descriptions_recursive(obj, path_info)], which updates
    [obj] in place; [path_info] is used in the log only.  The recursion
    of the code follows the nesting of the value; [gas] bounds it
    here. *)
Fixpoint update_descriptions_recursive (gas : nat) (obj : json) : res json :=
  match gas with
  | O => OutOfGas
  | S g =>
      match obj with
      | JDict d =>
          entries <-
            mapM (fun kv =>
                    v <- update_descriptions_recursive g (snd kv) ;;
                    Ret (fst kv, v))
                 (update_description d) ;;
          Ret (JDict entries)
      | JList l =>
          updated <- mapM (update_descriptions_recursive g) l ;;
          Ret (JList updated)
      | _ => Ret obj
      end
  end.

(** The nesting of a value: 0 for a scalar, one more than the deepest
    member for a dict or a list. *)
Fixpoint height (obj : json) : nat :=
  match obj with
  | JDict d => S (fold_right (fun kv n => Nat.max (height (snd kv)) n) 0 d)
  | JList l => S (fold_right (fun x n => Nat.max (height x) n) 0 l)
  | _ => 0
  end.

(** A call of [update_descriptions_recursive] from the pass, with the
    budget the nesting of the value asks for. *)
Definition update_descriptions (obj : json) : res json :=
  update_descriptions_recursive (S (height obj)) obj.

(** Body of [for method, method_data in path_data.items()]. *)
Definition update_method (method_data : json) : res json :=
  if is_dict method_data then update_descriptions method_data
  else Ret method_data.

(** Body of the loop over the paths. *)
Definition update_path (path : string) (path_data : json) : res json :=
  methods <- items path_data ;;
  methods' <- mapM (fun kv => v <- update_method (snd kv) ;; Ret (fst kv, v)) methods ;;
  Ret (JDict methods').

(** The part of the pass on [components/schemas]. *)
Definition update_components (updated_spec : json) : res json :=
  has_components <- str_in "components" updated_spec ;;
  if has_components then
    components <- getitem updated_spec "components" ;;
    has_schemas <- str_in "schemas" components ;;
    if has_schemas then
      schemas <- getitem components "schemas" ;;
      schemas' <- update_descriptions schemas ;;
      components' <- setitem components "schemas" schemas' ;;
      setitem updated_spec "components" components'
    else Ret updated_spec
  else Ret updated_spec.

(** [_update_parameter_descriptions(spec)], on a specification as
    [json.loads] gives it, in which no dict or list is shared between
    two places. *)
Definition _update_parameter_descriptions (spec : json) : res json :=
  updated_spec <- over_paths update_path spec ;;
  update_components updated_spec.

End Descriptions.

Export Descriptions.

Module Loader.

(** [_load_openapi_spec], on the outcome of [httpx.get(self.openapi_url,
    ...)]: an exception of the [try] block is logged and raised again.
    The length of the paths is taken for the log. *)
Definition _load_openapi_spec (fetched : res response) : res json :=
  response <- fetched ;;
  raise_for_status response ;;;
  spec <- response_json response ;;
  spec <- _fix_openapi_schema_references spec ;;
  spec <- _simplify_operation_ids spec ;;
  spec <- _update_parameter_descriptions spec ;;
  spec <- _add_admin_level_guidance spec ;;
  paths <- get spec "paths" (JDict []) ;;
  len paths ;;;
  Ret spec.

End Loader.

Export Loader.

(* ================================================================== *)
(** ** Config: the required settings of the environment *)
(* ================================================================== *)

Module Config.

(** A [str] as the sequence of its code points; a value of the
    environment is text. *)
Definition text : Type := list N.

(** The text of an ASCII literal. *)
Definition text_of (s : string) : text := map N_of_ascii (list_ascii_of_string s).

(** [c.isspace()] for one character, as CPython has it: the characters
    U+0009 to U+000D, U+001C to U+0020, U+0085, U+00A0, U+1680, U+2000
    to U+200A, U+2028, U+2029, U+202F, U+205F and U+3000. *)
Definition isspace (c : N) : bool :=
  ((9 <=? c) && (c <=? 13) || (28 <=? c) && (c <=? 32)
   || (c =? 133) || (c =? 160) || (c =? 5760)
   || (8192 <=? c) && (c <=? 8202)
   || (c =? 8232) || (c =? 8233) || (c =? 8239) || (c =? 8287)
   || (c =? 12288))%N.

(** [s.lstrip()] *)
Fixpoint lstrip (s : text) : text :=
  match s with
  | [] => []
  | c :: rest => if isspace c then lstrip rest else s
  end.

(** [s.strip()] *)
Definition strip (s : text) : text := rev (lstrip (rev (lstrip s))).

(** [not s] for a string. *)
Definition falsy (s : text) : bool :=
  match s with [] => true | _ :: _ => false end.

(** What a call gives: the value it returns, or the [ValueError] it
    raises with its message. *)
Inductive outcome : Type :=
| Value (v : text)
| ValueError (message : text).

(** [_get_required_env(key)], on the environment [os.getenv] reads. *)
Definition _get_required_env (environ : text -> option text) (key : text) : outcome :=
  let not_set :=
    ValueError (text_of "Required environment variable " ++ key
                ++ text_of " is not set")%list in
  match environ key with
  | None => not_set
  | Some value =>
      if falsy value || falsy (strip value) then not_set
      else Value (strip value)
  end.

End Config.

Export Config.

(** *** Vocabulary of the properties of these functions *)

(** The names the wrapper class defines as rate-limited verbs. *)
Definition verb_names : list string :=
  [ "get"; "post"; "put"; "patch"; "delete"; "head"; "options"; "request" ].

(** The required names of a schema other than [s], in order. *)
Definition others (s : string) (required : list json) : list json :=
  filter (fun x => negb (str_eq s x)) required.

(** The pattern starts with the characters of [w]. *)
Fixpoint starts_with (w : string) (p : regex) : bool :=
  match w with
  | EmptyString => true
  | String c w' =>
      match p with
      | Chr c' :: p' => Ascii.eqb c' c && starts_with w' p'
      | _ => false
      end
  end.

(** The characters of [w] stand in the pattern one after the other, so
    that whatever the pattern matches contains [w]. *)
Fixpoint requires (w : string) (p : regex) : bool :=
  starts_with w p
  || match p with
     | [] => false
     | _ :: p' => requires w p'
     end.

(** Some dict of [obj], [obj] itself included, has a description that
    is a string in which [w] occurs. *)
Fixpoint describes (w : string) (obj : json) : bool :=
  match obj with
  | JDict d =>
      match dict_get "description" d with
      | Some (JStr s) => contains w s
      | _ => false
      end
      || existsb (fun kv => describes w (snd kv)) d
  | JList l => existsb (describes w) l
  | _ => false
  end.

(** [obj] with every description that is a string blanked. *)
Fixpoint blank (obj : json) : json :=
  match obj with
  | JDict d =>
      JDict (map (fun kv =>
                    (fst kv,
                     if String.eqb "description" (fst kv) && is_str (snd kv)
                     then JStr EmptyString
                     else blank (snd kv))) d)
  | JList l => JList (map blank l)
  | _ => obj
  end.

(** [spec["paths"]] when it is a dict, as its entries. *)
Definition paths_of (spec : json) : dict :=
  match spec with
  | JDict s =>
      match dict_get "paths" s with
      | Some (JDict paths) => paths
      | _ => []
      end
  | _ => []
  end.

(** Every operation identifier of the specification is a string. *)
Definition named_by_strings (spec : json) : bool :=
  forallb (fun op => is_str (snd op)) (operation_ids spec).

(** *** The parameters of a specification *)








(** *** The encoding of the application identifier, read back *)

(** The place of a character in a string, its length when it is not
    there. *)
Fixpoint position (c : ascii) (s : string) : nat :=
  match s with
  | EmptyString => 0
  | String a rest => if Ascii.eqb a c then 0 else S (position c rest)
  end.

Definition b64_value (c : ascii) : nat := position c b64_alphabet.

(** The decoding of base64: four characters give three bytes, two
    bytes before one [=], one byte before two.  It is the inverse of
    [b64encode], by which the encoding is shown to lose nothing. *)
Fixpoint b64decode (s : string) : string :=
  match s with
  | String a (String b (String c (String d rest))) =>
      let p := b64_value a in
      let q := b64_value b in
      let r := b64_value c in
      let t := b64_value d in
      if Ascii.eqb c "="%char then
        String (ascii_of_nat (p * 4 + q / 16)) EmptyString
      else if Ascii.eqb d "="%char then
        String (ascii_of_nat (p * 4 + q / 16))
          (String (ascii_of_nat (q mod 16 * 16 + r / 4)) EmptyString)
      else
        String (ascii_of_nat (p * 4 + q / 16))
          (String (ascii_of_nat (q mod 16 * 16 + r / 4))
             (String (ascii_of_nat (r mod 4 * 64 + t)) (b64decode rest)))
  | _ => EmptyString
  end.

(** Data of the examples of these functions. *)
Module Samples.

(** The specification of [test_update_parameter_descriptions]. *)
Definition description_test_spec : json :=
  JDict
    [ ("paths",
       JDict
         [ ("/api/v2/test",
            JDict
              [ ("get",
                 JDict
                   [ ("parameters",
                      JList
                        [ JDict [ ("name", JStr "limit");
                                  ("description",
                                   JStr "See https://hdx-hapi.readthedocs.io/en/latest/ for details");
                                  ("schema", JDict [ ("type", JStr "integer");
                                                     ("default", JInt 10000) ]) ];
                          JDict [ ("name", JStr "admin_level");
                                  ("description",
                                   JStr "Administrative level (0=country, 1=admin1, 2=admin2)");
                                  ("schema", JDict [("type", JStr "integer")]) ] ]) ]) ]) ]) ].

(** A parameter as the HDX specification describes it. *)
Definition location_code_param : json :=
  JDict
    [ ("name", JStr "location_code");
      ("description",
       JStr ("Filter the response by location. See the <a href="
             ++ String quote "/docs#/Metadata/get_locations_api_v2_metadata_location_get"
             ++ String quote " target=" ++ String quote "_blank"
             ++ String quote ">location endpoint</a> for details."));
      ("schema", JDict [("type", JStr "string")]) ].

(** The server of [test_create_app_identifier]. *)
Definition test_server : server :=
  {| api_key := "key"; base_url := "https://hapi.humdata.org/api/v2";
     timeout := S754_zero false;
     app_name := "test-app"; app_email := "user@example.com" |}.

(** A text the table rewrites into one it would rewrite again. *)
Definition chained_reference : string := "resource endpointocation endpoint".




(** An operation whose parameter [limit] has the schema [true]. *)
Definition boolean_schema_spec : json :=
  JDict
    [ ("paths",
       JDict
         [ ("/api/v2/metadata/location",
            JDict
              [ ("get",
                 JDict
                   [ ("parameters",
                      JList [ JDict [ ("name", JStr "limit");
                                      ("schema", JBool true) ] ]) ]) ]) ]) ].

(** A successful download of [spec]. *)
Definition downloaded (spec : json) : res response :=
  Ret {| raise_for_status := Ret tt; response_json := Ret spec |}.

End Samples.

(* ================================================================== *)
(** * Properties *)
(* ================================================================== *)

(** ** Outcomes *)

Lemma bind_ret {A B : Type} (c : res A) (k : A -> res B) (b : B) :
  bind c k = Ret b -> exists a, c = Ret a /\ k a = Ret b.
Proof.
  destruct c as [a| |]; simpl; intros H; try discriminate.
  exists a; split; [reflexivity | exact H].
Qed.

Lemma bind_finishes {A B : Type} (c : res A) (k : A -> res B) :
  c <> OutOfGas -> (forall a, c = Ret a -> k a <> OutOfGas) ->
  bind c k <> OutOfGas.
Proof.
  destruct c as [a| |]; simpl; intros Hc Hk.
  - apply Hk; reflexivity.
  - discriminate.
  - contradiction.
Qed.

Lemma bind_started {A B : Type} (c : res A) (k : A -> res B) :
  bind c k <> OutOfGas -> c <> OutOfGas.
Proof. destruct c; simpl; congruence. Qed.

Section Outcomes.

Context {A B : Type}.

Lemma mapM_finishes (f : A -> res B) (l : list A) :
  (forall x, In x l -> f x <> OutOfGas) -> mapM f l <> OutOfGas.
Proof.
  induction l as [|x rest IH]; simpl; intros Hf.
  - discriminate.
  - apply bind_finishes.
    + apply Hf; left; reflexivity.
    + intros y _. apply bind_finishes.
      * apply IH. intros z Hz. apply Hf. right; exact Hz.
      * discriminate.
Qed.

(** Two functions that agree wherever the first one finishes give the
    same [mapM] whenever that of the first one finishes. *)
Lemma mapM_agree (f g : A -> res B) (l : list A) :
  (forall x, f x <> OutOfGas -> g x = f x) ->
  mapM f l <> OutOfGas -> mapM g l = mapM f l.
Proof.
  intros Hfg. induction l as [|x rest IH]; simpl; intros Hfin.
  - reflexivity.
  - pose proof (bind_started _ _ Hfin) as Hx.
    rewrite (Hfg x Hx).
    destruct (f x) as [y| |]; simpl in *; try reflexivity.
    rewrite IH; [reflexivity|].
    exact (bind_started _ _ Hfin).
Qed.

Lemma mapM_ret (f : A -> res B) (l : list A) (out : list B) :
  mapM f l = Ret out -> Forall2 (fun x y => f x = Ret y) l out.
Proof.
  revert out. induction l as [|x rest IH]; simpl; intros out H.
  - injection H as <-. constructor.
  - apply bind_ret in H. destruct H as (y & Hy & H).
    apply bind_ret in H. destruct H as (ys & Hys & H).
    injection H as <-. constructor; [exact Hy | apply IH; exact Hys].
Qed.

Lemma mapM_all_ret (f : A -> res B) (l : list A) :
  Forall (fun x => exists y, f x = Ret y) l -> exists out, mapM f l = Ret out.
Proof.
  induction 1 as [|x rest (y & Hy) _ (ys & Hys)]; simpl.
  - eexists; reflexivity.
  - rewrite Hy; simpl. rewrite Hys; simpl. eexists; reflexivity.
Qed.

End Outcomes.

(** ** The operators never run out of budget *)

Lemma str_in_finishes s c : str_in s c <> OutOfGas.
Proof. destruct c; discriminate. Qed.

Lemma getitem_finishes c k : getitem c k <> OutOfGas.
Proof. destruct c; simpl; try discriminate. destruct (dict_get k entries); discriminate. Qed.

Lemma setitem_finishes c k v : setitem c k v <> OutOfGas.
Proof. destruct c; discriminate. Qed.

Lemma len_finishes c : len c <> OutOfGas.
Proof. destruct c; discriminate. Qed.

Lemma resolve_ref_finishes schemas ref_path :
  resolve_ref schemas ref_path <> OutOfGas.
Proof.
  destruct ref_path; simpl; try discriminate.
  destruct (String.prefix ref_prefix s); [|discriminate].
  apply bind_finishes; [apply str_in_finishes|].
  intros [|] _; [apply getitem_finishes | discriminate].
Qed.

Lemma merge_siblings_finishes obj_items : forall inline_schema,
  merge_siblings inline_schema obj_items <> OutOfGas.
Proof.
  induction obj_items as [|[key value] rest IH]; simpl; intros inline_schema.
  - discriminate.
  - destruct (String.eqb key "$ref"); [apply IH|].
    apply bind_finishes; [apply setitem_finishes | intros; apply IH].
Qed.

Lemma log_preserved_enum_finishes resolved_schema :
  log_preserved_enum resolved_schema <> OutOfGas.
Proof.
  unfold log_preserved_enum.
  apply bind_finishes; [apply str_in_finishes|].
  intros [|] _; [|discriminate].
  apply bind_finishes; [apply getitem_finishes|].
  intros e _. apply bind_finishes; [apply len_finishes | discriminate].
Qed.

Lemma log_found_enum_finishes item : log_found_enum item <> OutOfGas.
Proof.
  destruct item; simpl; try discriminate.
  destruct (dict_get "enum" entries); [|discriminate].
  apply bind_finishes; [apply len_finishes | discriminate].
Qed.

(** ** Termination of the resolver *)

Section Termination.

Variable schemas : json.

(** The body finishes as soon as its recursive calls, all made one level
    deeper, do; past the bound it makes none. *)
Lemma resolve_body_finishes (self : json -> nat -> res json) obj depth :
  (depth <= 10 -> forall o, self o (depth + 1) <> OutOfGas) ->
  resolve_body schemas self obj depth <> OutOfGas.
Proof.
  intros Hself. unfold resolve_body.
  destruct (Nat.ltb_spec 10 depth) as [Hdeep|Hshallow]; [discriminate|].
  specialize (Hself Hshallow).
  assert (Hlist : forall l, mapM (fun item => self item (depth + 1)) l <> OutOfGas)
    by (intros l; apply mapM_finishes; intros; apply Hself).
  assert (Hlog : forall l, mapM log_found_enum l <> OutOfGas)
    by (intros l; apply mapM_finishes; intros; apply log_found_enum_finishes).
  destruct obj as [| | | | |l|d]; try discriminate.
  - apply bind_finishes; [apply Hlist | discriminate].
  - destruct (dict_get "$ref" d) as [ref_path|].
    + apply bind_finishes; [apply resolve_ref_finishes|].
      intros resolved_schema _.
      destruct (truthy resolved_schema); [|discriminate].
      apply bind_finishes; [apply merge_siblings_finishes|].
      intros inline_schema _.
      apply bind_finishes; [apply log_preserved_enum_finishes|].
      intros _ _. apply Hself.
    + destruct (branch_list "anyOf" d).
      { apply bind_finishes; [apply Hlist|]. intros rs _.
        apply bind_finishes; [apply Hlog | discriminate]. }
      destruct (branch_list "oneOf" d).
      { apply bind_finishes; [apply Hlist|]. intros rs _.
        apply bind_finishes; [apply Hlog | discriminate]. }
      destruct (branch_list "allOf" d).
      { apply bind_finishes; [apply Hlist | discriminate]. }
      apply bind_finishes; [|discriminate].
      apply mapM_finishes. intros kv _.
      apply bind_finishes; [apply Hself | discriminate].
Qed.

Lemma resolve_finishes gas : forall obj depth,
  11 - depth < gas ->
  resolve_refs_recursively schemas gas obj depth <> OutOfGas.
Proof.
  induction gas as [|gas IH]; intros obj depth Hgas; [lia|].
  simpl. apply resolve_body_finishes.
  intros Hshallow o. apply IH. lia.
Qed.

(** The body gives the same outcome for two versions of [self] that
    agree wherever the first one finishes. *)
Lemma resolve_body_agree (self1 self2 : json -> nat -> res json) obj depth :
  (forall o d, self1 o d <> OutOfGas -> self2 o d = self1 o d) ->
  resolve_body schemas self1 obj depth <> OutOfGas ->
  resolve_body schemas self2 obj depth = resolve_body schemas self1 obj depth.
Proof.
  intros Hagree. unfold resolve_body.
  destruct (10 <? depth)%nat; [reflexivity|].
  assert (Hlist : forall l,
             mapM (fun item => self1 item (depth + 1)) l <> OutOfGas ->
             mapM (fun item => self2 item (depth + 1)) l
             = mapM (fun item => self1 item (depth + 1)) l)
    by (intros l; apply mapM_agree; intros; apply Hagree; assumption).
  destruct obj as [| | | | |l|d]; try reflexivity.
  - intros H. rewrite Hlist; [reflexivity | exact (bind_started _ _ H)].
  - destruct (dict_get "$ref" d) as [ref_path|].
    + destruct (resolve_ref schemas ref_path) as [resolved_schema| |];
        simpl; try reflexivity.
      destruct (truthy resolved_schema); [|reflexivity].
      destruct (merge_siblings resolved_schema d) as [inline_schema| |];
        simpl; try reflexivity.
      destruct (log_preserved_enum resolved_schema); simpl; try reflexivity.
      apply Hagree.
    + destruct (branch_list "anyOf" d).
      { intros H. rewrite Hlist; [reflexivity | exact (bind_started _ _ H)]. }
      destruct (branch_list "oneOf" d).
      { intros H. rewrite Hlist; [reflexivity | exact (bind_started _ _ H)]. }
      destruct (branch_list "allOf" d).
      { intros H. rewrite Hlist; [reflexivity | exact (bind_started _ _ H)]. }
      intros H. apply bind_started in H.
      rewrite (mapM_agree
                 (fun kv => v <- self1 (snd kv) (depth + 1) ;; Ret (fst kv, v))
                 (fun kv => v <- self2 (snd kv) (depth + 1) ;; Ret (fst kv, v)));
        [reflexivity | | exact H].
      intros kv Hkv. rewrite Hagree; [reflexivity | exact (bind_started _ _ Hkv)].
Qed.

Lemma resolve_more_gas gas : forall obj depth,
  resolve_refs_recursively schemas gas obj depth <> OutOfGas ->
  resolve_refs_recursively schemas (S gas) obj depth
  = resolve_refs_recursively schemas gas obj depth.
Proof.
  induction gas as [|gas IH]; intros obj depth Hfin.
  - simpl in Hfin. congruence.
  - change (resolve_body schemas (resolve_refs_recursively schemas (S gas)) obj depth
            = resolve_body schemas (resolve_refs_recursively schemas gas) obj depth).
    apply resolve_body_agree; [|exact Hfin].
    intros o d Hod. apply IH; exact Hod.
Qed.

Lemma resolve_any_gas gas gas' obj depth :
  gas <= gas' ->
  resolve_refs_recursively schemas gas obj depth <> OutOfGas ->
  resolve_refs_recursively schemas gas' obj depth
  = resolve_refs_recursively schemas gas obj depth.
Proof.
  induction 1 as [|gas' Hle IH]; intros Hfin; [reflexivity|].
  rewrite resolve_more_gas; rewrite (IH Hfin); [reflexivity | exact Hfin].
Qed.

(** C1.  Whatever the table of definitions and the schema, cyclic or
    not, a call of the resolver at depth [depth] finishes within
    [11 - depth + 1] nested calls, so that a call from depth 0 never
    nests more than twelve deep (depths 0 to 11); more budget changes
    nothing; and a node reached at a depth above 10 is not expanded but
    returned as it is. *)
Theorem resolver_terminates_within_depth_bound obj depth gas :
  11 - depth < gas ->
  resolve_refs_recursively schemas gas obj depth <> OutOfGas
  /\ resolve_refs_recursively schemas gas obj depth
     = resolve_refs_recursively schemas (S (11 - depth)) obj depth
  /\ (10 < depth -> resolve_refs_recursively schemas gas obj depth = Ret obj).
Proof.
  intros Hgas. split; [|split].
  - apply resolve_finishes; exact Hgas.
  - apply resolve_any_gas; [lia|]. apply resolve_finishes. lia.
  - intros Hdeep. destruct gas as [|gas]; [lia|].
    simpl. unfold resolve_body.
    destruct (Nat.ltb_spec 10 depth); [reflexivity | lia].
Qed.

End Termination.

(** ** Facts about dicts *)

Lemma dict_get_set_same k v d : dict_get k (dict_set k v d) = Some v.
Proof.
  induction d as [|[k' v'] rest IH]; simpl.
  - rewrite String.eqb_refl. reflexivity.
  - destruct (String.eqb k k') eqn:E; simpl; rewrite E; [reflexivity | exact IH].
Qed.

Lemma dict_get_set_other k k' v d :
  k <> k' -> dict_get k' (dict_set k v d) = dict_get k' d.
Proof.
  intros Hne. induction d as [|[k0 v0] rest IH]; simpl.
  - destruct (String.eqb_spec k' k); [congruence | reflexivity].
  - destruct (String.eqb_spec k k0) as [->|Hk]; simpl.
    + destruct (String.eqb_spec k' k0); [congruence | reflexivity].
    + destruct (String.eqb k' k0); [reflexivity | exact IH].
Qed.

Lemma dict_has_set_other k k' v d :
  k <> k' -> dict_has k' (dict_set k v d) = dict_has k' d.
Proof. intros H. unfold dict_has. rewrite dict_get_set_other by exact H. reflexivity. Qed.

Lemma dict_set_same_value k v d :
  dict_get k d = Some v -> dict_set k v d = d.
Proof.
  induction d as [|[k' v'] rest IH]; simpl; [discriminate|].
  destruct (String.eqb k k').
  - intros [= ->]. reflexivity.
  - intros H. rewrite (IH H). reflexivity.
Qed.

Lemma dict_set_set k v w d : dict_set k w (dict_set k v d) = dict_set k w d.
Proof.
  induction d as [|[k' v'] rest IH]; simpl.
  - rewrite String.eqb_refl. reflexivity.
  - destruct (String.eqb k k') eqn:E; simpl; rewrite E; [reflexivity|].
    rewrite IH. reflexivity.
Qed.

(** What holds of every entry holds of the entry a lookup finds. *)
Lemma forallb_dict_get (P : string * json -> bool) k v d :
  forallb P d = true -> dict_get k d = Some v -> P (k, v) = true.
Proof.
  induction d as [|[k' v'] rest IH]; simpl; [discriminate|].
  intros H. apply andb_true_iff in H. destruct H as [Hhead Hrest].
  destruct (String.eqb_spec k k') as [->|Hne].
  - intros [= <-]. exact Hhead.
  - apply IH; exact Hrest.
Qed.

(** An assignment keeps what holds of every entry, when the value
    assigned fits under whichever spelling of the key is kept. *)
Lemma forallb_dict_set (P : string * json -> bool) k v d :
  forallb P d = true -> P (k, v) = true -> forallb P (dict_set k v d) = true.
Proof.
  intros Hd Hkv. induction d as [|[k' v'] rest IH]; simpl in *.
  - rewrite Hkv. reflexivity.
  - apply andb_true_iff in Hd. destruct Hd as [Hhead Hrest].
    destruct (String.eqb_spec k k') as [->|Hne]; simpl.
    + rewrite Hkv, Hrest. reflexivity.
    + rewrite Hhead, (IH Hrest). reflexivity.
Qed.

(** ** The resolver on well-typed schemas raises nothing *)

Section WellTyped.

Variable schemas : json.
Hypothesis schemas_typed : well_typed_schemas schemas = true.

Lemma well_typed_dict d : well_typed (JDict d) = forallb entry_typed d.
Proof. reflexivity. Qed.

Lemma resolve_ref_typed p :
  exists target,
    resolve_ref schemas (JStr p) = Ret (JDict target)
    /\ well_typed (JDict target) = true.
Proof.
  unfold resolve_ref.
  destruct (String.prefix ref_prefix p); [|exists []; split; reflexivity].
  destruct schemas as [| | | | | |defs]; try discriminate.
  unfold str_in, getitem, bind, dict_has.
  destruct (dict_get (remove_all ref_prefix p) defs) as [t|] eqn:Hget.
  - pose proof (forallb_dict_get _ _ _ _ schemas_typed Hget) as Ht. simpl in Ht.
    apply andb_true_iff in Ht. destruct Ht as [Hdict Hwt].
    destruct t; try discriminate. eexists; split; [reflexivity | exact Hwt].
  - exists []; split; reflexivity.
Qed.

Lemma merge_siblings_typed obj_items : forall target,
  exists inline,
    merge_siblings (JDict target) obj_items = Ret (JDict inline)
    /\ (forallb entry_typed target = true ->
        forallb entry_typed obj_items = true ->
        forallb entry_typed inline = true).
Proof.
  induction obj_items as [|[key value] rest IH]; intros target; simpl.
  - exists target. split; [reflexivity | intros H _; exact H].
  - destruct (String.eqb key "$ref").
    + destruct (IH target) as (inline & Hm & Ht). exists inline. split; [exact Hm|].
      intros H1 H2. apply andb_true_iff in H2. apply Ht; tauto.
    + destruct (IH (dict_set key value target)) as (inline & Hm & Ht).
      exists inline. split; [exact Hm|].
      intros H1 H2. apply andb_true_iff in H2. destruct H2 as [Hkv Hrest].
      apply Ht; [|exact Hrest]. apply forallb_dict_set; assumption.
Qed.

Lemma log_preserved_enum_typed target :
  forallb entry_typed target = true ->
  log_preserved_enum (JDict target) = Ret tt.
Proof.
  intros Ht. unfold log_preserved_enum, str_in, getitem, dict_has, bind.
  destruct (dict_get "enum" target) as [e|] eqn:Hget; [|reflexivity].
  pose proof (forallb_dict_get _ _ _ _ Ht Hget) as He.
  unfold entry_typed, key_typed in He. simpl in He.
  destruct e; try discriminate. reflexivity.
Qed.

Lemma log_found_enum_typed item :
  well_typed item = true -> log_found_enum item = Ret tt.
Proof.
  destruct item as [| | | | |l|d]; try reflexivity.
  intros Ht. unfold log_found_enum.
  destruct (dict_get "enum" d) as [e|] eqn:Hget; [|reflexivity].
  pose proof (forallb_dict_get _ _ _ _ Ht Hget) as He.
  unfold key_typed in He. simpl in He.
  destruct e; try discriminate. reflexivity.
Qed.

Lemma mapM_log_found_enum_typed l :
  forallb well_typed l = true -> exists us, mapM log_found_enum l = Ret us.
Proof.
  intros Hl. apply mapM_all_ret. apply Forall_forall. intros x Hx.
  exists tt. apply log_found_enum_typed.
  rewrite forallb_forall in Hl. apply Hl; exact Hx.
Qed.

End WellTyped.

Lemma mapM_Forall2 {A B : Type} (f : A -> res B) (Q : A -> B -> Prop) (l : list A) :
  (forall x, In x l -> exists y, f x = Ret y /\ Q x y) ->
  exists ys, mapM f l = Ret ys /\ Forall2 Q l ys.
Proof.
  induction l as [|x rest IH]; simpl; intros H.
  - exists []. split; [reflexivity | constructor].
  - destruct (H x (or_introl eq_refl)) as (y & Hy & Qy).
    destruct IH as (ys & Hys & Qys); [intros z Hz; apply H; right; exact Hz|].
    exists (y :: ys). rewrite Hy; simpl. rewrite Hys; simpl.
    split; [reflexivity | constructor; assumption].
Qed.

Lemma Forall2_forallb {A B : Type} (P : B -> bool) (R : A -> B -> Prop) l l' :
  Forall2 R l l' -> (forall x y, R x y -> P y = true) -> forallb P l' = true.
Proof.
  induction 1 as [|x y l l' Hxy _ IH]; simpl; intros HP; [reflexivity|].
  rewrite (HP x y Hxy), (IH HP). reflexivity.
Qed.

Lemma Forall2_existsb_false {A B : Type} (P : B -> bool) (R : A -> B -> Prop) l l' :
  Forall2 R l l' -> (forall x y, In x l -> R x y -> P y = false) ->
  existsb P l' = false.
Proof.
  induction 1 as [|x y l l' Hxy _ IH]; simpl; intros HP; [reflexivity|].
  rewrite (HP x y (or_introl eq_refl) Hxy), IH; [reflexivity|].
  intros a b Ha. apply HP. right; exact Ha.
Qed.

Lemma dict_get_none_keys k (d d' : dict) :
  map fst d' = map fst d -> dict_get k d = None -> dict_get k d' = None.
Proof.
  revert d'. induction d as [|[k0 v0] rest IH]; intros [|[k1 v1] rest'];
    simpl; try discriminate; [reflexivity|].
  intros [= -> Hrest]. destruct (String.eqb k k0); [discriminate|].
  apply IH; exact Hrest.
Qed.

Ltac bind_inv H :=
  let a := fresh "a" in
  let Ha := fresh "H" a in
  apply bind_ret in H; destruct H as (a & Ha & H).

Section ResolverTyped.

Variable schemas : json.
Hypothesis schemas_typed : well_typed_schemas schemas = true.

(** On a well-typed table and a well-typed schema the resolver returns a
    value, which is well typed and fits under the same keys. *)
Lemma resolve_typed gas : forall obj depth,
  11 - depth < gas ->
  well_typed obj = true ->
  exists r,
    resolve_refs_recursively schemas gas obj depth = Ret r
    /\ well_typed r = true
    /\ (forall k, key_typed k obj = true -> key_typed k r = true).
Proof.
  induction gas as [|gas IH]; intros obj depth Hgas Hwt; [lia|].
  cbn [resolve_refs_recursively]. unfold resolve_body.
  destruct (Nat.ltb_spec 10 depth) as [Hdeep|Hshallow];
    [exists obj; auto|].
  assert (IH' : forall o, well_typed o = true ->
                exists r, resolve_refs_recursively schemas gas o (depth + 1) = Ret r
                          /\ well_typed r = true
                          /\ (forall k, key_typed k o = true -> key_typed k r = true))
    by (intros o Ho; apply IH; [lia | exact Ho]).
  assert (Hitems : forall l, forallb well_typed l = true ->
            exists rs, mapM (fun item => resolve_refs_recursively schemas gas item (depth + 1)) l
                       = Ret rs /\ forallb well_typed rs = true).
  { intros l Hl.
    destruct (mapM_Forall2
                (fun item => resolve_refs_recursively schemas gas item (depth + 1))
                (fun _ y => well_typed y = true) l) as (rs & Hrs & Hall).
    - intros x Hx. rewrite forallb_forall in Hl.
      destruct (IH' x (Hl x Hx)) as (y & Hy & Hty & _). exists y; auto.
    - exists rs. split; [exact Hrs|].
      apply (Forall2_forallb _ _ _ _ Hall). auto. }
  assert (Hbranch : forall key d any_of,
            (String.eqb key "$ref" = false) -> (String.eqb key "enum" = false) ->
            forallb entry_typed d = true ->
            branch_list key d = Some any_of ->
            exists rs,
              mapM (fun item => resolve_refs_recursively schemas gas item (depth + 1)) any_of
              = Ret rs
              /\ forallb well_typed rs = true
              /\ well_typed (JDict (dict_set key (JList rs) d)) = true).
  { intros key d any_of Hk1 Hk2 Hd Hb. unfold branch_list in Hb.
    destruct (dict_get key d) as [[| | | | |l|]|] eqn:Hget; try discriminate.
    injection Hb as ->.
    pose proof (forallb_dict_get _ _ _ _ Hd Hget) as Hl.
    unfold entry_typed in Hl. apply andb_true_iff in Hl. destruct Hl as [_ Hl].
    destruct (Hitems any_of Hl) as (rs & Hrs & Htrs).
    exists rs. split; [exact Hrs|]. split; [exact Htrs|].
    rewrite well_typed_dict. apply forallb_dict_set; [exact Hd|].
    unfold entry_typed, key_typed. simpl. rewrite Hk1, Hk2. exact Htrs. }
  destruct obj as [| | | | |l|d]; try (eexists; split; [reflexivity | auto]).
  - (* list *)
    destruct (Hitems l Hwt) as (rs & Hrs & Htrs).
    rewrite Hrs. simpl. exists (JList rs). auto.
  - (* dict *)
    rewrite well_typed_dict in Hwt.
    destruct (dict_get "$ref" d) as [ref_path|] eqn:Href.
    + pose proof (forallb_dict_get _ _ _ _ Hwt Href) as Hp.
      unfold entry_typed, key_typed in Hp. simpl in Hp.
      destruct ref_path as [| | | |p| |]; try discriminate.
      destruct (resolve_ref_typed schemas schemas_typed p) as (target & Htarget & Htt).
      rewrite Htarget. cbn [bind].
      destruct target as [|entry target]; [exists (JDict d); auto|].
      cbn [truthy].
      destruct (merge_siblings_typed d (entry :: target)) as (inline & Hm & Hti).
      rewrite Hm. cbn [bind].
      rewrite (log_preserved_enum_typed _ Htt). cbn [bind].
      destruct (IH' (JDict inline)) as (r & Hr & Htr & Hkr).
      { rewrite well_typed_dict. apply Hti; assumption. }
      exists r. auto.
    + destruct (branch_list "anyOf" d) as [any_of|] eqn:Hany.
      { destruct (Hbranch "anyOf" d any_of eq_refl eq_refl Hwt Hany) as (rs & Hrs & Htrs & Hd).
        rewrite Hrs. cbn [bind].
        destruct (mapM_log_found_enum_typed rs Htrs) as (us & Hus).
        rewrite Hus. cbn [bind]. eexists; split; [reflexivity | auto]. }
      destruct (branch_list "oneOf" d) as [one_of|] eqn:Hone.
      { destruct (Hbranch "oneOf" d one_of eq_refl eq_refl Hwt Hone) as (rs & Hrs & Htrs & Hd).
        rewrite Hrs. cbn [bind].
        destruct (mapM_log_found_enum_typed rs Htrs) as (us & Hus).
        rewrite Hus. cbn [bind]. eexists; split; [reflexivity | auto]. }
      destruct (branch_list "allOf" d) as [all_of|] eqn:Hall.
      { destruct (Hbranch "allOf" d all_of eq_refl eq_refl Hwt Hall) as (rs & Hrs & Htrs & Hd).
        rewrite Hrs. cbn [bind]. eexists; split; [reflexivity | auto]. }
      destruct (mapM_Forall2
                  (fun kv => v <- resolve_refs_recursively schemas gas (snd kv) (depth + 1) ;;
                             Ret (fst kv, v))
                  (fun _ kv' => entry_typed kv' = true) d) as (rs & Hrs & Hall').
      { intros [k v] Hin. rewrite forallb_forall in Hwt.
        pose proof (Hwt _ Hin) as Hkv. unfold entry_typed in Hkv. simpl in Hkv.
        apply andb_true_iff in Hkv. destruct Hkv as [Hk Hv].
        destruct (IH' v Hv) as (v' & Hv' & Htv' & Hkv').
        exists (k, v'). simpl. rewrite Hv'. simpl. split; [reflexivity|].
        unfold entry_typed. simpl. rewrite (Hkv' k Hk), Htv'. reflexivity. }
      rewrite Hrs. cbn [bind]. exists (JDict rs). split; [reflexivity|].
      split; [|auto].
      rewrite well_typed_dict. apply (Forall2_forallb _ _ _ _ Hall'). auto.
Qed.

End ResolverTyped.

(** ** The resolved schema is free of references *)

Lemma existsb_dict_set_false (F : string * json -> bool) k v d :
  (forall k', F (k', v) = false) ->
  existsb F (dict_set k JNull d) = false ->
  existsb F (dict_set k v d) = false.
Proof.
  intros Hv. induction d as [|[k' v'] rest IH]; simpl.
  - intros _. rewrite Hv. reflexivity.
  - destruct (String.eqb k k'); simpl; intros H;
      apply orb_false_iff in H; destruct H as [H1 H2].
    + rewrite Hv, H2. reflexivity.
    + rewrite H1, (IH H2). reflexivity.
Qed.

Lemma dict_has_set_null k k' v d :
  dict_has k' (dict_set k JNull d) = false -> dict_has k' (dict_set k v d) = false.
Proof.
  unfold dict_has. induction d as [|[k0 v0] rest IH]; simpl.
  - destruct (String.eqb k' k); [discriminate | reflexivity].
  - destruct (String.eqb k k0); simpl; destruct (String.eqb k' k0);
      try discriminate; auto.
Qed.

(** A composite node whose other entries carry no reference is free of
    references once its branch list is. *)
Lemma has_ref_composite key rs d :
  existsb has_ref rs = false ->
  rest_ref_free key d = true ->
  has_ref (JDict (dict_set key (JList rs) d)) = false.
Proof.
  unfold rest_ref_free. intros Hrs Hrest.
  apply negb_true_iff in Hrest.
  change (dict_has "$ref" (dict_set key JNull d)
          || existsb (fun kv => has_ref (snd kv)) (dict_set key JNull d) = false) in Hrest.
  apply orb_false_iff in Hrest. destruct Hrest as [Hkey Hvals].
  change (dict_has "$ref" (dict_set key (JList rs) d)
          || existsb (fun kv => has_ref (snd kv)) (dict_set key (JList rs) d) = false).
  rewrite (dict_has_set_null _ _ _ _ Hkey).
  rewrite existsb_dict_set_false; [reflexivity | intros; exact Hrs | exact Hvals].
Qed.

Section RefFree.

Variable schemas : json.

Lemma expands_fully_ref_free gas : forall obj depth r,
  expands_fully schemas gas obj depth = true ->
  resolve_refs_recursively schemas gas obj depth = Ret r ->
  has_ref r = false.
Proof.
  induction gas as [|gas IH]; intros obj depth r Hexp Hres; [discriminate|].
  cbn [resolve_refs_recursively] in Hres. unfold resolve_body in Hres.
  cbn [expands_fully] in Hexp.
  destruct (10 <? depth)%nat.
  { injection Hres as <-. apply negb_true_iff in Hexp. exact Hexp. }
  assert (Hitems : forall l rs,
            forallb (fun item => expands_fully schemas gas item (depth + 1)) l = true ->
            mapM (fun item => resolve_refs_recursively schemas gas item (depth + 1)) l = Ret rs ->
            existsb has_ref rs = false).
  { intros l rs Hl Hm. apply mapM_ret in Hm.
    apply (Forall2_existsb_false _ _ _ _ Hm).
    intros x y Hx Hxy. rewrite forallb_forall in Hl.
    apply (IH x (depth + 1)); [apply Hl; exact Hx | exact Hxy]. }
  destruct obj as [| | | | |l|d]; try (injection Hres as <-; reflexivity).
  - bind_inv Hres. injection Hres as <-. simpl. apply (Hitems l a Hexp Ha).
  - destruct (dict_get "$ref" d) as [ref_path|] eqn:Href.
    + destruct (resolve_ref schemas ref_path) as [resolved_schema| |];
        try discriminate.
      cbn [bind] in Hres.
      apply andb_true_iff in Hexp. destruct Hexp as [Htruthy Hexp].
      rewrite Htruthy in Hres.
      destruct (merge_siblings resolved_schema d) as [inline_schema| |];
        try discriminate.
      cbn [bind] in Hres. bind_inv Hres.
      apply (IH inline_schema (depth + 1)); assumption.
    + destruct (branch_list "anyOf" d) as [any_of|].
      { apply andb_true_iff in Hexp. destruct Hexp as [Hexp Hrest].
        bind_inv Hres. bind_inv Hres. injection Hres as <-.
        apply has_ref_composite; [apply (Hitems any_of a Hexp Ha) | exact Hrest]. }
      destruct (branch_list "oneOf" d) as [one_of|].
      { apply andb_true_iff in Hexp. destruct Hexp as [Hexp Hrest].
        bind_inv Hres. bind_inv Hres. injection Hres as <-.
        apply has_ref_composite; [apply (Hitems one_of a Hexp Ha) | exact Hrest]. }
      destruct (branch_list "allOf" d) as [all_of|].
      { apply andb_true_iff in Hexp. destruct Hexp as [Hexp Hrest].
        bind_inv Hres. injection Hres as <-.
        apply has_ref_composite; [apply (Hitems all_of a Hexp Ha) | exact Hrest]. }
      bind_inv Hres. injection Hres as <-. apply mapM_ret in Ha.
      assert (Hkeys : map fst a = map fst d).
      { clear -Ha. induction Ha as [|[k v] [k' v'] d d' Hkv _ IHd]; [reflexivity|].
        simpl in *. bind_inv Hkv. injection Hkv as <- <-. rewrite IHd. reflexivity. }
      change (dict_has "$ref" a || existsb (fun kv => has_ref (snd kv)) a = false).
      unfold dict_has. rewrite (dict_get_none_keys _ _ _ Hkeys Href). simpl.
      apply (Forall2_existsb_false _ _ _ _ Ha).
      intros [k v] [k' v'] Hin Hkv. simpl in *. bind_inv Hkv. injection Hkv as <- <-.
      rewrite forallb_forall in Hexp.
      apply (IH v (depth + 1)); [apply (Hexp _ Hin) | assumption].
Qed.

(** C3, as the code has it.  On a well-typed table of definitions, a
    well-typed schema whose traversal expands every reference it meets
    (each names a definition that is there and not empty, none is left
    above depth 10, none sits beside the branch list of a composite
    node) is resolved into a schema with no reference node at all: the
    references nested in dicts, lists and [anyOf]/[oneOf]/[allOf] branch
    lists are all replaced. *)
Theorem resolved_schema_has_no_reference gas obj depth :
  well_typed_schemas schemas = true ->
  well_typed obj = true ->
  11 - depth < gas ->
  expands_fully schemas gas obj depth = true ->
  exists r,
    resolve_refs_recursively schemas gas obj depth = Ret r
    /\ has_ref r = false.
Proof.
  intros Hschemas Hobj Hgas Hexp.
  destruct (resolve_typed schemas Hschemas gas obj depth Hgas Hobj) as (r & Hr & _).
  exists r. split; [exact Hr|].
  apply (expands_fully_ref_free gas obj depth r Hexp Hr).
Qed.

End RefFree.

(** A reference whose target is missing is left in place: it is not so
    that every reference node within depth 10 is replaced. *)
Lemma unresolved_reference_is_kept :
  ~ (forall schemas obj r,
        has_ref_beyond 10 obj = false ->
        resolve_schema schemas obj = Ret r ->
        has_ref_within 10 r = false).
Proof.
  intros H.
  specialize (H (JDict []) Examples.missing_ref Examples.missing_ref eq_refl eq_refl).
  discriminate H.
Qed.

Lemma resolved_schema_has_no_reference_witness :
  exists r,
    resolve_refs_recursively Examples.location_schemas 12
      (JDict Examples.location_ref) 0 = Ret r
    /\ has_ref r = false.
Proof.
  apply (resolved_schema_has_no_reference Examples.location_schemas 12
           (JDict Examples.location_ref) 0);
    [reflexivity | reflexivity | simpl; lia | reflexivity].
Defined.

(** ** Sibling keys of a reference node *)

Lemma distinct_keys_absent k (d : dict) :
  existsb (String.eqb k) (map fst d) = false -> dict_get k d = None.
Proof.
  induction d as [|[k' v'] rest IH]; simpl; [reflexivity|].
  intros H. apply orb_false_iff in H. destruct H as [H1 H2].
  rewrite H1. apply IH; exact H2.
Qed.

Lemma existsb_eqb_keys k k0 v (d : dict) :
  existsb (String.eqb k) (map fst (dict_set k0 v d))
  = existsb (String.eqb k) (map fst d) || (String.eqb k k0 && negb (dict_has k0 d)).
Proof.
  unfold dict_has. induction d as [|[k' v'] rest IH]; simpl.
  - destruct (String.eqb k k0); reflexivity.
  - destruct (String.eqb_spec k0 k') as [->|Hne]; simpl.
    + rewrite andb_false_r, orb_false_r. reflexivity.
    + rewrite IH. rewrite orb_assoc. reflexivity.
Qed.

Lemma distinct_keys_set k v (d : dict) :
  distinct_keys (map fst d) = true -> distinct_keys (map fst (dict_set k v d)) = true.
Proof.
  induction d as [|[k' v'] rest IH]; simpl; [reflexivity|].
  intros H. apply andb_true_iff in H. destruct H as [Hfresh Hrest].
  destruct (String.eqb_spec k k') as [->|Hne]; simpl.
  - rewrite Hfresh, Hrest. reflexivity.
  - rewrite (IH Hrest), andb_true_r. rewrite existsb_eqb_keys.
    apply negb_true_iff in Hfresh. rewrite Hfresh. simpl.
    destruct (String.eqb_spec k' k); [congruence | reflexivity].
Qed.

(** What the merge loop builds on a dict: the entries of the node other
    than ["$ref"] are assigned, all other keys are those of the target. *)
Lemma merge_siblings_lookup obj_items : forall target,
  exists inline,
    merge_siblings (JDict target) obj_items = Ret (JDict inline)
    /\ (forall k, k = "$ref" \/ dict_get k obj_items = None ->
                  dict_get k inline = dict_get k target)
    /\ (forall k v, k <> "$ref" ->
                    distinct_keys (map fst obj_items) = true ->
                    dict_get k obj_items = Some v ->
                    dict_get k inline = Some v)
    /\ (distinct_keys (map fst target) = true ->
        distinct_keys (map fst inline) = true).
Proof.
  induction obj_items as [|[key value] rest IH]; intros target.
  - exists target. simpl. repeat split; auto. intros k v _ _ H. discriminate.
  - simpl. destruct (String.eqb_spec key "$ref") as [->|Hkey].
    + destruct (IH target) as (inline & Hm & Hkeep & Hset & Hdist).
      exists inline. split; [exact Hm|]. split; [|split; [|exact Hdist]].
      * intros k [->|Hk]; [apply Hkeep; left; reflexivity|].
        apply Hkeep. right. destruct (String.eqb k "$ref"); [discriminate | exact Hk].
      * intros k v Hk Hd Hget. apply andb_true_iff in Hd. destruct Hd as [_ Hd].
        destruct (String.eqb_spec k "$ref"); [contradiction|].
        apply Hset; assumption.
    + destruct (IH (dict_set key value target)) as (inline & Hm & Hkeep & Hset & Hdist).
      exists inline. split; [exact Hm|]. split; [|split].
      * intros k Hk. rewrite Hkeep.
        -- apply dict_get_set_other. destruct Hk as [->|Hk]; [exact Hkey|].
           intros ->. rewrite String.eqb_refl in Hk. discriminate.
        -- destruct Hk as [->|Hk]; [left; reflexivity|]. right.
           destruct (String.eqb k key); [discriminate | exact Hk].
      * intros k v Hk Hd Hget. apply andb_true_iff in Hd. destruct Hd as [Hfresh Hd].
        destruct (String.eqb_spec k key) as [->|Hne].
        -- injection Hget as ->. rewrite Hkeep; [apply dict_get_set_same|].
           right. apply distinct_keys_absent. apply negb_true_iff. exact Hfresh.
        -- apply Hset; assumption.
      * intros Ht. apply Hdist. apply distinct_keys_set. exact Ht.
Qed.

(** Assigning a sibling to a target that is not a dict raises. *)
Lemma merge_siblings_not_dict obj_items : forall target k v inline,
  is_dict target = false ->
  k <> "$ref" -> dict_get k obj_items = Some v ->
  merge_siblings target obj_items <> Ret inline.
Proof.
  induction obj_items as [|[key value] rest IH]; intros target k v inline Ht Hk Hget;
    simpl in *; [discriminate|].
  destruct (String.eqb_spec key "$ref") as [->|Hkey].
  - destruct (String.eqb_spec k "$ref"); [contradiction|].
    apply (IH target k v); assumption.
  - destruct target; try discriminate; simpl; discriminate.
Qed.

(** The value found under a key after the entries have been resolved one
    by one is the resolution of the value that was there. *)
Lemma dict_get_resolved (f : json -> res json) k v (d d' : dict) :
  Forall2 (fun kv kv' => (x <- f (snd kv) ;; Ret (fst kv, x)) = Ret kv') d d' ->
  dict_get k d = Some v ->
  exists v', dict_get k d' = Some v' /\ f v = Ret v'.
Proof.
  induction 1 as [|[k0 v0] [k1 v1] d d' Hkv _ IH]; simpl; [discriminate|].
  simpl in Hkv. bind_inv Hkv. injection Hkv as <- <-.
  destruct (String.eqb k k0).
  - intros [= ->]. exists a. split; [reflexivity | assumption].
  - exact IH.
Qed.

Lemma existsb_dict_get (F : string * json -> bool) k v d :
  existsb F d = false -> dict_get k d = Some v -> F (k, v) = false.
Proof.
  induction d as [|[k' v'] rest IH]; simpl; [discriminate|].
  intros H. apply orb_false_iff in H. destruct H as [Hhead Hrest].
  destruct (String.eqb_spec k k') as [->|Hne].
  - intros [= <-]. exact Hhead.
  - apply IH; exact Hrest.
Qed.

Lemma mapM_identity (f : json -> res json) (l out : list json) :
  (forall x y, In x l -> f x = Ret y -> y = x) ->
  mapM f l = Ret out -> out = l.
Proof.
  intros Hf H. apply mapM_ret in H.
  induction H as [|x y l out Hxy _ IH]; [reflexivity|].
  rewrite (Hf x y (or_introl eq_refl) Hxy), IH; [reflexivity|].
  intros a b Ha. apply Hf. right; exact Ha.
Qed.

Lemma mapM_entries_identity (f : json -> res json) (d out : dict) :
  (forall kv y, In kv d -> f (snd kv) = Ret y -> y = snd kv) ->
  mapM (fun kv => v <- f (snd kv) ;; Ret (fst kv, v)) d = Ret out -> out = d.
Proof.
  intros Hf H. apply mapM_ret in H.
  induction H as [|[k v] kv' d out Hkv _ IH]; [reflexivity|].
  simpl in Hkv. apply bind_ret in Hkv. destruct Hkv as (y & Hy & Hkv).
  injection Hkv as <-.
  rewrite (Hf (k, v) y (or_introl eq_refl) Hy), IH; [reflexivity|].
  intros a b Ha. apply Hf. right; exact Ha.
Qed.

Section Siblings.

Variable schemas : json.

Lemma resolution_of_itself v : resolution_of schemas v v.
Proof. exists 1, 11. reflexivity. Qed.

(** The resolver returns a value that has no reference node as it is. *)
Lemma resolve_ref_free gas : forall v depth r,
  has_ref v = false ->
  resolve_refs_recursively schemas gas v depth = Ret r ->
  r = v.
Proof.
  induction gas as [|gas IH]; intros v depth r Hfree Hres; [discriminate|].
  cbn [resolve_refs_recursively] in Hres. unfold resolve_body in Hres.
  destruct (10 <? depth)%nat; [congruence|].
  assert (Hitems : forall l rs,
            existsb has_ref l = false ->
            mapM (fun item => resolve_refs_recursively schemas gas item (depth + 1)) l = Ret rs ->
            rs = l).
  { intros l rs Hl. apply mapM_identity. intros x y Hx Hxy.
    apply (IH x (depth + 1) y); [|exact Hxy].
    destruct (has_ref x) eqn:E; [|reflexivity].
    assert (existsb has_ref l = true) by (apply existsb_exists; eauto). congruence. }
  destruct v as [| | | | |l|d]; try congruence.
  - bind_inv Hres. injection Hres as <-. f_equal. apply (Hitems l a Hfree Ha).
  - change (dict_has "$ref" d || existsb (fun kv => has_ref (snd kv)) d = false) in Hfree.
    apply orb_false_iff in Hfree. destruct Hfree as [Hkey Hvalues].
    unfold dict_has in Hkey.
    destruct (dict_get "$ref" d) as [ref_path|]; [discriminate|].
    assert (Hbranch : forall key any_of rs,
              branch_list key d = Some any_of ->
              mapM (fun item => resolve_refs_recursively schemas gas item (depth + 1)) any_of
              = Ret rs ->
              dict_set key (JList rs) d = d).
    { intros key any_of rs Hb Hrs. unfold branch_list in Hb.
      destruct (dict_get key d) as [[| | | | |l|]|] eqn:Hget; try discriminate.
      injection Hb as ->.
      rewrite (Hitems any_of rs (existsb_dict_get _ _ _ _ Hvalues Hget) Hrs).
      apply dict_set_same_value. exact Hget. }
    destruct (branch_list "anyOf" d) as [any_of|] eqn:Hany.
    { bind_inv Hres. bind_inv Hres. injection Hres as <-.
      rewrite (Hbranch _ _ _ Hany Ha). reflexivity. }
    destruct (branch_list "oneOf" d) as [one_of|] eqn:Hone.
    { bind_inv Hres. bind_inv Hres. injection Hres as <-.
      rewrite (Hbranch _ _ _ Hone Ha). reflexivity. }
    destruct (branch_list "allOf" d) as [all_of|] eqn:Hall.
    { bind_inv Hres. injection Hres as <-.
      rewrite (Hbranch _ _ _ Hall Ha). reflexivity. }
    bind_inv Hres. injection Hres as <-. f_equal.
    apply (mapM_entries_identity
             (fun x => resolve_refs_recursively schemas gas x (depth + 1)) d a);
      [|exact Ha].
    intros kv y Hin Hy. apply (IH (snd kv) (depth + 1) y); [|exact Hy].
    destruct (has_ref (snd kv)) eqn:E; [|reflexivity].
    assert (existsb (fun kv => has_ref (snd kv)) d = true)
      by (apply existsb_exists; eauto).
    congruence.
Qed.

Lemma resolution_of_ref_free v v' :
  has_ref v = false -> resolution_of schemas v v' -> v' = v.
Proof.
  intros Hfree (gas & depth & H). apply (resolve_ref_free gas v depth v' Hfree H).
Qed.

Lemma resolve_ref_wf ref_path target :
  wf schemas = true -> resolve_ref schemas ref_path = Ret target -> wf target = true.
Proof.
  intros Hwf. unfold resolve_ref.
  destruct ref_path as [| | | |p| |]; try discriminate.
  destruct (String.prefix ref_prefix p); [|intros [= <-]; reflexivity].
  destruct schemas as [| | | |s|l|defs]; try discriminate;
    unfold str_in, getitem, bind.
  - destruct (contains _ s); [discriminate | intros [= <-]; reflexivity].
  - destruct (existsb _ l); [discriminate | intros [= <-]; reflexivity].
  - unfold dict_has.
    destruct (dict_get (remove_all ref_prefix p) defs) as [t|] eqn:Hget;
      [|intros [= <-]; reflexivity].
    intros [= <-]. simpl in Hwf. apply andb_true_iff in Hwf. destruct Hwf as [_ Hwf].
    apply (forallb_dict_get (fun kv => wf (snd kv)) _ _ _ Hwf Hget).
Qed.

Lemma composite_sibling key any_of rs (d : dict) k v gas depth :
  depth <= 10 ->
  branch_list key d = Some any_of ->
  mapM (fun item => resolve_refs_recursively schemas gas item (depth + 1)) any_of = Ret rs ->
  dict_get k d = Some v ->
  exists v', dict_get k (dict_set key (JList rs) d) = Some v' /\ resolution_of schemas v v'.
Proof.
  intros Hdepth Hb Hrs Hget. unfold branch_list in Hb.
  destruct (String.eqb_spec key k) as [->|Hne].
  - rewrite Hget in Hb. destruct v; try discriminate. injection Hb as ->.
    exists (JList rs). split; [apply dict_get_set_same|].
    exists (S gas), depth. cbn [resolve_refs_recursively]. unfold resolve_body.
    destruct (Nat.ltb_spec 10 depth); [lia|]. rewrite Hrs. reflexivity.
  - exists v. split; [|apply resolution_of_itself].
    rewrite dict_get_set_other; assumption.
Qed.

(** Once a key other than ["$ref"] sits on a node, the node the resolver
    returns for it is a dict that has this key, with the resolution of
    the value it had. *)
Lemma sibling_survives gas : forall (d : dict) depth r k v,
  wf schemas = true ->
  distinct_keys (map fst d) = true ->
  resolve_refs_recursively schemas gas (JDict d) depth = Ret r ->
  k <> "$ref" ->
  dict_get k d = Some v ->
  exists out v', r = JDict out /\ dict_get k out = Some v' /\ resolution_of schemas v v'.
Proof.
  induction gas as [|gas IH]; intros d depth r k v Hwf Hd Hres Hk Hget; [discriminate|].
  cbn [resolve_refs_recursively] in Hres. unfold resolve_body in Hres.
  destruct (Nat.ltb_spec 10 depth) as [Hdeep|Hshallow].
  { injection Hres as <-. exists d, v. auto using resolution_of_itself. }
  destruct (dict_get "$ref" d) as [ref_path|] eqn:Href.
  - destruct (resolve_ref schemas ref_path) as [target| |] eqn:Htarget; try discriminate.
    cbn [bind] in Hres. destruct (truthy target).
    + destruct (merge_siblings target d) as [inline_schema| |] eqn:Hm; try discriminate.
      cbn [bind] in Hres. bind_inv Hres.
      destruct (is_dict target) eqn:Hdict.
      * destruct target as [| | | | | |e]; try discriminate.
        destruct (merge_siblings_lookup d e) as (inline & Hm' & _ & Hset & Hdist).
        rewrite Hm in Hm'. injection Hm' as ->.
        apply (IH inline (depth + 1) r k v); auto.
        apply Hdist. pose proof (resolve_ref_wf _ _ Hwf Htarget) as He.
        simpl in He. apply andb_true_iff in He. tauto.
      * exfalso. apply (merge_siblings_not_dict d target k v inline_schema); assumption.
    + injection Hres as <-. exists d, v. auto using resolution_of_itself.
  - destruct (branch_list "anyOf" d) as [any_of|] eqn:Hany.
    { bind_inv Hres. bind_inv Hres. injection Hres as <-.
      destruct (composite_sibling _ _ _ _ _ _ _ _ Hshallow Hany Ha Hget) as (v' & ? & ?).
      eauto. }
    destruct (branch_list "oneOf" d) as [one_of|] eqn:Hone.
    { bind_inv Hres. bind_inv Hres. injection Hres as <-.
      destruct (composite_sibling _ _ _ _ _ _ _ _ Hshallow Hone Ha Hget) as (v' & ? & ?).
      eauto. }
    destruct (branch_list "allOf" d) as [all_of|] eqn:Hall.
    { bind_inv Hres. injection Hres as <-.
      destruct (composite_sibling _ _ _ _ _ _ _ _ Hshallow Hall Ha Hget) as (v' & ? & ?).
      eauto. }
    bind_inv Hres. injection Hres as <-. apply mapM_ret in Ha.
    destruct (dict_get_resolved
                (fun x => resolve_refs_recursively schemas gas x (depth + 1))
                k v d a Ha Hget) as (v' & Hv' & Hr).
    exists a, v'. split; [reflexivity|]. split; [exact Hv'|].
    exists gas, (depth + 1). exact Hr.
Qed.

(** C4.  At a reference substitution (a node with a ["$ref"] key, at a
    depth within the bound, whose target is a definition that is not
    empty) the node that replaces the reference is the copy of the
    target with the entries of the reference node other than ["$ref"]
    assigned onto it: every such key carries the value of the reference
    node, whatever the target has under it, and every key that the
    reference node does not have is as in the target.  The resolver
    returns the resolution of that node, one level deeper; what it
    returns is a dict that still has every such key, with the value of
    the reference node, resolved in its turn (and so unchanged when it
    holds no reference itself). *)
Theorem sibling_keys_override_target gas (d : dict) depth ref_path (target : dict) :
  wf schemas = true ->
  distinct_keys (map fst d) = true ->
  depth <= 10 ->
  dict_get "$ref" d = Some ref_path ->
  resolve_ref schemas ref_path = Ret (JDict target) ->
  target <> [] ->
  exists inline,
    merge_siblings (JDict target) d = Ret (JDict inline)
    /\ (forall k v, k <> "$ref" -> dict_get k d = Some v ->
                    dict_get k inline = Some v)
    /\ (forall k, dict_get k d = None -> dict_get k inline = dict_get k target)
    /\ resolve_refs_recursively schemas (S gas) (JDict d) depth
       = (log_preserved_enum (JDict target) ;;;
          resolve_refs_recursively schemas gas (JDict inline) (depth + 1))
    /\ (forall r k v,
          resolve_refs_recursively schemas (S gas) (JDict d) depth = Ret r ->
          k <> "$ref" -> dict_get k d = Some v ->
          exists out v',
            r = JDict out
            /\ dict_get k out = Some v'
            /\ resolution_of schemas v v'
            /\ (has_ref v = false -> v' = v)).
Proof.
  intros Hwf Hd Hdepth Href Htarget Hne.
  destruct (merge_siblings_lookup d target) as (inline & Hm & Hkeep & Hset & Hdist).
  assert (Hstep : resolve_refs_recursively schemas (S gas) (JDict d) depth
                  = (log_preserved_enum (JDict target) ;;;
                     resolve_refs_recursively schemas gas (JDict inline) (depth + 1))).
  { cbn [resolve_refs_recursively]. unfold resolve_body.
    destruct (Nat.ltb_spec 10 depth); [lia|].
    rewrite Href, Htarget. cbn [bind].
    destruct target; [contradiction|]. cbn [truthy]. rewrite Hm. reflexivity. }
  exists inline. split; [exact Hm|]. split; [|split; [|split; [exact Hstep|]]].
  - intros k v Hk Hget. apply Hset; assumption.
  - intros k Hget. apply Hkeep. right; exact Hget.
  - intros r k v Hr Hk Hget. rewrite Hstep in Hr. bind_inv Hr.
    assert (Hinline : distinct_keys (map fst inline) = true).
    { apply Hdist. pose proof (resolve_ref_wf _ _ Hwf Htarget) as He.
      simpl in He. apply andb_true_iff in He. tauto. }
    destruct (sibling_survives gas inline (depth + 1) r k v Hwf Hinline Hr Hk
                (Hset k v Hk Hd Hget)) as (out & v' & Hout & Hv' & Hres).
    exists out, v'. repeat split; auto.
    intros Hfree. apply (resolution_of_ref_free v v' Hfree Hres).
Qed.

End Siblings.

(** *** The statements above on the example schemas *)

Lemma resolver_terminates_within_depth_bound_witness :
  11 - 0 < 12
  /\ resolve_refs_recursively Examples.location_schemas 12 Examples.loop_ref 0
     <> OutOfGas.
Proof.
  split; [simpl; lia|].
  apply (resolver_terminates_within_depth_bound Examples.location_schemas
           Examples.loop_ref 0 12).
  simpl; lia.
Defined.

Lemma sibling_keys_override_target_witness :
  exists inline,
    merge_siblings
      (JDict [ ("type", JStr "object");
               ("description", JStr "from the definition");
               ("properties",
                JDict [ ("code", JDict [("type", JStr "string")]);
                        ("admin1", JDict [("$ref", JStr "#/components/schemas/Admin1")]) ]) ])
      Examples.location_ref = Ret (JDict inline)
    /\ dict_get "description" inline = Some (JStr "local").
Proof.
  destruct (sibling_keys_override_target Examples.location_schemas 11
              Examples.location_ref 0
              (JStr "#/components/schemas/LocationResponse")
              [ ("type", JStr "object");
                ("description", JStr "from the definition");
                ("properties",
                 JDict [ ("code", JDict [("type", JStr "string")]);
                         ("admin1", JDict [("$ref", JStr "#/components/schemas/Admin1")]) ]) ])
    as (inline & Hmerge & Hlocal & _).
  - reflexivity.
  - reflexivity.
  - lia.
  - reflexivity.
  - reflexivity.
  - discriminate.
  - exists inline. split; [exact Hmerge|].
    apply Hlocal; [discriminate | reflexivity].
Defined.

(** ** Substrings *)

Lemma prefix_refl t : String.prefix t t = true.
Proof.
  induction t as [|c t IH]; simpl; [reflexivity|].
  destruct (ascii_dec c c); [exact IH | congruence].
Qed.

Lemma prefix_app t : forall s u,
  String.prefix t s = true -> String.prefix t (s ++ u) = true.
Proof.
  induction t as [|c t IH]; intros s u; [destruct s; destruct u; reflexivity|].
  destruct s as [|b s]; simpl; [discriminate|].
  destruct (ascii_dec c b); [apply IH | discriminate].
Qed.

Lemma contains_refl t : contains t t = true.
Proof.
  destruct t as [|c t]; [reflexivity|].
  change (String.prefix (String c t) (String c t) || contains (String c t) t = true).
  rewrite prefix_refl. reflexivity.
Qed.

(** A string that ends with [t] contains [t]. *)
Lemma contains_app_r t s : contains t (s ++ t) = true.
Proof.
  induction s as [|c s IH]; [apply contains_refl|].
  change (String.prefix t (String c (s ++ t)) || contains t (s ++ t) = true).
  rewrite IH. apply orb_true_r.
Qed.

(** Appending keeps what a string contains. *)
Lemma contains_app_l t s u : contains t s = true -> contains t (s ++ u) = true.
Proof.
  induction s as [|c s IH].
  - simpl. rewrite orb_false_r. intros H.
    destruct t; [destruct u; reflexivity | discriminate].
  - change (String.prefix t (String c s) || contains t s = true ->
            String.prefix t (String c s ++ u) || contains t (s ++ u) = true).
    intros H. apply orb_true_iff in H. apply orb_true_iff.
    destruct H as [H|H]; [left; apply prefix_app; exact H | right; apply IH; exact H].
Qed.

(** ** The guidance injector *)

Section AppendOnce.

Variables field text : string.

Lemma append_once_text operation s :
  dict_get field operation = Some (JStr s) ->
  append_once field text operation
  = Ret (dict_set field (JStr (once text s)) operation).
Proof.
  intros Hget. unfold append_once, getitem, str_in, add_str, once, bind.
  rewrite Hget. destruct (contains text s); [|reflexivity].
  rewrite (dict_set_same_value _ _ _ Hget). reflexivity.
Qed.

Lemma append_once_present operation operation' :
  append_once field text operation = Ret operation' ->
  present field text operation'.
Proof.
  unfold append_once, getitem. intros H.
  destruct (dict_get field operation) as [current|] eqn:Hget; [|discriminate].
  cbn [bind] in H. bind_inv H. destruct a.
  - injection H as <-. exists current. auto.
  - bind_inv H. injection H as <-.
    destruct current; try discriminate. injection Ha0 as <-.
    eexists. split; [apply dict_get_set_same|].
    simpl. rewrite contains_app_r. reflexivity.
Qed.

Lemma append_once_when_present operation :
  present field text operation ->
  append_once field text operation = Ret operation.
Proof.
  intros (current & Hget & Hin). unfold append_once, getitem.
  rewrite Hget. cbn [bind]. rewrite Hin. reflexivity.
Qed.

(** Appending another text to the same field keeps [text] present. *)
Lemma append_once_keeps_present other operation operation' :
  present field text operation ->
  append_once field other operation = Ret operation' ->
  present field text operation'.
Proof.
  intros (current & Hget & Hin). unfold append_once, getitem.
  rewrite Hget. cbn [bind]. intros H. bind_inv H. destruct a.
  - injection H as <-. exists current. auto.
  - bind_inv H. injection H as <-.
    destruct current; try discriminate. injection Ha0 as <-.
    eexists. split; [apply dict_get_set_same|].
    simpl in *. injection Hin as Hin. rewrite (contains_app_l _ _ _ Hin). reflexivity.
Qed.

End AppendOnce.

Lemma append_once_has field text operation operation' k :
  append_once field text operation = Ret operation' ->
  dict_has k operation' = dict_has k operation.
Proof.
  unfold append_once, getitem. intros H.
  destruct (dict_get field operation) as [current|] eqn:Hget; [|discriminate].
  cbn [bind] in H. bind_inv H. destruct a; [injection H as <-; reflexivity|].
  bind_inv H. injection H as <-.
  destruct (String.eqb_spec field k) as [->|Hne].
  - unfold dict_has. rewrite dict_get_set_same, Hget. reflexivity.
  - apply dict_has_set_other; exact Hne.
Qed.

(** Running the body of the loop on its own result changes nothing. *)
Lemma guide_operation_idempotent path operation once_guided :
  guide_operation path operation = Ret once_guided ->
  guide_operation path once_guided = Ret once_guided.
Proof.
  unfold guide_operation.
  destruct operation as [| | | | | |op]; try (intros [= <-]; reflexivity).
  destruct (dict_has "summary" op) eqn:Hsum.
  - intros H. bind_inv H. rename a into op1. bind_inv H. rename a into op2.
    injection H as <-.
    assert (Hsum2 : dict_has "summary" op2 = true).
    { rewrite (append_once_has _ _ _ _ _ Ha0).
      destruct (any_in admin_level_endpoints path);
        [|destruct (any_in location_endpoints path)].
      - rewrite (append_once_has _ _ _ _ _ Ha). exact Hsum.
      - rewrite (append_once_has _ _ _ _ _ Ha). exact Hsum.
      - injection Ha as <-. exact Hsum. }
    cbv beta iota. rewrite Hsum2. cbv beta iota.
    pose proof (append_once_present _ _ _ _ Ha0) as Hpag.
    match goal with |- bind ?c _ = _ => assert (Hfirst : c = Ret op2) end.
    { destruct (any_in admin_level_endpoints path);
        [|destruct (any_in location_endpoints path); [|reflexivity]];
        apply append_once_when_present;
        apply (append_once_keeps_present _ _ _ _ _ (append_once_present _ _ _ _ Ha) Ha0). }
    rewrite Hfirst. cbn [bind].
    rewrite (append_once_when_present _ _ _ Hpag). reflexivity.
  - destruct (dict_has "description" op) eqn:Hdesc; [|intros [= <-]; rewrite Hsum, Hdesc; reflexivity].
    intros H. bind_inv H. rename a into op1. bind_inv H. rename a into op2.
    injection H as <-.
    assert (Hkeys : dict_has "summary" op2 = false /\ dict_has "description" op2 = true).
    { rewrite !(append_once_has _ _ _ _ _ Ha0).
      destruct (any_in location_endpoints path).
      - rewrite !(append_once_has _ _ _ _ _ Ha). auto.
      - injection Ha as <-. auto. }
    destruct Hkeys as [Hsum2 Hdesc2]. cbv beta iota. rewrite Hsum2, Hdesc2. cbv beta iota.
    pose proof (append_once_present _ _ _ _ Ha0) as Hpag.
    match goal with |- bind ?c _ = _ => assert (Hfirst : c = Ret op2) end.
    { destruct (any_in location_endpoints path); [|reflexivity].
      apply append_once_when_present.
      apply (append_once_keeps_present _ _ _ _ _ (append_once_present _ _ _ _ Ha) Ha0). }
    rewrite Hfirst. cbn [bind].
    rewrite (append_once_when_present _ _ _ Hpag). reflexivity.
Qed.

(** A loop over the items of a dict whose body is idempotent is
    idempotent. *)
Lemma mapM_entries_idempotent (f : json -> res json) (entries entries' : dict) :
  (forall v v', f v = Ret v' -> f v' = Ret v') ->
  mapM (fun kv => v <- f (snd kv) ;; Ret (fst kv, v)) entries = Ret entries' ->
  mapM (fun kv => v <- f (snd kv) ;; Ret (fst kv, v)) entries' = Ret entries'.
Proof.
  intros Hf. revert entries'.
  induction entries as [|[k v] rest IH]; simpl; intros entries' H.
  - injection H as <-. reflexivity.
  - apply bind_ret in H. destruct H as (kv' & Hkv & H).
    apply bind_ret in Hkv. destruct Hkv as (w & Hw & Hkv). injection Hkv as <-.
    apply bind_ret in H. destruct H as (rest' & Hrest & H). injection H as <-.
    simpl. rewrite (Hf _ _ Hw). simpl. rewrite (IH _ Hrest). reflexivity.
Qed.

Lemma mapM_paths_idempotent (f : string -> json -> res json) (entries entries' : dict) :
  (forall path v v', f path v = Ret v' -> f path v' = Ret v') ->
  mapM (fun kv => v <- f (fst kv) (snd kv) ;; Ret (fst kv, v)) entries = Ret entries' ->
  mapM (fun kv => v <- f (fst kv) (snd kv) ;; Ret (fst kv, v)) entries' = Ret entries'.
Proof.
  intros Hf. revert entries'.
  induction entries as [|[k v] rest IH]; simpl; intros entries' H.
  - injection H as <-. reflexivity.
  - apply bind_ret in H. destruct H as (kv' & Hkv & H).
    apply bind_ret in Hkv. destruct Hkv as (w & Hw & Hkv). injection Hkv as <-.
    apply bind_ret in H. destruct H as (rest' & Hrest & H). injection H as <-.
    simpl. rewrite (Hf _ _ _ Hw). simpl. rewrite (IH _ Hrest). reflexivity.
Qed.

Lemma guide_path_idempotent path path_data once_guided :
  guide_path path path_data = Ret once_guided ->
  guide_path path once_guided = Ret once_guided.
Proof.
  unfold guide_path. destruct (contains "app-identifier" path); [intros [= <-]; reflexivity|].
  intros H. bind_inv H. bind_inv H. injection H as <-.
  cbn [items bind].
  rewrite (mapM_entries_idempotent (guide_operation path) _ _
             (guide_operation_idempotent path) Ha0).
  reflexivity.
Qed.

(** A pass over the paths whose body is idempotent is idempotent. *)
Lemma over_paths_idempotent (f : string -> json -> res json) spec once_run :
  (forall path v v', f path v = Ret v' -> f path v' = Ret v') ->
  over_paths f spec = Ret once_run ->
  over_paths f once_run = Ret once_run.
Proof.
  intros Hf. unfold over_paths, get.
  destruct spec as [| | | | | |s]; try discriminate.
  cbn [bind]. unfold dict_has.
  destruct (dict_get "paths" s) as [paths|] eqn:Hpaths.
  - intros H. bind_inv H. bind_inv H. injection H as <-.
    destruct paths; try discriminate. injection Ha as <-.
    rewrite dict_get_set_same. cbn [items bind].
    rewrite (mapM_paths_idempotent f _ _ Hf Ha0). cbn [bind].
    rewrite dict_set_set. reflexivity.
  - cbn [items bind mapM]. intros [= <-]. cbn [bind]. rewrite Hpaths.
    cbn [items bind mapM]. reflexivity.
Qed.

(** C2.  Running the injector on its own result gives that result again,
    over the whole specification and so on every summary and description:
    a text that a field contains is not appended again.  On an operation
    whose summary (or, without one, description) is text, the injector
    returns, so that both runs are defined. *)
Theorem guidance_is_idempotent :
  (forall spec once_run,
      _add_admin_level_guidance spec = Ret once_run ->
      _add_admin_level_guidance once_run = Ret once_run)
  /\ (forall path operation,
        text_fields operation = true ->
        exists once_guided,
          guide_operation path (JDict operation) = Ret once_guided
          /\ guide_operation path once_guided = Ret once_guided).
Proof.
  split.
  - intros spec once_run. apply over_paths_idempotent.
    intros path v v'. apply guide_path_idempotent.
  - intros path op Htext.
    assert (Hret : exists once_guided, guide_operation path (JDict op) = Ret once_guided).
    { unfold guide_operation, text_fields, dict_has in *.
      destruct (dict_get "summary" op) as [v|] eqn:Hsum.
      - destruct v as [| | | |s| |]; try discriminate.
        destruct (any_in admin_level_endpoints path);
          [|destruct (any_in location_endpoints path)];
          rewrite ?(append_once_text _ _ _ _ Hsum); cbn [bind];
          erewrite append_once_text by (try apply dict_get_set_same; exact Hsum);
          eexists; reflexivity.
      - destruct (dict_get "description" op) as [v|] eqn:Hdesc; [|eexists; reflexivity].
        destruct v as [| | | |s| |]; try discriminate.
        destruct (any_in location_endpoints path);
          rewrite ?(append_once_text _ _ _ _ Hdesc); cbn [bind];
          erewrite append_once_text by (try apply dict_get_set_same; exact Hdesc);
          eexists; reflexivity. }
    destruct Hret as (once_guided & Hret). exists once_guided.
    split; [exact Hret | apply (guide_operation_idempotent _ _ _ Hret)].
Qed.

Lemma guidance_is_idempotent_witness :
  (exists once_run,
      _add_admin_level_guidance Examples.guidance_spec = Ret once_run
      /\ _add_admin_level_guidance once_run = Ret once_run)
  /\ (exists once_guided,
        guide_operation Examples.idps_path (JDict Examples.summarised_operation)
        = Ret once_guided
        /\ guide_operation Examples.idps_path once_guided = Ret once_guided).
Proof.
  destruct guidance_is_idempotent as [Hspec Hoperation].
  split.
  - destruct (_add_admin_level_guidance Examples.guidance_spec) as [once_run| |] eqn:Hrun;
      try (vm_compute in Hrun; discriminate Hrun).
    exists once_run. split; [reflexivity|].
    apply (Hspec Examples.guidance_spec once_run Hrun).
  - apply (Hoperation Examples.idps_path Examples.summarised_operation).
    reflexivity.
Defined.




(** ** The operation identifiers *)

Lemma table_get_in path id table :
  table_get path table = Some id -> In (path, id) table.
Proof.
  induction table as [|[p i] rest IH]; simpl; [discriminate|].
  destruct (String.eqb_spec path p) as [->|Hne].
  - intros [= ->]. left; reflexivity.
  - intros H. right. apply IH; exact H.
Qed.

Lemma distinct_keys_NoDup l : distinct_keys l = true -> NoDup l.
Proof.
  induction l as [|k rest IH]; simpl; intros H; [constructor|].
  apply andb_true_iff in H. destruct H as [Hfresh Hrest].
  constructor; [|apply IH; exact Hrest].
  intros Hin. apply negb_true_iff in Hfresh.
  assert (existsb (String.eqb k) rest = true) as Hex
    by (apply existsb_exists; exists k; split; [exact Hin | apply String.eqb_refl]).
  congruence.
Qed.

Lemma NoDup_snd_injective (table : list (string * string)) p1 p2 id :
  NoDup (map snd table) -> In (p1, id) table -> In (p2, id) table -> p1 = p2.
Proof.
  induction table as [|[p i] rest IH]; simpl; intros Hnd H1 H2; [contradiction|].
  inversion Hnd as [|? ? Hfresh Hrest]; subst.
  destruct H1 as [E1|H1]; destruct H2 as [E2|H2].
  - congruence.
  - exfalso. apply Hfresh. injection E1 as _ ->. apply (in_map snd _ _ H2).
  - exfalso. apply Hfresh. injection E2 as _ ->. apply (in_map snd _ _ H1).
  - apply IH; assumption.
Qed.

(** The table gives different identifiers to different paths. *)
Lemma path_to_operation_id_injective p1 p2 id :
  table_get p1 path_to_operation_id = Some id ->
  table_get p2 path_to_operation_id = Some id ->
  p1 = p2.
Proof.
  intros H1 H2.
  apply (NoDup_snd_injective path_to_operation_id p1 p2 id).
  - apply distinct_keys_NoDup. vm_compute. reflexivity.
  - apply table_get_in; exact H1.
  - apply table_get_in; exact H2.
Qed.

Lemma method_ids_path path path_data op :
  In op (method_ids path path_data) -> fst (fst op) = path.
Proof.
  unfold method_ids. destruct path_data as [| | | | | |methods]; try contradiction.
  intros H. apply in_flat_map in H. destruct H as ([mname mdata] & _ & H).
  simpl in H. destruct mdata as [| | | | | |m]; try contradiction.
  destruct (dict_get "operationId" m); [|contradiction].
  destruct H as [<-|[]]. reflexivity.
Qed.

Lemma rename_path_ids path path_data renamed :
  rename_path path path_data = Ret renamed ->
  method_ids path renamed = map canonical (method_ids path path_data).
Proof.
  unfold rename_path.
  destruct (table_get path path_to_operation_id) as [new_id|] eqn:Htable.
  - intros H. bind_inv H. injection H as <-.
    destruct path_data as [| | | | | |methods]; try discriminate. injection Ha as <-.
    unfold method_ids.
    induction methods as [|[mname mdata] rest IH]; [reflexivity|].
    cbn [map flat_map fst snd]. rewrite map_app, IH. f_equal.
    unfold rename_method. destruct mdata as [| | | | | |m]; try reflexivity.
    unfold dict_has. destruct (dict_get "operationId" m) as [id|] eqn:Hid.
    + cbn -[table_get path_to_operation_id]. rewrite dict_get_set_same.
      cbn -[table_get path_to_operation_id]. rewrite Htable. reflexivity.
    + cbn -[table_get path_to_operation_id]. rewrite Hid. reflexivity.
  - intros [= <-]. symmetry.
    rewrite <- (map_id (method_ids path path_data)) at 2.
    apply map_ext_in. intros [[p m] id] Hin.
    apply method_ids_path in Hin. simpl in Hin. subst p.
    unfold canonical. rewrite Htable. reflexivity.
Qed.

(** The pass gives every operation the identifier the table has for its
    path and leaves the others as they are. *)
Lemma simplified_operation_ids spec simplified :
  _simplify_operation_ids spec = Ret simplified ->
  operation_ids simplified = map canonical (operation_ids spec).
Proof.
  unfold _simplify_operation_ids, over_paths, get.
  destruct spec as [| | | | | |s]; try discriminate.
  cbn [bind]. unfold dict_has, operation_ids.
  destruct (dict_get "paths" s) as [paths|] eqn:Hpaths.
  - intros H. bind_inv H. bind_inv H. injection H as <-.
    destruct paths as [| | | | | |entries]; try discriminate. injection Ha as <-.
    rewrite dict_get_set_same.
    apply mapM_ret in Ha0. clear Hpaths.
    induction Ha0 as [|[p pd] [p' pd'] entries entries' Hkv _ IH]; [reflexivity|].
    simpl in Hkv. apply bind_ret in Hkv. destruct Hkv as (renamed & Hren & Hkv).
    injection Hkv as <- <-.
    cbn [flat_map fst snd]. rewrite map_app, IH.
    rewrite (rename_path_ids _ _ _ Hren). reflexivity.
  - cbn [items bind mapM]. intros [= <-]. rewrite Hpaths. reflexivity.
Qed.

(** C5, as the code has it.  After the pass every operation carries the
    identifier the table gives to its path, or its own identifier when
    the path is not in the table.  The table gives different identifiers
    to different paths, so two operations on paths of the table have the
    same identifier exactly when they are on the same path: all the
    methods of one path share one identifier.  The pass returns the
    specification and nothing else; it reports no collision. *)
Theorem canonical_ids_by_path spec simplified :
  _simplify_operation_ids spec = Ret simplified ->
  operation_ids simplified = map canonical (operation_ids spec)
  /\ (forall p1 m1 id1 p2 m2 id2,
        In (p1, m1, id1) (operation_ids simplified) ->
        In (p2, m2, id2) (operation_ids simplified) ->
        mapped p1 -> mapped p2 ->
        (id1 = id2 <-> p1 = p2)).
Proof.
  intros Hpass. pose proof (simplified_operation_ids _ _ Hpass) as Hids.
  split; [exact Hids|].
  intros p1 m1 id1 p2 m2 id2 H1 H2 Hm1 Hm2. rewrite Hids in H1, H2.
  apply in_map_iff in H1. destruct H1 as ([[q1 n1] i1] & E1 & _).
  apply in_map_iff in H2. destruct H2 as ([[q2 n2] i2] & E2 & _).
  unfold canonical in E1, E2. unfold mapped in Hm1, Hm2.
  destruct (table_get q1 path_to_operation_id) as [new1|] eqn:T1;
    injection E1 as -> -> <-; [|congruence].
  destruct (table_get q2 path_to_operation_id) as [new2|] eqn:T2;
    injection E2 as -> -> <-; [|congruence].
  split.
  - intros [= ->]. apply (path_to_operation_id_injective _ _ _ T1 T2).
  - intros ->. congruence.
Qed.

Lemma canonical_ids_by_path_witness :
  exists simplified,
    _simplify_operation_ids Examples.two_methods_spec = Ret simplified
    /\ operation_ids simplified
       = map canonical (operation_ids Examples.two_methods_spec).
Proof.
  destruct (_simplify_operation_ids Examples.two_methods_spec) as [simplified| |] eqn:Hpass;
    try (vm_compute in Hpass; discriminate Hpass).
  exists simplified. split; [reflexivity|].
  apply (canonical_ids_by_path Examples.two_methods_spec simplified Hpass).
Defined.

(** Two methods of one path of the table end up with one identifier,
    and the pass returns normally: the identifiers are not unique after
    the pass. *)
Lemma methods_of_one_path_collide :
  ~ (forall spec simplified,
        _simplify_operation_ids spec = Ret simplified ->
        NoDup (map snd (operation_ids simplified))).
Proof.
  intros H.
  specialize (H Examples.two_methods_spec _ eq_refl).
  vm_compute in H.
  inversion H as [|? ? Hfresh _]. apply Hfresh. left; reflexivity.
Qed.

(** ** The defaults of the parameters *)






Section Defaults.

Variable schemas : json.
Hypothesis schemas_wf : wf schemas = true.




(** The loop over the parameters of an operation applies the processing
    above to each parameter, in order. *)
Lemma fix_parameters_pointwise (method_data method_data' : dict) params :
  dict_get "parameters" method_data = Some (JList params) ->
  fix_parameters schemas method_data = Ret method_data' ->
  exists params',
    dict_get "parameters" method_data' = Some (JList params')
    /\ Forall2 (fun param param' => fix_param schemas param = Ret param') params params'.
Proof.
  intros Hparams. unfold fix_parameters. rewrite Hparams.
  intros H. bind_inv H. injection H as <-.
  exists a. split; [apply dict_get_set_same | apply mapM_ret; exact Ha].
Qed.

End Defaults.

(** ** The gateway tools *)

Section Tools.

Variable _rate_limited_request : string -> string -> dict -> res response.

(** C8.  Whatever the upstream call does, [search_locations] returns an
    envelope: the success envelope or the error envelope.  When the
    awaited request raises, when [raise_for_status] raises on the
    response, or when the body cannot be read, the value is the error
    envelope: an ["error"] message and, under ["filters_applied"], the
    two filter arguments as the caller gave them. *)
Theorem search_locations_isolates_failures name_pattern has_hrp :
  let request :=
    _rate_limited_request "get" "/metadata/location"
      (location_params name_pattern has_hrp) in
  let result := search_locations _rate_limited_request name_pattern has_hrp in
  let failed :=
    (exists e, request = Exc e)
    \/ (exists response e, request = Ret response
                           /\ raise_for_status response = Exc e)
    \/ (exists response e, request = Ret response
                           /\ raise_for_status response = Ret tt
                           /\ response_json response = Exc e) in
  (failed ->
   result = search_failure name_pattern has_hrp
   /\ field "error" result = Some (JStr "Failed to search locations")
   /\ field "filters_applied" result
      = Some (JDict [ ("name_pattern", optional_str name_pattern);
                      ("has_hrp", optional_bool has_hrp) ]))
  /\ (result = search_failure name_pattern has_hrp
      \/ field "status" result = Some (JStr "success")).
Proof.
  intros request result failed. split.
  - intros Hfailed.
    assert (H : result = search_failure name_pattern has_hrp).
    { unfold result, search_locations, search_locations_try. fold request.
      destruct Hfailed
        as [(e & ->)|[(response & e & -> & Hstatus)
                     |(response & e & -> & Hstatus & Hbody)]];
        cbn [bind]; try rewrite Hstatus; cbn [bind]; try rewrite Hbody; reflexivity. }
    rewrite H. repeat split.
  - unfold result, search_locations.
    destruct (search_locations_try _rate_limited_request name_pattern has_hrp)
      as [envelope| |] eqn:Htry; [right | left; reflexivity | left; reflexivity].
    unfold search_locations_try in Htry.
    repeat (apply bind_ret in Htry; destruct Htry as (? & _ & Htry)).
    injection Htry as <-. reflexivity.
Qed.

(** What [get_dataset_info] returns on an answer whose body is a dict,
    by the value under ["data"]. *)
Lemma get_dataset_info_on_body dataset_hdx_id response (body : dict) :
  _rate_limited_request "get" "/metadata/dataset"
    [("dataset_hdx_id", JStr dataset_hdx_id)] = Ret response ->
  raise_for_status response = Ret tt ->
  response_json response = Ret (JDict body) ->
  get_dataset_info _rate_limited_request dataset_hdx_id
  = match dict_get "data" body with
    | None => not_found dataset_hdx_id
    | Some data =>
        if truthy data then
          match getitem0 data with
          | Ret first => found first dataset_hdx_id
          | _ => fetch_failure dataset_hdx_id
          end
        else not_found dataset_hdx_id
    end.
Proof.
  intros Hrequest Hstatus Hbody.
  unfold get_dataset_info, get_dataset_info_try.
  rewrite Hrequest. cbn [bind]. rewrite Hstatus. cbn [bind]. rewrite Hbody.
  cbn [bind get getitem].
  destruct (dict_get "data" body) as [data|]; [|reflexivity].
  cbn [bind]. destruct (truthy data); [|reflexivity].
  cbn [negb bind]. destruct (getitem0 data); reflexivity.
Qed.

(** C10, as the code has it.  On an answer whose body is a dict: when
    ["data"] is absent or falsy (null, false, zero, empty) the result is
    the envelope [{"error": "Dataset not found", "dataset_hdx_id": ...}],
    which has no ["status"]; when ["data"] is a non-empty list the result
    is the success envelope with the first element as the dataset; and
    the success envelope is returned exactly when ["data"] is a
    non-empty list or a non-empty string, of which the dataset is then
    the first character.  Any other truthy ["data"] gives the envelope of
    a failed fetch. *)
Theorem dataset_info_by_data dataset_hdx_id response (body : dict) :
  _rate_limited_request "get" "/metadata/dataset"
    [("dataset_hdx_id", JStr dataset_hdx_id)] = Ret response ->
  raise_for_status response = Ret tt ->
  response_json response = Ret (JDict body) ->
  let result := get_dataset_info _rate_limited_request dataset_hdx_id in
  (dict_get "data" body = None -> result = not_found dataset_hdx_id)
  /\ (forall data, dict_get "data" body = Some data -> truthy data = false ->
        result = not_found dataset_hdx_id)
  /\ field "status" (not_found dataset_hdx_id) = None
  /\ (forall first rest, dict_get "data" body = Some (JList (first :: rest)) ->
        result = found first dataset_hdx_id)
  /\ (field "status" result = Some (JStr "success") <->
      (exists first rest, dict_get "data" body = Some (JList (first :: rest)))
      \/ (exists c rest, dict_get "data" body = Some (JStr (String c rest))))
  /\ (forall data, dict_get "data" body = Some data -> truthy data = true ->
        is_list data = false -> is_str data = false ->
        result = fetch_failure dataset_hdx_id).
Proof.
  intros Hrequest Hstatus Hbody result.
  pose proof (get_dataset_info_on_body _ _ _ Hrequest Hstatus Hbody) as Hresult.
  fold result in Hresult.
  split; [|split; [|split; [|split; [|split]]]].
  - intros Hdata. rewrite Hresult, Hdata. reflexivity.
  - intros data Hdata Hfalsy. rewrite Hresult, Hdata, Hfalsy. reflexivity.
  - reflexivity.
  - intros first rest Hdata. rewrite Hresult, Hdata. reflexivity.
  - rewrite Hresult. destruct (dict_get "data" body) as [data|].
    + split.
      * destruct data as [|[|]|n|f|[|c s]|[|x l]|[|kv d]]; simpl;
          try discriminate; eauto.
        -- destruct (negb (n =? 0)%Z); discriminate.
        -- destruct f; discriminate.
      * intros [(first & rest & [= ->])|(c & rest & [= ->])]; reflexivity.
    + split; [discriminate|].
      intros [(first & rest & H)|(c & rest & H)]; discriminate.
  - intros data Hdata Htruthy Hlist Hstr. rewrite Hresult, Hdata, Htruthy.
    destruct data; try discriminate; reflexivity.
Qed.

End Tools.

Lemma search_locations_isolates_failures_witness :
  search_locations (fun _ _ _ => Exc TransportError) (Some "Af") (Some true)
  = search_failure (Some "Af") (Some true).
Proof.
  destruct (search_locations_isolates_failures
              (fun _ _ _ => Exc TransportError) (Some "Af") (Some true))
    as [Hfailed _].
  apply Hfailed. left. exists TransportError. reflexivity.
Defined.

Lemma dataset_info_by_data_witness :
  get_dataset_info (answers (JDict [("data", JList [])])) "abc"
  = not_found "abc".
Proof.
  destruct (dataset_info_by_data (answers (JDict [("data", JList [])])) "abc"
              {| raise_for_status := Ret tt;
                 response_json := Ret (JDict [("data", JList [])]) |}
              [("data", JList [])] eq_refl eq_refl eq_refl) as (_ & Hfalsy & _).
  apply (Hfalsy (JList [])); reflexivity.
Defined.

(** A body whose ["data"] is a non-empty string gets the success
    envelope, with the first character as the dataset: success is not
    confined to non-empty lists. *)
Lemma text_data_is_a_success :
  ~ (forall request dataset_hdx_id response (body : dict),
        request "get" "/metadata/dataset" [("dataset_hdx_id", JStr dataset_hdx_id)]
        = Ret response ->
        raise_for_status response = Ret tt ->
        response_json response = Ret (JDict body) ->
        field "status" (get_dataset_info request dataset_hdx_id)
        = Some (JStr "success") ->
        exists first rest, dict_get "data" body = Some (JList (first :: rest))).
Proof.
  intros H.
  destruct (H (answers (JDict [("data", JStr "none")])) "abc"
              {| raise_for_status := Ret tt;
                 response_json := Ret (JDict [("data", JStr "none")]) |}
              [("data", JStr "none")] eq_refl eq_refl eq_refl eq_refl)
    as (first & rest & Hdata).
  discriminate Hdata.
Qed.

(** ** The identity parameter *)








(** [required.remove] takes out one occurrence.  A list that names the
    identity parameter twice, which JSON Schema does not allow, still
    names it after the customisation: the condition on the required
    names is needed. *)
Lemma identity_required_twice_stays :
  ~ (forall c,
        contains "Tool" (class_name c) = true ->
        mentions_identity (_customize_mcp_components c) = false).
Proof.
  intros H. specialize (H Examples.twice_required_tool eq_refl).
  vm_compute in H. discriminate H.
Qed.

(** ** The model on the inputs of the repository's unit tests *)

(** [test_create_app_identifier] *)
Example create_app_identifier_test :
  _create_app_identifier
    {| api_key := "key"; base_url := "https://hapi.humdata.org/api/v2";
       timeout := S754_zero false;
       app_name := "test-app"; app_email := "user@example.com" |}
  = "dGVzdC1hcHA6dXNlckBleGFtcGxlLmNvbQ==".
Proof. reflexivity. Qed.

(** [test_fix_openapi_schema_references]: the defaults of the three
    named parameters, and the response schema with its references
    inlined. *)
Example fix_openapi_schema_references_test :
  match Examples.get_operation "/api/v2/metadata/location"
          (_fix_openapi_schema_references Examples.schema_test_spec) with
  | Some (JDict operation) =>
      match dict_get "parameters" operation with
      | Some (JList params) => map default_of params
      | _ => []
      end
  | _ => []
  end
  = [ Some (JInt 10); Some (JStr "all"); Some (JStr "all") ].
Proof. reflexivity. Qed.

Example fix_openapi_schema_references_inlines :
  match _fix_openapi_schema_references Examples.schema_test_spec with
  | Ret fixed => Examples.has_ref_in_paths fixed
  | _ => true
  end = false.
Proof. reflexivity. Qed.

(** [test_simplify_operation_ids] *)
Example simplify_operation_ids_test :
  match _simplify_operation_ids Examples.operation_id_test_spec with
  | Ret simplified => map snd (operation_ids simplified)
  | _ => []
  end
  = [ JStr "affected_people_idps_get"; JStr "metadata_location_get";
      JStr "should_remain_unchanged" ].
Proof. reflexivity. Qed.

(** [test_add_admin_level_guidance] *)
Example add_admin_level_guidance_test :
  match Examples.get_operation Examples.idps_path
          (_add_admin_level_guidance Examples.guidance_spec) with
  | Some (JDict operation) =>
      match dict_get "summary" operation with
      | Some (JStr summary) =>
          contains "CRITICAL - Administrative Level Efficiency" summary
          && contains "metadata_data_availability_get" summary
          && contains "Pagination" summary
          && contains "limit` and `offset` parameters" summary
      | _ => false
      end
  | _ => false
  end = true.
Proof. vm_compute. reflexivity. Qed.

(** A definition that refers to itself is expanded down to the bound
    and comes back as a reference. *)
Example loop_is_returned_unresolved :
  resolve_schema Examples.location_schemas Examples.loop_ref = Ret Examples.loop_ref.
Proof. reflexivity. Qed.

(* ================================================================== *)
(** * Further properties of the code *)
(* ================================================================== *)

(** ** More on the resolver *)

Lemma mapM_ext_in {A B : Type} (f g : A -> res B) (l : list A) :
  (forall x, In x l -> f x = g x) -> mapM f l = mapM g l.
Proof.
  induction l as [|x rest IH]; simpl; intros H; [reflexivity|].
  rewrite (H x (or_introl eq_refl)), IH; [reflexivity|].
  intros y Hy. apply H. right; exact Hy.
Qed.

Lemma existsb_false_in {A : Type} (P : A -> bool) l x :
  existsb P l = false -> In x l -> P x = false.
Proof.
  intros H Hin. destruct (P x) eqn:E; [|reflexivity].
  assert (existsb P l = true) by (apply existsb_exists; eauto). congruence.
Qed.

(** On a value without reference nodes the table of definitions plays
    no part. *)
Lemma resolve_ignores_table schemas schemas' gas : forall v depth,
  has_ref v = false ->
  resolve_refs_recursively schemas gas v depth
  = resolve_refs_recursively schemas' gas v depth.
Proof.
  induction gas as [|gas IH]; intros v depth Hfree; [reflexivity|].
  cbn [resolve_refs_recursively]. unfold resolve_body.
  destruct (10 <? depth)%nat; [reflexivity|].
  assert (Hitems : forall l, existsb has_ref l = false ->
            mapM (fun item => resolve_refs_recursively schemas gas item (depth + 1)) l
            = mapM (fun item => resolve_refs_recursively schemas' gas item (depth + 1)) l).
  { intros l Hl. apply mapM_ext_in. intros x Hx. apply IH.
    apply (existsb_false_in _ _ _ Hl Hx). }
  destruct v as [| | | | |l|d]; try reflexivity.
  - rewrite (Hitems l Hfree). reflexivity.
  - change (dict_has "$ref" d || existsb (fun kv => has_ref (snd kv)) d = false) in Hfree.
    apply orb_false_iff in Hfree. destruct Hfree as [Hkey Hvalues].
    unfold dict_has in Hkey.
    destruct (dict_get "$ref" d) as [ref_path|]; [discriminate|].
    assert (Hbranch : forall key any_of, branch_list key d = Some any_of ->
              existsb has_ref any_of = false).
    { intros key any_of Hb. unfold branch_list in Hb.
      destruct (dict_get key d) as [[| | | | |l|]|] eqn:Hget; try discriminate.
      injection Hb as ->. apply (existsb_dict_get _ _ _ _ Hvalues Hget). }
    destruct (branch_list "anyOf" d) as [any_of|] eqn:Hany.
    { rewrite (Hitems any_of (Hbranch _ _ Hany)). reflexivity. }
    destruct (branch_list "oneOf" d) as [one_of|] eqn:Hone.
    { rewrite (Hitems one_of (Hbranch _ _ Hone)). reflexivity. }
    destruct (branch_list "allOf" d) as [all_of|] eqn:Hall.
    { rewrite (Hitems all_of (Hbranch _ _ Hall)). reflexivity. }
    f_equal. apply mapM_ext_in. intros kv Hin. rewrite (IH (snd kv) (depth + 1)); [reflexivity|].
    apply (existsb_false_in (fun kv => has_ref (snd kv)) _ _ Hvalues Hin).
Qed.

(** X1.  A well-typed schema that holds no reference node comes back
    from the resolver exactly as it went in, at every depth and
    whatever the table of definitions holds. *)
Theorem reference_free_schema_is_unchanged schemas gas v depth :
  11 - depth < gas ->
  has_ref v = false ->
  well_typed v = true ->
  resolve_refs_recursively schemas gas v depth = Ret v.
Proof.
  intros Hgas Hfree Htyped.
  destruct (resolve_typed (JDict []) eq_refl gas v depth Hgas Htyped) as (r & Hr & _).
  rewrite (resolve_ignores_table schemas (JDict []) gas v depth Hfree).
  rewrite Hr. f_equal. apply (resolve_ref_free (JDict []) gas v depth r Hfree Hr).
Qed.

Lemma reference_free_schema_is_unchanged_witness :
  resolve_refs_recursively Examples.location_schemas 12
    (JDict Examples.limit_schema) 0 = Ret (JDict Examples.limit_schema).
Proof.
  apply (reference_free_schema_is_unchanged Examples.location_schemas 12
           (JDict Examples.limit_schema) 0); [simpl; lia | reflexivity | reflexivity].
Defined.

(** X2.  Under the conditions in which the resolver expands every
    reference, what it returns is a fixed point: resolving the result
    again, at any depth, returns the same schema. *)
Theorem resolver_is_idempotent_when_it_expands_fully schemas gas obj depth depth' :
  well_typed_schemas schemas = true ->
  well_typed obj = true ->
  11 - depth < gas ->
  11 - depth' < gas ->
  expands_fully schemas gas obj depth = true ->
  exists r,
    resolve_refs_recursively schemas gas obj depth = Ret r
    /\ resolve_refs_recursively schemas gas r depth' = Ret r.
Proof.
  intros Hschemas Hobj Hgas Hgas' Hexp.
  destruct (resolve_typed schemas Hschemas gas obj depth Hgas Hobj) as (r & Hr & Htyped & _).
  exists r. split; [exact Hr|].
  pose proof (expands_fully_ref_free schemas gas obj depth r Hexp Hr) as Hfree.
  destruct (resolve_typed (JDict []) eq_refl gas r depth' Hgas' Htyped) as (r' & Hr' & _).
  rewrite (resolve_ignores_table schemas (JDict []) gas r depth' Hfree).
  rewrite Hr'. f_equal. apply (resolve_ref_free (JDict []) gas r depth' r' Hfree Hr').
Qed.

Lemma resolver_is_idempotent_when_it_expands_fully_witness :
  exists r,
    resolve_refs_recursively Examples.location_schemas 12
      (JDict Examples.location_ref) 0 = Ret r
    /\ resolve_refs_recursively Examples.location_schemas 12 r 0 = Ret r.
Proof.
  apply (resolver_is_idempotent_when_it_expands_fully Examples.location_schemas 12
           (JDict Examples.location_ref) 0 0);
    [reflexivity | reflexivity | simpl; lia | simpl; lia | reflexivity].
Defined.

(** X3.  A reference the table cannot serve is kept verbatim, siblings
    included: when the path does not start with
    [#/components/schemas/], when the table has nothing under the name,
    or when what it has there is empty or otherwise falsy, the resolver
    returns the reference node itself. *)
Theorem unresolvable_reference_is_returned (defs d : dict) gas depth p :
  dict_get "$ref" d = Some (JStr p) ->
  String.prefix ref_prefix p = false
  \/ dict_get (remove_all ref_prefix p) defs = None
  \/ (exists target, dict_get (remove_all ref_prefix p) defs = Some target
                     /\ truthy target = false) ->
  resolve_refs_recursively (JDict defs) (S gas) (JDict d) depth = Ret (JDict d).
Proof.
  intros Href Hwhy. cbn [resolve_refs_recursively]. unfold resolve_body.
  destruct (10 <? depth)%nat; [reflexivity|].
  rewrite Href. unfold resolve_ref.
  destruct (String.prefix ref_prefix p) eqn:Hprefix.
  - unfold str_in, getitem, dict_has, bind.
    destruct Hwhy as [H|[H|(target & H & Hfalsy)]]; [discriminate| |];
      rewrite H; [reflexivity|]. rewrite Hfalsy. reflexivity.
  - reflexivity.
Qed.

Lemma unresolvable_reference_is_returned_witness :
  resolve_refs_recursively (JDict []) 12 Examples.missing_ref 0
  = Ret Examples.missing_ref.
Proof.
  apply (unresolvable_reference_is_returned [] _ 11 0 "#/components/schemas/Missing");
    [reflexivity | right; left; reflexivity].
Defined.

Lemma remove_from_skip pat t : forall s,
  remove_from pat (String.length t) (t ++ s) = remove_from pat 0 s.
Proof.
  induction t as [|c t IH]; intros s; [reflexivity|].
  simpl. destruct (t ++ s) eqn:E.
  - destruct t; [|discriminate]. simpl in E. subst s. reflexivity.
  - rewrite <- E. apply IH.
Qed.

Lemma remove_from_absent pat s :
  contains pat s = false -> remove_from pat 0 s = s.
Proof.
  induction s as [|c s IH]; [reflexivity|].
  change (String.prefix pat (String c s) || contains pat s = false ->
          remove_from pat 0 (String c s) = String c s).
  intros H. apply orb_false_iff in H. destruct H as [Hhere Hrest].
  cbn [remove_from]. rewrite Hhere, (IH Hrest). reflexivity.
Qed.

Lemma remove_from_own_prefix pat s :
  pat <> EmptyString -> remove_from pat 0 (pat ++ s) = remove_from pat 0 s.
Proof.
  destruct pat as [|c t]; [contradiction|]. intros _.
  pose proof (prefix_app (String c t) (String c t) s (prefix_refl _)) as Hprefix.
  change (String c t ++ s) with (String c (t ++ s)) in *.
  cbn [remove_from]. rewrite Hprefix.
  replace (String.length (String c t) - 1) with (String.length t)
    by (simpl; lia).
  apply remove_from_skip.
Qed.

Lemma remove_all_prefix name :
  remove_all ref_prefix (ref_prefix ++ name) = remove_all ref_prefix name.
Proof. apply remove_from_own_prefix. discriminate. Qed.

(** X4.  [resolve_ref] reads the name of a definition off a path by
    dropping every occurrence of [#/components/schemas/] from it: the
    path [#/components/schemas/N] resolves to the definition stored
    under [N] when [N] does not contain that text (and to [{}] when
    there is none), a path that does not start with it resolves to [{}],
    and a path that is not a string raises [AttributeError]. *)
Theorem resolve_ref_by_name (defs : dict) :
  (forall name,
      resolve_ref (JDict defs) (JStr (ref_prefix ++ name))
      = Ret (match dict_get (remove_all ref_prefix name) defs with
             | Some target => target
             | None => JDict []
             end))
  /\ (forall name, contains ref_prefix name = false ->
        remove_all ref_prefix name = name)
  /\ (forall p, String.prefix ref_prefix p = false ->
        resolve_ref (JDict defs) (JStr p) = Ret (JDict []))
  /\ (forall ref_path, is_str ref_path = false ->
        resolve_ref (JDict defs) ref_path = Exc AttributeError).
Proof.
  split; [|split; [|split]].
  - intros name. unfold resolve_ref.
    replace (String.prefix ref_prefix (ref_prefix ++ name)) with true
      by (symmetry; apply (prefix_app ref_prefix ref_prefix name); apply prefix_refl).
    rewrite remove_all_prefix. unfold str_in, getitem, dict_has, bind.
    destruct (dict_get (remove_all ref_prefix name) defs); reflexivity.
  - intros name. apply remove_from_absent.
  - intros p Hforeign. unfold resolve_ref. rewrite Hforeign. reflexivity.
  - intros ref_path Hstr. destruct ref_path; try reflexivity. discriminate.
Qed.

Lemma resolve_ref_by_name_witness :
  remove_all ref_prefix "Admin1" = "Admin1".
Proof.
  destruct (resolve_ref_by_name []) as (_ & Hname & _).
  apply Hname. reflexivity.
Defined.

Lemma keys_dict_set_present k v (d : dict) :
  dict_has k d = true -> map fst (dict_set k v d) = map fst d.
Proof.
  unfold dict_has. induction d as [|[k' v'] rest IH]; simpl; [discriminate|].
  destruct (String.eqb k k'); simpl; [reflexivity|].
  intros H. rewrite (IH H). reflexivity.
Qed.

Lemma mapM_entries_keys (f : json -> res json) (d out : dict) :
  mapM (fun kv => v <- f (snd kv) ;; Ret (fst kv, v)) d = Ret out ->
  map fst out = map fst d.
Proof.
  intros H. apply mapM_ret in H.
  induction H as [|[k v] kv' d out Hkv _ IH]; [reflexivity|].
  simpl in Hkv. apply bind_ret in Hkv. destruct Hkv as (y & _ & Hkv).
  injection Hkv as <-. simpl. rewrite IH. reflexivity.
Qed.

Lemma mapM_length {A B : Type} (f : A -> res B) l out :
  mapM f l = Ret out -> List.length out = List.length l.
Proof.
  intros H. apply mapM_ret in H. symmetry. apply (Forall2_length H).
Qed.

(** X5.  Outside a reference substitution the resolver keeps the shape
    of what it is given: a dict without ["$ref"] comes back as a dict
    with the same keys in the same order, a list as a list of the same
    length, and any other value as it is. *)
Theorem resolver_keeps_keys_and_lengths schemas gas depth :
  (forall (d : dict) r,
      dict_get "$ref" d = None ->
      resolve_refs_recursively schemas gas (JDict d) depth = Ret r ->
      exists d', r = JDict d' /\ map fst d' = map fst d)
  /\ (forall l r,
        resolve_refs_recursively schemas gas (JList l) depth = Ret r ->
        exists l', r = JList l' /\ List.length l' = List.length l)
  /\ (forall v r,
        is_dict v = false -> is_list v = false ->
        resolve_refs_recursively schemas gas v depth = Ret r ->
        r = v).
Proof.
  destruct gas as [|gas]; [repeat split; intros; discriminate|].
  cbn [resolve_refs_recursively]. unfold resolve_body.
  split; [|split].
  - intros d r Href Hres.
    destruct (10 <? depth)%nat; [injection Hres as <-; eauto|].
    rewrite Href in Hres.
    assert (Hbranch : forall key any_of rs,
              branch_list key d = Some any_of ->
              map fst (dict_set key (JList rs) d) = map fst d).
    { intros key any_of rs Hb. apply keys_dict_set_present.
      unfold branch_list in Hb. unfold dict_has.
      destruct (dict_get key d); [reflexivity | discriminate]. }
    destruct (branch_list "anyOf" d) as [any_of|] eqn:Hany.
    { bind_inv Hres. bind_inv Hres. injection Hres as <-. eauto. }
    destruct (branch_list "oneOf" d) as [one_of|] eqn:Hone.
    { bind_inv Hres. bind_inv Hres. injection Hres as <-. eauto. }
    destruct (branch_list "allOf" d) as [all_of|] eqn:Hall.
    { bind_inv Hres. injection Hres as <-. eauto. }
    bind_inv Hres. injection Hres as <-.
    exists a. split; [reflexivity|].
    apply (mapM_entries_keys
             (fun x => resolve_refs_recursively schemas gas x (depth + 1)) d a Ha).
  - intros l r Hres.
    destruct (10 <? depth)%nat; [injection Hres as <-; eauto|].
    bind_inv Hres. injection Hres as <-.
    exists a. split; [reflexivity | apply (mapM_length _ _ _ Ha)].
  - intros v r Hd Hl Hres.
    destruct (10 <? depth)%nat; [congruence|].
    destruct v; try discriminate; congruence.
Qed.

Lemma resolver_keeps_keys_and_lengths_witness :
  exists d',
    resolve_refs_recursively Examples.location_schemas 12
      (JDict Examples.limit_schema) 0 = Ret (JDict d')
    /\ map fst d' = map fst Examples.limit_schema.
Proof.
  destruct (resolve_refs_recursively Examples.location_schemas 12
              (JDict Examples.limit_schema) 0) as [r| |] eqn:Hres;
    try (vm_compute in Hres; discriminate Hres).
  destruct (resolver_keeps_keys_and_lengths Examples.location_schemas 12 0)
    as (Hdict & _).
  destruct (Hdict Examples.limit_schema r eq_refl Hres) as (d' & -> & Hkeys).
  exists d'. split; [reflexivity | exact Hkeys].
Defined.

(** ** What the passes leave alone *)

(** [method_data["operationId"]] when the method entry is a dict that
    has one. *)
Lemma method_ids_cons path mname mdata (rest : dict) :
  method_ids path (JDict ((mname, mdata) :: rest))
  = ((match mdata with
      | JDict m =>
          match dict_get "operationId" m with
          | Some id => [(path, mname, id)]
          | None => []
          end
      | _ => []
      end) ++ method_ids path (JDict rest))%list.
Proof. reflexivity. Qed.

(** A loop over the methods of a path whose body keeps the identifier
    of each operation keeps the operations of the path. *)
Lemma methods_ids_kept (g : json -> res json) path (methods methods' : dict) :
  (forall m r, g m = Ret r ->
     match r with JDict m' => dict_get "operationId" m' | _ => None end
     = match m with JDict m0 => dict_get "operationId" m0 | _ => None end) ->
  mapM (fun kv => v <- g (snd kv) ;; Ret (fst kv, v)) methods = Ret methods' ->
  method_ids path (JDict methods') = method_ids path (JDict methods).
Proof.
  intros Hg H. apply mapM_ret in H.
  induction H as [|[k v] [k' v'] d d' Hkv _ IH]; [reflexivity|].
  simpl in Hkv. apply bind_ret in Hkv. destruct Hkv as (y & Hy & Hkv).
  injection Hkv as <- <-.
  rewrite !method_ids_cons, IH. f_equal.
  pose proof (Hg v y Hy) as Hid.
  destruct y as [| | | | | |m']; destruct v as [| | | | | |m0];
    try rewrite Hid; try reflexivity;
    try (rewrite <- Hid; reflexivity).
Qed.

(** A pass over the paths whose body keeps the operations of each path
    keeps the operations of the specification; and a pass over the
    paths touches nothing but ["paths"]. *)
Lemma over_paths_ids (f : string -> json -> res json) spec out :
  (forall path v v', f path v = Ret v' -> method_ids path v' = method_ids path v) ->
  over_paths f spec = Ret out ->
  operation_ids out = operation_ids spec.
Proof.
  intros Hf. unfold over_paths, get.
  destruct spec as [| | | | | |s]; try discriminate.
  cbn [bind]. unfold dict_has, operation_ids.
  destruct (dict_get "paths" s) as [paths|] eqn:Hpaths.
  - intros H. bind_inv H. bind_inv H. injection H as <-.
    destruct paths as [| | | | | |entries]; try discriminate. injection Ha as <-.
    rewrite dict_get_set_same. apply mapM_ret in Ha0. clear Hpaths.
    induction Ha0 as [|[p pd] [p' pd'] entries entries' Hkv _ IH]; [reflexivity|].
    simpl in Hkv. apply bind_ret in Hkv. destruct Hkv as (y & Hy & Hkv).
    injection Hkv as <- <-.
    cbn [flat_map fst snd]. rewrite IH, (Hf _ _ _ Hy). reflexivity.
  - cbn [items bind mapM]. intros [= <-]. rewrite Hpaths. reflexivity.
Qed.

Lemma over_paths_rest (f : string -> json -> res json) spec out :
  over_paths f spec = Ret out ->
  exists s s',
    spec = JDict s /\ out = JDict s'
    /\ map fst s' = map fst s
    /\ forall k, k <> "paths" -> dict_get k s' = dict_get k s.
Proof.
  unfold over_paths, get.
  destruct spec as [| | | | | |s]; try discriminate.
  cbn [bind]. intros H. bind_inv H. bind_inv H.
  destruct (dict_has "paths" s) eqn:Hhas; injection H as <-.
  - exists s, (dict_set "paths" (JDict a0) s). repeat split; auto.
    + apply keys_dict_set_present. exact Hhas.
    + intros k Hk. apply dict_get_set_other. congruence.
  - exists s, s. auto.
Qed.

Lemma fix_method_keeps_id schemas m r :
  fix_method schemas m = Ret r ->
  match r with JDict m' => dict_get "operationId" m' | _ => None end
  = match m with JDict m0 => dict_get "operationId" m0 | _ => None end.
Proof.
  unfold fix_method. destruct m as [| | | | | |m0]; try (intros [= <-]; reflexivity).
  intros H. bind_inv H. rename a into m1. bind_inv H. rename a into m2.
  bind_inv H. rename a into m3. injection H as <-.
  assert (H1 : dict_get "operationId" m1 = dict_get "operationId" m0).
  { unfold fix_parameters in Ha. destruct (dict_get "parameters" m0) as [v|];
      [|injection Ha as <-; reflexivity].
    destruct v; try (bind_inv Ha; injection Ha as <-; reflexivity).
    bind_inv Ha. injection Ha as <-. apply dict_get_set_other. discriminate. }
  assert (H2 : dict_get "operationId" m2 = dict_get "operationId" m1).
  { unfold fix_responses in Ha0. destruct (dict_get "responses" m1) as [v|];
      [|injection Ha0 as <-; reflexivity].
    bind_inv Ha0. bind_inv Ha0. injection Ha0 as <-.
    apply dict_get_set_other. discriminate. }
  assert (H3 : dict_get "operationId" m3 = dict_get "operationId" m2).
  { unfold fix_request_body in Ha1. destruct (dict_get "requestBody" m2) as [v|];
      [|injection Ha1 as <-; reflexivity].
    destruct v; try (injection Ha1 as <-; reflexivity).
    bind_inv Ha1. injection Ha1 as <-. apply dict_get_set_other. discriminate. }
  congruence.
Qed.

Lemma fix_pass_ids spec fixed :
  _fix_openapi_schema_references spec = Ret fixed ->
  operation_ids fixed = operation_ids spec.
Proof.
  unfold _fix_openapi_schema_references. intros H.
  bind_inv H. rename a into components. bind_inv H. rename a into schemas.
  bind_inv H. refine (over_paths_ids _ _ _ _ H).
  intros path v v' Hpath. unfold fix_path in Hpath.
  apply bind_ret in Hpath. destruct Hpath as (methods & Hitems & Hpath).
  apply bind_ret in Hpath. destruct Hpath as (methods' & Hmethods & Hpath).
  injection Hpath as <-.
  destruct v as [| | | | | |ms]; try discriminate. injection Hitems as <-.
  apply (methods_ids_kept (fix_method schemas) path _ _
           (fix_method_keeps_id schemas) Hmethods).
Qed.

(** X6.  The reference-resolving pass rewrites the schemas under the
    paths and nothing else: the operations of the specification and
    their identifiers are the same after it, and so is every top-level
    entry other than ["paths"], the table of definitions under
    ["components"] included, which keeps its own references. *)
Theorem fix_pass_keeps_operations_and_components spec fixed :
  _fix_openapi_schema_references spec = Ret fixed ->
  operation_ids fixed = operation_ids spec
  /\ exists s s',
       spec = JDict s /\ fixed = JDict s'
       /\ map fst s' = map fst s
       /\ forall k, k <> "paths" -> dict_get k s' = dict_get k s.
Proof.
  intros H. split; [apply (fix_pass_ids _ _ H)|].
  unfold _fix_openapi_schema_references in H.
  bind_inv H. rename a into components. bind_inv H. rename a into schemas.
  bind_inv H. apply (over_paths_rest _ _ _ H).
Qed.

Lemma fix_pass_keeps_operations_and_components_witness :
  exists fixed,
    _fix_openapi_schema_references Examples.schema_test_spec = Ret fixed
    /\ operation_ids fixed = operation_ids Examples.schema_test_spec.
Proof.
  destruct (_fix_openapi_schema_references Examples.schema_test_spec)
    as [fixed| |] eqn:Hfix; try (vm_compute in Hfix; discriminate Hfix).
  exists fixed. split; [reflexivity|].
  apply (fix_pass_keeps_operations_and_components _ _ Hfix).
Defined.

Lemma append_nil_r s : s ++ "" = s.
Proof. induction s as [|c s IH]; simpl; [reflexivity | rewrite IH; reflexivity]. Qed.

Lemma append_assoc s t u : (s ++ t) ++ u = s ++ (t ++ u).
Proof. induction s as [|c s IH]; simpl; [reflexivity | rewrite IH; reflexivity]. Qed.

(** ** More on the operation identifiers *)

Lemma rename_method_idempotent new_id m :
  rename_method new_id (rename_method new_id m) = rename_method new_id m.
Proof.
  unfold rename_method. destruct m as [| | | | | |m0]; try reflexivity.
  destruct (dict_has "operationId" m0) eqn:Hhas.
  - unfold dict_has. rewrite dict_get_set_same, dict_set_set. reflexivity.
  - rewrite Hhas. reflexivity.
Qed.

Lemma rename_path_idempotent path path_data renamed :
  rename_path path path_data = Ret renamed ->
  rename_path path renamed = Ret renamed.
Proof.
  unfold rename_path.
  destruct (table_get path path_to_operation_id) as [new_id|];
    [|intros [= <-]; reflexivity].
  intros H. bind_inv H. injection H as <-. cbn [items bind].
  rewrite map_map. do 2 f_equal. apply map_ext. intros [k v]. simpl.
  rewrite rename_method_idempotent. reflexivity.
Qed.

(** X7.  Running the operation-identifier pass on its own result gives
    that result again. *)
Theorem simplify_operation_ids_is_idempotent spec simplified :
  _simplify_operation_ids spec = Ret simplified ->
  _simplify_operation_ids simplified = Ret simplified.
Proof.
  apply over_paths_idempotent. intros path v v'. apply rename_path_idempotent.
Qed.

Lemma simplify_operation_ids_is_idempotent_witness :
  exists simplified,
    _simplify_operation_ids Examples.operation_id_test_spec = Ret simplified
    /\ _simplify_operation_ids simplified = Ret simplified.
Proof.
  destruct (_simplify_operation_ids Examples.operation_id_test_spec)
    as [simplified| |] eqn:Hpass; try (vm_compute in Hpass; discriminate Hpass).
  exists simplified. split; [reflexivity|].
  apply (simplify_operation_ids_is_idempotent _ _ Hpass).
Defined.

Lemma mapM_paths_unchanged (f : string -> json -> res json) (entries : dict) :
  (forall kv, In kv entries -> f (fst kv) (snd kv) = Ret (snd kv)) ->
  mapM (fun kv => v <- f (fst kv) (snd kv) ;; Ret (fst kv, v)) entries = Ret entries.
Proof.
  induction entries as [|[k v] rest IH]; simpl; intros H; [reflexivity|].
  pose proof (H (k, v) (or_introl eq_refl)) as Hk. simpl in Hk. rewrite Hk. simpl.
  rewrite IH; [reflexivity|]. intros kv Hkv. apply H. right; exact Hkv.
Qed.

(** X8.  A specification none of whose paths is in the table comes back
    from the operation-identifier pass exactly as it was, whatever sits
    under its paths; and on a path of the table an operation keeps its
    keys, in order, and every value but that of ["operationId"]: an
    operation without an identifier is not given one. *)
Theorem unmapped_paths_and_other_fields_are_untouched :
  (forall (s entries : dict),
      dict_get "paths" s = Some (JDict entries) ->
      (forall path, In path (map fst entries) ->
                    table_get path path_to_operation_id = None) ->
      _simplify_operation_ids (JDict s) = Ret (JDict s))
  /\ (forall new_id (m : dict),
        exists m',
          rename_method new_id (JDict m) = JDict m'
          /\ map fst m' = map fst m
          /\ forall k, k <> "operationId" -> dict_get k m' = dict_get k m).
Proof.
  split.
  - intros s entries Hpaths Hunmapped.
    unfold _simplify_operation_ids, over_paths, get. cbn [bind].
    rewrite Hpaths. cbn [items bind].
    rewrite mapM_paths_unchanged.
    + cbn [bind]. unfold dict_has. rewrite Hpaths.
      rewrite (dict_set_same_value _ _ _ Hpaths). reflexivity.
    + intros [path pd] Hin. unfold rename_path. cbn [fst snd].
      rewrite (Hunmapped path (in_map fst _ _ Hin)). reflexivity.
  - intros new_id m. unfold rename_method.
    destruct (dict_has "operationId" m) eqn:Hhas.
    + eexists. split; [reflexivity|]. split.
      * apply keys_dict_set_present. exact Hhas.
      * intros k Hk. apply dict_get_set_other. congruence.
    + exists m. auto.
Qed.

Lemma unmapped_paths_and_other_fields_are_untouched_witness :
  _simplify_operation_ids
    (JDict [ ("paths",
              JDict [ ("/api/v2/unmapped/endpoint",
                       JDict [ ("get", JDict [ ("operationId",
                                                JStr "should_remain_unchanged") ]) ]) ]) ])
  = Ret (JDict [ ("paths",
                  JDict [ ("/api/v2/unmapped/endpoint",
                           JDict [ ("get", JDict [ ("operationId",
                                                    JStr "should_remain_unchanged") ]) ]) ]) ]).
Proof.
  destruct unmapped_paths_and_other_fields_are_untouched as (Hunmapped & _).
  apply (Hunmapped _ [ ("/api/v2/unmapped/endpoint",
                        JDict [ ("get", JDict [ ("operationId",
                                                 JStr "should_remain_unchanged") ]) ]) ]);
    [reflexivity|].
  intros path [<-|[]]. reflexivity.
Defined.

(** ** More on the guidance injector *)

Lemma append_once_spec field text operation operation' :
  append_once field text operation = Ret operation' ->
  map fst operation' = map fst operation
  /\ (forall k, k <> field -> dict_get k operation' = dict_get k operation)
  /\ (forall s, dict_get field operation = Some (JStr s) ->
        exists added, dict_get field operation' = Some (JStr (s ++ added))).
Proof.
  unfold append_once, getitem. intros H.
  destruct (dict_get field operation) as [current|] eqn:Hget; [|discriminate].
  cbn [bind] in H. bind_inv H. destruct a.
  - injection H as <-. repeat split; auto.
    intros s [= ->]. exists "". rewrite append_nil_r. exact Hget.
  - bind_inv H. injection H as <-. repeat split.
    + apply keys_dict_set_present. unfold dict_has. rewrite Hget. reflexivity.
    + intros k Hk. apply dict_get_set_other. congruence.
    + intros s [= ->]. injection Ha0 as <-. exists text. apply dict_get_set_same.
Qed.

Lemma guide_operation_appends path (operation : dict) guided :
  guide_operation path (JDict operation) = Ret guided ->
  exists operation',
    guided = JDict operation'
    /\ map fst operation' = map fst operation
    /\ (forall k, k <> "summary" -> k <> "description" ->
          dict_get k operation' = dict_get k operation)
    /\ (forall s, dict_get "summary" operation = Some (JStr s) ->
          (exists added, dict_get "summary" operation' = Some (JStr (s ++ added)))
          /\ dict_get "description" operation' = dict_get "description" operation)
    /\ (forall d, dict_get "summary" operation = None ->
          dict_get "description" operation = Some (JStr d) ->
          exists added, dict_get "description" operation' = Some (JStr (d ++ added))).
Proof.
  unfold guide_operation, dict_has.
  destruct (dict_get "summary" operation) as [summary|] eqn:Hsum.
  - intros H. bind_inv H. rename a into op1. bind_inv H. rename a into op2.
    injection H as <-.
    assert (H1 : map fst op1 = map fst operation
                 /\ (forall k, k <> "summary" -> dict_get k op1 = dict_get k operation)
                 /\ (forall s, dict_get "summary" operation = Some (JStr s) ->
                       exists added, dict_get "summary" op1 = Some (JStr (s ++ added)))).
    { destruct (any_in admin_level_endpoints path);
        [|destruct (any_in location_endpoints path)];
        try (apply (append_once_spec _ _ _ _ Ha)).
      injection Ha as <-. repeat split; auto.
      intros s Hs. exists "". rewrite append_nil_r. exact Hs. }
    destruct H1 as (Hkeys1 & Hother1 & Htext1).
    destruct (append_once_spec _ _ _ _ Ha0) as (Hkeys2 & Hother2 & Htext2).
    exists op2. split; [reflexivity|]. split; [congruence|]. split; [|split].
    + intros k Hk1 Hk2. rewrite (Hother2 k Hk1). apply Hother1; exact Hk1.
    + intros s [= ->]. split.
      * destruct (Htext1 s Hsum) as (added1 & Hadded1).
        destruct (Htext2 _ Hadded1) as (added2 & Hadded2).
        exists (added1 ++ added2). rewrite <- append_assoc. exact Hadded2.
      * rewrite Hother2 by discriminate. apply Hother1. discriminate.
    + discriminate.
  - destruct (dict_get "description" operation) as [description|] eqn:Hdesc.
    + intros H. bind_inv H. rename a into op1. bind_inv H. rename a into op2.
      injection H as <-.
      assert (H1 : map fst op1 = map fst operation
                   /\ (forall k, k <> "description" -> dict_get k op1 = dict_get k operation)
                   /\ (forall s, dict_get "description" operation = Some (JStr s) ->
                         exists added, dict_get "description" op1 = Some (JStr (s ++ added)))).
      { destruct (any_in location_endpoints path);
          try (apply (append_once_spec _ _ _ _ Ha)).
        injection Ha as <-. repeat split; auto.
        intros s Hs. exists "". rewrite append_nil_r. exact Hs. }
      destruct H1 as (Hkeys1 & Hother1 & Htext1).
      destruct (append_once_spec _ _ _ _ Ha0) as (Hkeys2 & Hother2 & Htext2).
      exists op2. split; [reflexivity|]. split; [congruence|]. split; [|split].
      * intros k Hk1 Hk2. rewrite (Hother2 k Hk2). apply Hother1; exact Hk2.
      * discriminate.
      * intros d _ [= ->].
        destruct (Htext1 d Hdesc) as (added1 & Hadded1).
        destruct (Htext2 _ Hadded1) as (added2 & Hadded2).
        exists (added1 ++ added2). rewrite <- append_assoc. exact Hadded2.
    + intros [= <-]. exists operation. repeat split; auto; congruence.
Qed.

(** X9.  The guidance injector only appends: an operation comes back
    with the same keys in the same order and with every field other
    than ["summary"] and ["description"] as it was; a summary that is
    text is a prefix of the new summary, and the description is then
    left alone; without a summary, a description that is text is a
    prefix of the new description. *)
Theorem guidance_only_appends path (operation : dict) guided :
  guide_operation path (JDict operation) = Ret guided ->
  exists operation',
    guided = JDict operation'
    /\ map fst operation' = map fst operation
    /\ (forall k, k <> "summary" -> k <> "description" ->
          dict_get k operation' = dict_get k operation)
    /\ (forall s, dict_get "summary" operation = Some (JStr s) ->
          (exists added, dict_get "summary" operation' = Some (JStr (s ++ added)))
          /\ dict_get "description" operation' = dict_get "description" operation)
    /\ (forall d, dict_get "summary" operation = None ->
          dict_get "description" operation = Some (JStr d) ->
          exists added, dict_get "description" operation' = Some (JStr (d ++ added))).
Proof. apply guide_operation_appends. Qed.

Lemma guidance_only_appends_witness :
  exists operation',
    guide_operation Examples.idps_path (JDict Examples.summarised_operation)
    = Ret (JDict operation')
    /\ dict_get "operationId" operation'
       = Some (JStr "affected_people_idps_get").
Proof.
  destruct (guide_operation Examples.idps_path (JDict Examples.summarised_operation))
    as [guided| |] eqn:Hguide; try (vm_compute in Hguide; discriminate Hguide).
  destruct (guidance_only_appends _ _ _ Hguide) as (operation' & -> & _ & Hother & _).
  exists operation'. split; [reflexivity|].
  rewrite Hother; [reflexivity | discriminate | discriminate].
Defined.

Lemma guide_operation_keeps_id path m r :
  guide_operation path m = Ret r ->
  match r with JDict m' => dict_get "operationId" m' | _ => None end
  = match m with JDict m0 => dict_get "operationId" m0 | _ => None end.
Proof.
  destruct m as [| | | | | |m0]; try (intros [= <-]; reflexivity).
  intros H. destruct (guide_operation_appends path m0 r H) as (m' & -> & _ & Hother & _).
  apply Hother; discriminate.
Qed.

Lemma guidance_pass_ids spec guided :
  _add_admin_level_guidance spec = Ret guided ->
  operation_ids guided = operation_ids spec.
Proof.
  unfold _add_admin_level_guidance. intros H.
  refine (over_paths_ids _ _ _ _ H).
  intros path v v' Hpath. unfold guide_path in Hpath.
  destruct (contains "app-identifier" path); [injection Hpath as <-; reflexivity|].
  apply bind_ret in Hpath. destruct Hpath as (operations & Hitems & Hpath).
  apply bind_ret in Hpath. destruct Hpath as (operations' & Hoperations & Hpath).
  injection Hpath as <-.
  destruct v as [| | | | | |ops]; try discriminate. injection Hitems as <-.
  apply (methods_ids_kept (guide_operation path) path _ _
           (guide_operation_keeps_id path) Hoperations).
Qed.

(** X10.  The guidance pass changes no operation identifier and adds or
    drops no operation, and it touches nothing of the specification but
    what is under ["paths"]. *)
Theorem guidance_pass_keeps_operations spec guided :
  _add_admin_level_guidance spec = Ret guided ->
  operation_ids guided = operation_ids spec
  /\ exists s s',
       spec = JDict s /\ guided = JDict s'
       /\ map fst s' = map fst s
       /\ forall k, k <> "paths" -> dict_get k s' = dict_get k s.
Proof.
  intros H. split; [apply (guidance_pass_ids _ _ H)|].
  apply (over_paths_rest _ _ _ H).
Qed.

Lemma guidance_pass_keeps_operations_witness :
  exists guided,
    _add_admin_level_guidance Examples.guidance_spec = Ret guided
    /\ operation_ids guided = operation_ids Examples.guidance_spec.
Proof.
  destruct (_add_admin_level_guidance Examples.guidance_spec)
    as [guided| |] eqn:Hpass; try (vm_compute in Hpass; discriminate Hpass).
  exists guided. split; [reflexivity|].
  apply (guidance_pass_keeps_operations _ _ Hpass).
Defined.

(** ** More on the tools *)

Section MoreTools.

Variable _rate_limited_request : string -> string -> dict -> res response.

(** X11.  [get_dataset_info] never raises and always answers with one of
    three envelopes, each of which repeats the identifier it was asked
    about: the dataset found, no dataset found, or the fetch failed.
    The last is what a raising request, a raising [raise_for_status], a
    body that cannot be read, and a body that is not a dict all give. *)
Theorem get_dataset_info_always_answers dataset_hdx_id :
  let request :=
    _rate_limited_request "get" "/metadata/dataset"
      [("dataset_hdx_id", JStr dataset_hdx_id)] in
  let result := get_dataset_info _rate_limited_request dataset_hdx_id in
  ((exists dataset, result = found dataset dataset_hdx_id)
   \/ result = not_found dataset_hdx_id
   \/ result = fetch_failure dataset_hdx_id)
  /\ field "dataset_hdx_id" result = Some (JStr dataset_hdx_id)
  /\ ((exists e, request = Exc e)
      \/ (exists response e, request = Ret response
                             /\ raise_for_status response = Exc e)
      \/ (exists response e, request = Ret response
                             /\ raise_for_status response = Ret tt
                             /\ response_json response = Exc e)
      \/ (exists response body, request = Ret response
                                /\ raise_for_status response = Ret tt
                                /\ response_json response = Ret body
                                /\ is_dict body = false) ->
      result = fetch_failure dataset_hdx_id).
Proof.
  intros request result.
  assert (Hcases : (exists dataset, result = found dataset dataset_hdx_id)
                   \/ result = not_found dataset_hdx_id
                   \/ result = fetch_failure dataset_hdx_id).
  { unfold result, get_dataset_info.
    destruct (get_dataset_info_try _rate_limited_request dataset_hdx_id)
      as [envelope| |] eqn:Htry; [|auto|auto].
    unfold get_dataset_info_try in Htry.
    apply bind_ret in Htry. destruct Htry as (response & _ & Htry).
    apply bind_ret in Htry. destruct Htry as (u & _ & Htry).
    apply bind_ret in Htry. destruct Htry as (data & _ & Htry).
    apply bind_ret in Htry. destruct Htry as (found_data & _ & Htry).
    destruct (negb (truthy found_data)); [injection Htry as <-; auto|].
    apply bind_ret in Htry. destruct Htry as (payload & _ & Htry).
    apply bind_ret in Htry. destruct Htry as (dataset & _ & Htry).
    injection Htry as <-. left. exists dataset. reflexivity. }
  split; [exact Hcases|]. split.
  - destruct Hcases as [(dataset & ->)|[->| ->]]; reflexivity.
  - unfold result, get_dataset_info, get_dataset_info_try. fold request.
    intros [(e & ->)|[(response & e & -> & Hstatus)
                     |[(response & e & -> & Hstatus & Hbody)
                      |(response & body & -> & Hstatus & Hbody & Hshape)]]];
      cbn [bind]; try rewrite Hstatus; cbn [bind]; try rewrite Hbody;
      cbn [bind]; try reflexivity.
    destruct body; try reflexivity. discriminate.
Qed.

(** X12.  When the upstream call succeeds with a body that is a dict,
    [search_locations] answers with the success envelope: the locations
    are the list under ["data"] and the count is the length of that
    list; without ["data"] the locations are the empty list and the
    count is 0.  The filters are echoed as they were given. *)
Theorem search_locations_counts_the_locations name_pattern has_hrp response
  (body : dict) :
  _rate_limited_request "get" "/metadata/location"
    (location_params name_pattern has_hrp) = Ret response ->
  raise_for_status response = Ret tt ->
  response_json response = Ret (JDict body) ->
  let result := search_locations _rate_limited_request name_pattern has_hrp in
  let success locations :=
    JDict [ ("status", JStr "success");
            ("locations", JList locations);
            ("count", JInt (Z.of_nat (List.length locations)));
            ("filters_applied", filters_applied name_pattern has_hrp) ] in
  (forall locations, dict_get "data" body = Some (JList locations) ->
     result = success locations)
  /\ (dict_get "data" body = None -> result = success []).
Proof.
  intros Hrequest Hstatus Hbody result success.
  unfold result, search_locations, search_locations_try.
  rewrite Hrequest. cbn [bind]. rewrite Hstatus. cbn [bind]. rewrite Hbody.
  cbn [bind get]. split.
  - intros locations ->. reflexivity.
  - intros ->. reflexivity.
Qed.

End MoreTools.

Lemma get_dataset_info_always_answers_witness :
  get_dataset_info (fun _ _ _ => Exc TransportError) "abc" = fetch_failure "abc".
Proof.
  destruct (get_dataset_info_always_answers (fun _ _ _ => Exc TransportError) "abc")
    as (_ & _ & Hfailed).
  apply Hfailed. left. exists TransportError. reflexivity.
Defined.

Lemma search_locations_counts_the_locations_witness :
  search_locations (answers (JDict [("data", JList [JStr "AFG"; JStr "SDN"])]))
    (Some "") (Some false)
  = JDict [ ("status", JStr "success");
            ("locations", JList [JStr "AFG"; JStr "SDN"]);
            ("count", JInt 2);
            ("filters_applied",
             JDict [ ("name_pattern", JStr ""); ("has_hrp", JBool false) ]) ].
Proof.
  destruct (search_locations_counts_the_locations
              (answers (JDict [("data", JList [JStr "AFG"; JStr "SDN"])]))
              (Some "") (Some false)
              {| raise_for_status := Ret tt;
                 response_json := Ret (JDict [("data", JList [JStr "AFG"; JStr "SDN"])]) |}
              [("data", JList [JStr "AFG"; JStr "SDN"])] eq_refl eq_refl eq_refl)
    as (Hlist & _).
  apply (Hlist [JStr "AFG"; JStr "SDN"]). reflexivity.
Defined.

(** ** The two throttles of a request *)

(** X13.  A request made through [_rate_limited_request] with the name
    of a verb of the wrapper, in any letter case, enters the throttler
    twice, once in the server and once in the wrapper, before the one
    call on the wrapped client, which is the verb in lower case with
    the arguments as given. *)
Theorem request_enters_the_throttler_twice (A : Type) client method (args : A) :
  (In (lower method) verb_names ->
   _rate_limited_request client method args
   = Some [ Enter_throttler; Enter_throttler;
            Call (_client client) (lower method) args ])
  /\ (forall trace,
        _rate_limited_request client method args = Some trace ->
        admissions trace = 2
        /\ calls trace = [(_client client, lower method, args)]).
Proof.
  assert (Hnamed : forall verb,
             @verb_named A (lower method) = Some verb ->
             verb client args
             = [ Enter_throttler; Call (_client client) (lower method) args ]).
  { unfold verb_named. intros verb.
    repeat match goal with
           | |- context [String.eqb (lower method) ?name] =>
               destruct (String.eqb_spec (lower method) name) as [-> | _];
               [intros [= <-]; reflexivity|]
           end.
    discriminate. }
  unfold _rate_limited_request. split.
  - intros Hin.
    destruct (@verb_named A (lower method)) as [verb|] eqn:Hverb.
    + rewrite (Hnamed verb eq_refl). reflexivity.
    + exfalso. unfold verb_named in Hverb. simpl in Hin.
      repeat (destruct Hin as [Hin|Hin];
              [rewrite <- Hin in Hverb; discriminate Hverb|]).
      contradiction.
  - intros trace.
    destruct (@verb_named A (lower method)) as [verb|] eqn:Hverb; [|discriminate].
    intros [= <-]. rewrite (Hnamed verb eq_refl). split; reflexivity.
Qed.

Lemma request_enters_the_throttler_twice_witness :
  _rate_limited_request (_create_http_client Samples.test_server) "GET" tt
  = Some [ Enter_throttler; Enter_throttler;
           Call (_client (_create_http_client Samples.test_server)) "get" tt ].
Proof.
  destruct (request_enters_the_throttler_twice unit
              (_create_http_client Samples.test_server) "GET" tt) as (Htrace & _).
  apply Htrace. simpl. auto.
Defined.

(** ** What the customisation leaves alone *)

Lemma dict_get_del_other k k' (d : dict) :
  k <> k' -> dict_get k' (dict_del k d) = dict_get k' d.
Proof.
  intros Hne. unfold dict_del. induction d as [|[k0 v0] rest IH]; simpl; [reflexivity|].
  destruct (String.eqb_spec k k0) as [->|Hk]; simpl.
  - destruct (String.eqb_spec k' k0); [congruence | exact IH].
  - destruct (String.eqb k' k0); [reflexivity | exact IH].
Qed.

Lemma others_remove_first s l : others s (remove_first s l) = others s l.
Proof.
  unfold others. induction l as [|x rest IH]; simpl; [reflexivity|].
  destruct (str_eq s x) eqn:E; simpl; [reflexivity|].
  rewrite E. simpl. rewrite IH. reflexivity.
Qed.

Lemma strip_properties_keeps (params : dict) r :
  strip_properties (JDict params) = Ret r ->
  exists params1,
    r = JDict params1
    /\ map fst params1 = map fst params
    /\ (forall k, k <> "properties" -> dict_get k params1 = dict_get k params)
    /\ (forall props, dict_get "properties" params = Some (JDict props) ->
          exists props1,
            dict_get "properties" params1 = Some (JDict props1)
            /\ forall k, k <> "app_identifier" ->
                 dict_get k props1 = dict_get k props).
Proof.
  unfold strip_properties, get. cbn [bind]. intros H.
  apply bind_ret in H. destruct H as (present_ & Hin & H).
  destruct present_.
  - destruct (dict_get "properties" params) as [properties|] eqn:Hprops;
      [|discriminate Hin].
    destruct properties as [| | | | | |props]; try discriminate H.
    cbn [setitem] in H. injection H as <-. eexists. split; [reflexivity|].
    split; [|split].
    + apply keys_dict_set_present. unfold dict_has. rewrite Hprops. reflexivity.
    + intros k Hk. apply dict_get_set_other. congruence.
    + intros props0 [= <-]. exists (dict_del "app_identifier" props). split.
      * apply dict_get_set_same.
      * intros k Hk. apply dict_get_del_other. congruence.
  - injection H as <-. exists params. split; [reflexivity|].
    split; [reflexivity|]. split; [reflexivity|].
    intros props Hprops. exists props. split; [exact Hprops | reflexivity].
Qed.

Lemma strip_required_keeps (params : dict) r :
  strip_required (JDict params) = Ret r ->
  exists params2,
    r = JDict params2
    /\ map fst params2 = map fst params
    /\ (forall k, k <> "required" -> dict_get k params2 = dict_get k params)
    /\ (forall required, dict_get "required" params = Some (JList required) ->
          exists required2,
            dict_get "required" params2 = Some (JList required2)
            /\ others "app_identifier" required2 = others "app_identifier" required).
Proof.
  unfold strip_required, get. cbn [bind]. intros H.
  apply bind_ret in H. destruct H as (present_ & Hin & H).
  destruct present_.
  - destruct (dict_get "required" params) as [required|] eqn:Hreq;
      [|discriminate Hin].
    destruct required as [| | | | |l|]; try discriminate H.
    cbn [setitem] in H. injection H as <-. eexists. split; [reflexivity|].
    split; [|split].
    + apply keys_dict_set_present. unfold dict_has. rewrite Hreq. reflexivity.
    + intros k Hk. apply dict_get_set_other. congruence.
    + intros l0 [= <-]. exists (remove_first "app_identifier" l). split.
      * apply dict_get_set_same.
      * apply others_remove_first.
  - injection H as <-. exists params. split; [reflexivity|].
    split; [reflexivity|]. split; [reflexivity|].
    intros required Hreq. exists required. split; [exact Hreq | reflexivity].
Qed.

(** X14.  The customisation takes nothing but the identity parameter out
    of a component: for a component of any class whose [parameters] are
    a dict, the class and the name stay, the schema keeps its keys in
    their order and every entry other than ["properties"] and
    ["required"], the properties keep every entry other than
    [app_identifier], and the required names other than
    [app_identifier] stay in their order. *)
Theorem customisation_keeps_everything_else c (params : dict) :
  parameters c = Some (JDict params) ->
  exists params',
    _customize_mcp_components c
    = {| class_name := class_name c; name := name c;
         parameters := Some (JDict params') |}
    /\ map fst params' = map fst params
    /\ (forall k, k <> "properties" -> k <> "required" ->
          dict_get k params' = dict_get k params)
    /\ (forall props, dict_get "properties" params = Some (JDict props) ->
          exists props',
            dict_get "properties" params' = Some (JDict props')
            /\ forall k, k <> "app_identifier" ->
                 dict_get k props' = dict_get k props)
    /\ (forall required, dict_get "required" params = Some (JList required) ->
          exists required',
            dict_get "required" params' = Some (JList required')
            /\ others "app_identifier" required' = others "app_identifier" required).
Proof.
  intros Hparams.
  assert (Hsame : exists params',
             c = {| class_name := class_name c; name := name c;
                    parameters := Some (JDict params') |}
             /\ map fst params' = map fst params
             /\ (forall k, k <> "properties" -> k <> "required" ->
                   dict_get k params' = dict_get k params)
             /\ (forall props, dict_get "properties" params = Some (JDict props) ->
                   exists props',
                     dict_get "properties" params' = Some (JDict props')
                     /\ forall k, k <> "app_identifier" ->
                          dict_get k props' = dict_get k props)
             /\ (forall required, dict_get "required" params = Some (JList required) ->
                   exists required',
                     dict_get "required" params' = Some (JList required')
                     /\ others "app_identifier" required'
                        = others "app_identifier" required)).
  { exists params. split; [destruct c; simpl in *; congruence|].
    split; [reflexivity|]. split; [reflexivity|]. split.
    - intros props Hprops. exists props. split; [exact Hprops | reflexivity].
    - intros required Hreq. exists required. split; [exact Hreq | reflexivity]. }
  unfold _customize_mcp_components. rewrite Hparams.
  destruct (contains "Tool" (class_name c)); [|exact Hsame].
  destruct (truthy (JDict params)); [|exact Hsame].
  destruct (strip_properties (JDict params)) as [r1| |] eqn:H1;
    [|exact Hsame|exact Hsame].
  destruct (strip_properties_keeps params r1 H1)
    as (params1 & -> & Hkeys1 & Hother1 & Hprops1).
  assert (Hfirst : exists params',
             with_parameters c (JDict params1)
             = {| class_name := class_name c; name := name c;
                  parameters := Some (JDict params') |}
             /\ map fst params' = map fst params
             /\ (forall k, k <> "properties" -> k <> "required" ->
                   dict_get k params' = dict_get k params)
             /\ (forall props, dict_get "properties" params = Some (JDict props) ->
                   exists props',
                     dict_get "properties" params' = Some (JDict props')
                     /\ forall k, k <> "app_identifier" ->
                          dict_get k props' = dict_get k props)
             /\ (forall required, dict_get "required" params = Some (JList required) ->
                   exists required',
                     dict_get "required" params' = Some (JList required')
                     /\ others "app_identifier" required'
                        = others "app_identifier" required)).
  { exists params1. split; [reflexivity|]. split; [exact Hkeys1|].
    split; [intros k Hk _; apply Hother1; exact Hk|]. split; [exact Hprops1|].
    intros required Hreq. exists required. split; [|reflexivity].
    rewrite Hother1 by discriminate. exact Hreq. }
  destruct (strip_required (JDict params1)) as [r2| |] eqn:H2;
    [|exact Hfirst|exact Hfirst].
  destruct (strip_required_keeps params1 r2 H2)
    as (params2 & -> & Hkeys2 & Hother2 & Hreq2).
  exists params2. split; [reflexivity|]. split; [congruence|]. split; [|split].
  - intros k Hk Hk'. rewrite Hother2 by exact Hk'. apply Hother1. exact Hk.
  - intros props Hprops. destruct (Hprops1 props Hprops) as (props1 & Hget & Hkept).
    exists props1. split; [|exact Hkept].
    rewrite Hother2 by discriminate. exact Hget.
  - intros required Hreq. apply Hreq2. rewrite Hother1 by discriminate. exact Hreq.
Qed.

Lemma customisation_keeps_everything_else_witness :
  exists params',
    parameters (_customize_mcp_components Examples.location_tool)
    = Some (JDict params')
    /\ map fst params' = ["type"; "properties"; "required"].
Proof.
  destruct (customisation_keeps_everything_else Examples.location_tool
              Examples.location_tool_parameters eq_refl)
    as (params' & Hresult & Hkeys & _).
  exists params'. split; [rewrite Hresult; reflexivity | exact Hkeys].
Defined.

(** ** The rewriting of descriptions *)

Lemma contains_prefix w s : String.prefix w s = true -> contains w s = true.
Proof. intros H. destruct s; cbn [contains]; rewrite H; reflexivity. Qed.

Lemma contains_tail w a s : contains w s = true -> contains w (String a s) = true.
Proof. intros H. cbn [contains]. rewrite H. apply orb_true_r. Qed.

Lemma step_some one k s n :
  step one k s = Some n ->
  exists a rest m, s = String a rest /\ one a = true /\ k rest = Some m /\ n = S m.
Proof.
  destruct s as [|a rest]; simpl; [discriminate|].
  destruct (one a) eqn:Hone; [|discriminate].
  destruct (k rest) as [m|] eqn:Hrest; simpl; [|discriminate].
  intros [= <-]. exists a, rest, m. auto.
Qed.

Lemma starts_with_prefix w :
  forall p s n,
    starts_with w p = true -> match_here p s = Some n -> String.prefix w s = true.
Proof.
  induction w as [|c w' IH]; intros p s n Hstarts Hmatch.
  - destruct s; reflexivity.
  - destruct p as [|[c'| |] p']; try discriminate Hstarts.
    cbn [starts_with] in Hstarts. apply andb_true_iff in Hstarts.
    destruct Hstarts as [Hc Hrest]. apply Ascii.eqb_eq in Hc. subst c'.
    cbn [match_here] in Hmatch. apply step_some in Hmatch.
    destruct Hmatch as (a & rest & m & -> & Ha & Hm & _).
    apply Ascii.eqb_eq in Ha. subst a. cbn [String.prefix].
    destruct (Ascii.ascii_dec c c) as [_|Hne]; [|contradiction].
    apply (IH p' rest m Hrest Hm).
Qed.

Lemma requires_match w p :
  requires w p = true ->
  forall s n, match_here p s = Some n -> contains w s = true.
Proof.
  induction p as [|a p' IH]; intros Hreq s n Hmatch.
  - cbn [requires] in Hreq. rewrite orb_false_r in Hreq.
    apply contains_prefix. apply (starts_with_prefix w [] s n Hreq Hmatch).
  - cbn [requires] in Hreq. apply orb_true_iff in Hreq.
    destruct Hreq as [Hstarts|Hreq].
    + apply contains_prefix. apply (starts_with_prefix w _ s n Hstarts Hmatch).
    + specialize (IH Hreq). cbn [match_here] in Hmatch.
      destruct a as [c|c|cs].
      * apply step_some in Hmatch. destruct Hmatch as (x & rest & m & -> & _ & Hm & _).
        apply contains_tail. apply (IH rest m Hm).
      * destruct (step (Ascii.eqb c) (match_here p') s) as [k|] eqn:Hstep.
        -- apply step_some in Hstep. destruct Hstep as (x & rest & m & -> & _ & Hm & _).
           apply contains_tail. apply (IH rest m Hm).
        -- apply (IH s n Hmatch).
      * apply step_some in Hmatch. destruct Hmatch as (x & rest & m & -> & _ & Hm & _).
        apply contains_tail. apply (IH rest m Hm).
Qed.

Lemma search_contains w p s :
  requires w p = true -> search p s = true -> contains w s = true.
Proof.
  intros Hreq. induction s as [|a rest IH]; cbn [search].
  - destruct (match_here p EmptyString) as [n|] eqn:Hmatch; [|discriminate].
    intros _. apply (requires_match w p Hreq _ n Hmatch).
  - destruct (match_here p (String a rest)) as [n|] eqn:Hmatch.
    + intros _. apply (requires_match w p Hreq _ n Hmatch).
    + intros H. apply contains_tail. apply IH. exact H.
Qed.

(** A table all of whose patterns require [w] leaves a text without [w]
    as it is. *)
Lemma table_keeps_text w (table : list (regex * string)) s :
  forallb (fun entry => requires w (fst entry)) table = true ->
  contains w s = false ->
  fold_left apply_pattern table s = s.
Proof.
  induction table as [|entry rest IH]; simpl; intros Htable Hs; [reflexivity|].
  apply andb_true_iff in Htable. destruct Htable as [Hentry Hrest].
  assert (Hkeep : apply_pattern s entry = s).
  { unfold apply_pattern. destruct (search (fst entry) s) eqn:Hsearch; [|reflexivity].
    rewrite (search_contains w _ _ Hentry Hsearch) in Hs. discriminate Hs. }
  rewrite Hkeep. apply IH; assumption.
Qed.

Lemma patterns_require_endpoint :
  forallb (fun entry => requires "endpoint" (fst entry)) description_patterns = true.
Proof. vm_compute. reflexivity. Qed.

Lemma text_without_endpoint_is_kept s :
  contains "endpoint" s = false -> apply_patterns s = s.
Proof. apply table_keeps_text. exact patterns_require_endpoint. Qed.

Lemma update_description_unchanged (d : dict) :
  match dict_get "description" d with
  | Some (JStr s) => contains "endpoint" s
  | _ => false
  end = false ->
  update_description d = d.
Proof.
  intros H. unfold update_description.
  destruct (dict_get "description" d) as [v|]; [|reflexivity].
  destruct v as [| | | |s| |]; try reflexivity.
  rewrite (text_without_endpoint_is_kept s H), String.eqb_refl. reflexivity.
Qed.

Lemma height_member (kv : string * json) (d : dict) :
  In kv d ->
  height (snd kv) <= fold_right (fun kv n => Nat.max (height (snd kv)) n) 0 d.
Proof.
  induction d as [|kv' rest IH]; simpl; [contradiction|].
  intros [->|Hin]; [lia|]. specialize (IH Hin). lia.
Qed.

Lemma height_item (x : json) (l : list json) :
  In x l -> height x <= fold_right (fun x n => Nat.max (height x) n) 0 l.
Proof.
  induction l as [|y rest IH]; simpl; [contradiction|].
  intros [->|Hin]; [lia|]. specialize (IH Hin). lia.
Qed.

Lemma In_dict_set kv k v (d : dict) :
  In kv (dict_set k v d) -> In kv d \/ snd kv = v.
Proof.
  induction d as [|[k' v'] rest IH]; simpl.
  - intros [<-|[]]. right; reflexivity.
  - destruct (String.eqb k k'); simpl.
    + intros [<-|Hin]; [right; reflexivity | left; right; exact Hin].
    + intros [<-|Hin]; [left; left; reflexivity|].
      destruct (IH Hin) as [H|H]; [left; right; exact H | right; exact H].
Qed.

Lemma In_update_description kv (d : dict) :
  In kv (update_description d) -> In kv d \/ is_str (snd kv) = true.
Proof.
  unfold update_description.
  destruct (dict_get "description" d) as [v|]; [|auto].
  destruct v as [| | | |s| |]; auto.
  destruct (String.eqb (apply_patterns s) s); [auto|].
  intros Hin. apply In_dict_set in Hin. destruct Hin as [Hin| ->]; auto.
Qed.

Lemma is_str_blank a b : blank a = blank b -> is_str a = is_str b.
Proof. destruct a, b; simpl; intros H; try reflexivity; discriminate H. Qed.

Lemma blank_update_description (d : dict) :
  blank (JDict (update_description d)) = blank (JDict d).
Proof.
  unfold update_description.
  destruct (dict_get "description" d) as [v|] eqn:Hget; [|reflexivity].
  destruct v as [| | | |s| |]; try reflexivity.
  destruct (String.eqb (apply_patterns s) s); [reflexivity|].
  cbn [blank]. f_equal. revert Hget.
  generalize (apply_patterns s). intros u.
  induction d as [|[k v] rest IH]; cbn [dict_get dict_set map fst snd]; [discriminate|].
  destruct (String.eqb "description" k) eqn:Hk.
  - intros [= ->]. cbn [map fst snd]. rewrite ?Hk. reflexivity.
  - intros Hget. cbn [map fst snd]. rewrite (IH Hget), ?Hk. reflexivity.
Qed.

Lemma Forall2_map_eq {A B C : Type} (f : A -> C) (g : B -> C) l l' :
  Forall2 (fun x y => g y = f x) l l' -> map g l' = map f l.
Proof. induction 1 as [|x y l l' Hxy _ IH]; simpl; congruence. Qed.

Lemma blank_entries (d d' : dict) :
  Forall2 (fun kv kv' => fst kv' = fst kv /\ blank (snd kv') = blank (snd kv)) d d' ->
  blank (JDict d') = blank (JDict d).
Proof.
  intros Hall. cbn [blank]. f_equal. apply Forall2_map_eq.
  eapply Forall2_impl; [|exact Hall].
  intros [k v] [k' v'] [Hk Hv]. simpl in *. subst k'.
  rewrite (is_str_blank _ _ Hv), Hv. reflexivity.
Qed.

Lemma blank_dict_set k v v' (d : dict) :
  dict_get k d = Some v -> blank v' = blank v ->
  blank (JDict (dict_set k v' d)) = blank (JDict d).
Proof.
  intros Hget Hv. cbn [blank]. f_equal. revert Hget.
  induction d as [|[k0 v0] rest IH]; cbn [dict_get dict_set]; [discriminate|].
  destruct (String.eqb k k0).
  - intros [= ->]. cbn [map fst snd].
    rewrite (is_str_blank _ _ Hv), Hv. reflexivity.
  - intros Hget. cbn [map fst snd]. rewrite (IH Hget). reflexivity.
Qed.

(** With a budget above the nesting of the value the traversal returns,
    and what it returns differs from the value in descriptions that are
    strings only. *)
Lemma update_descriptions_recursive_blank gas :
  forall obj,
    height obj < gas ->
    exists r, update_descriptions_recursive gas obj = Ret r /\ blank r = blank obj.
Proof.
  induction gas as [|g IH]; intros obj Hgas; [lia|].
  destruct obj as [| | | | |l|d]; try (eexists; split; reflexivity).
  - cbn [height] in Hgas. cbn [update_descriptions_recursive].
    destruct (mapM_Forall2 (update_descriptions_recursive g)
                (fun x y => blank y = blank x) l) as (ys & Hys & Hall).
    { intros x Hx. apply IH. pose proof (height_item x l Hx). lia. }
    rewrite Hys. cbn [bind]. eexists. split; [reflexivity|].
    cbn [blank]. f_equal. apply (Forall2_map_eq _ _ _ _ Hall).
  - cbn [height] in Hgas. cbn [update_descriptions_recursive].
    destruct (mapM_Forall2
                (fun kv => v <- update_descriptions_recursive g (snd kv) ;;
                           Ret (fst kv, v))
                (fun kv kv' => fst kv' = fst kv /\ blank (snd kv') = blank (snd kv))
                (update_description d)) as (entries & Hentries & Hall).
    { intros kv Hkv. destruct (IH (snd kv)) as (r & Hr & Hblank).
      - destruct (In_update_description kv d Hkv) as [Hin|Hstr].
        + pose proof (height_member kv d Hin). lia.
        + destruct (snd kv); try discriminate Hstr. simpl. lia.
      - rewrite Hr. cbn [bind]. eexists. split; [reflexivity|]. split; [reflexivity|].
        exact Hblank. }
    rewrite Hentries. cbn [bind]. eexists. split; [reflexivity|].
    transitivity (blank (JDict (update_description d)));
      [|apply blank_update_description].
    apply blank_entries. exact Hall.
Qed.

Lemma mapM_unchanged {A : Type} (f : A -> res A) (l : list A) :
  (forall x, In x l -> f x = Ret x) -> mapM f l = Ret l.
Proof.
  induction l as [|x rest IH]; simpl; intros H; [reflexivity|].
  rewrite (H x (or_introl eq_refl)). simpl.
  rewrite IH; [reflexivity|]. intros y Hy. apply H. right; exact Hy.
Qed.

Lemma update_descriptions_recursive_unchanged gas :
  forall obj,
    height obj < gas ->
    describes "endpoint" obj = false ->
    update_descriptions_recursive gas obj = Ret obj.
Proof.
  induction gas as [|g IH]; intros obj Hgas Hfree; [lia|].
  destruct obj as [| | | | |l|d]; try reflexivity.
  - cbn [height] in Hgas. cbn [describes] in Hfree.
    cbn [update_descriptions_recursive].
    rewrite mapM_unchanged; [reflexivity|].
    intros x Hx. apply IH.
    + pose proof (height_item x l Hx). lia.
    + apply (existsb_false_in _ _ _ Hfree Hx).
  - cbn [height] in Hgas. cbn [describes] in Hfree.
    apply orb_false_iff in Hfree. destruct Hfree as [Hown Hmembers].
    cbn [update_descriptions_recursive].
    rewrite (update_description_unchanged d Hown).
    rewrite (mapM_paths_unchanged (fun _ v => update_descriptions_recursive g v));
      [reflexivity|].
    intros kv Hkv. apply IH.
    + pose proof (height_member kv d Hkv). lia.
    + apply (existsb_false_in _ _ _ Hmembers Hkv).
Qed.

Lemma update_descriptions_blank obj :
  exists r, update_descriptions obj = Ret r /\ blank r = blank obj.
Proof. apply update_descriptions_recursive_blank. lia. Qed.

Lemma update_descriptions_unchanged obj :
  describes "endpoint" obj = false -> update_descriptions obj = Ret obj.
Proof. apply update_descriptions_recursive_unchanged. lia. Qed.

(** X15.  [update_descriptions_recursive] returns on every value, and
    what it returns differs from the value at most in descriptions that
    are strings: every key, every list and every other value is as it
    was.  A value none of whose descriptions contains the word
    [endpoint] comes back unchanged, since every pattern of the table
    needs that word. *)
Theorem update_descriptions_rewrites_descriptions_only obj :
  exists r,
    update_descriptions obj = Ret r
    /\ blank r = blank obj
    /\ (describes "endpoint" obj = false -> r = obj).
Proof.
  destruct (update_descriptions_blank obj) as (r & Hr & Hblank).
  exists r. split; [exact Hr|]. split; [exact Hblank|].
  intros Hfree. rewrite (update_descriptions_unchanged obj Hfree) in Hr. congruence.
Qed.

Lemma update_descriptions_rewrites_descriptions_only_witness :
  update_descriptions Samples.description_test_spec = Ret Samples.description_test_spec.
Proof.
  destruct (update_descriptions_rewrites_descriptions_only Samples.description_test_spec)
    as (r & Hr & _ & Hsame).
  rewrite Hr. f_equal. apply Hsame. vm_compute. reflexivity.
Defined.

(** A description of the HDX specification, with its link to the
    location endpoint. *)
Example update_descriptions_rewrites_the_link :
  update_descriptions Samples.location_code_param
  = Ret (JDict
           [ ("name", JStr "location_code");
             ("description",
              JStr ("Filter the response by location. Use the metadata_location_get"
                    ++ " tool to get available location codes and names."));
             ("schema", JDict [("type", JStr "string")]) ]).
Proof. vm_compute. reflexivity. Qed.

(** One run over the table does not always reach a text the table
    leaves alone: a replacement can complete the name of another
    endpoint. *)
Example apply_patterns_twice_differs :
  apply_patterns Samples.chained_reference
  = "metadata_resource_get toolocation endpoint"
  /\ apply_patterns (apply_patterns Samples.chained_reference)
     = "metadata_resource_get toometadata_location_get tool".
Proof. vm_compute. auto. Qed.

(** *** The pass *)

Lemma dict_get_In k v (d : dict) : dict_get k d = Some v -> In (k, v) d.
Proof.
  induction d as [|[k' v'] rest IH]; simpl; [discriminate|].
  destruct (String.eqb_spec k k') as [->|_].
  - intros [= ->]. left; reflexivity.
  - intros H. right. apply IH. exact H.
Qed.

Lemma describes_member w (d : dict) kv :
  describes w (JDict d) = false -> In kv d -> describes w (snd kv) = false.
Proof.
  cbn [describes]. intros H Hin. apply orb_false_iff in H. destruct H as [_ H].
  apply (existsb_false_in _ _ _ H Hin).
Qed.

Lemma update_method_blank method_data r :
  update_method method_data = Ret r -> blank r = blank method_data.
Proof.
  unfold update_method. destruct (is_dict method_data).
  - destruct (update_descriptions_blank method_data) as (r' & Hr & Hblank).
    rewrite Hr. intros [= <-]. exact Hblank.
  - intros [= <-]. reflexivity.
Qed.

Lemma update_method_unchanged method_data :
  describes "endpoint" method_data = false ->
  update_method method_data = Ret method_data.
Proof.
  intros H. unfold update_method. destruct (is_dict method_data); [|reflexivity].
  apply update_descriptions_unchanged. exact H.
Qed.

Lemma mapM_entries_related (g : json -> res json) (R : json -> json -> Prop)
  (d d' : dict) :
  (forall kv r, In kv d -> g (snd kv) = Ret r -> R (snd kv) r) ->
  mapM (fun kv => v <- g (snd kv) ;; Ret (fst kv, v)) d = Ret d' ->
  Forall2 (fun kv kv' => fst kv' = fst kv /\ R (snd kv) (snd kv')) d d'.
Proof.
  intros Hg H. apply mapM_ret in H.
  induction H as [|kv kv' d d' Hkv _ IH]; [constructor|].
  apply bind_ret in Hkv. destruct Hkv as (y & Hy & Hkv). injection Hkv as <-.
  constructor.
  - split; [reflexivity|]. apply (Hg kv y (or_introl eq_refl) Hy).
  - apply IH. intros kv0 r Hin. apply Hg. right; exact Hin.
Qed.

Lemma Forall2_same {A : Type} (l l' : list A) :
  Forall2 (fun x y => y = x) l l' -> l' = l.
Proof. induction 1; congruence. Qed.

Lemma update_path_blank path path_data r :
  update_path path path_data = Ret r -> blank r = blank path_data.
Proof.
  unfold update_path. intros H.
  apply bind_ret in H. destruct H as (methods & Hmethods & H).
  apply bind_ret in H. destruct H as (methods' & Hmethods' & H).
  injection H as <-.
  destruct path_data as [| | | | | |ms]; try discriminate. injection Hmethods as <-.
  apply blank_entries.
  eapply Forall2_impl;
    [|apply (mapM_entries_related update_method (fun v v' => blank v' = blank v)
               _ _ (fun kv r _ => update_method_blank (snd kv) r) Hmethods')].
  intros kv kv' H. exact H.
Qed.

Lemma update_path_unchanged path path_data r :
  describes "endpoint" path_data = false ->
  update_path path path_data = Ret r -> r = path_data.
Proof.
  unfold update_path. intros Hfree H.
  apply bind_ret in H. destruct H as (methods & Hmethods & H).
  apply bind_ret in H. destruct H as (methods' & Hmethods' & H).
  injection H as <-.
  destruct path_data as [| | | | | |ms]; try discriminate. injection Hmethods as <-.
  f_equal. apply Forall2_same.
  assert (Hall : Forall2 (fun kv kv' => fst kv' = fst kv /\ snd kv' = snd kv) ms methods').
  { refine (mapM_entries_related update_method (fun v v' => v' = v) _ _ _ Hmethods').
    intros kv r Hin Hr.
    rewrite (update_method_unchanged _ (describes_member _ _ _ Hfree Hin)) in Hr.
    congruence. }
  eapply Forall2_impl; [|exact Hall].
  intros [k v] [k' v'] [Hk Hv]. simpl in *. congruence.
Qed.

(** What a pass over the paths does to a specification, read off what
    its body does to the data of each path. *)
Lemma over_paths_related (f : string -> json -> res json)
  (R : string -> json -> json -> Prop) spec out :
  (forall kv r, In kv (paths_of spec) -> f (fst kv) (snd kv) = Ret r ->
     R (fst kv) (snd kv) r) ->
  over_paths f spec = Ret out ->
  (exists s, spec = JDict s /\ dict_get "paths" s = None /\ out = spec)
  \/ exists s entries entries',
       spec = JDict s
       /\ dict_get "paths" s = Some (JDict entries)
       /\ out = JDict (dict_set "paths" (JDict entries') s)
       /\ Forall2 (fun kv kv' => fst kv' = fst kv /\ R (fst kv) (snd kv) (snd kv'))
            entries entries'.
Proof.
  intros Hf. unfold over_paths, get.
  destruct spec as [| | | | | |s]; try discriminate.
  cbn [bind]. unfold dict_has. cbn [paths_of] in Hf.
  destruct (dict_get "paths" s) as [paths|] eqn:Hpaths.
  - intros H.
    apply bind_ret in H. destruct H as (entries & Hentries & H).
    apply bind_ret in H. destruct H as (entries' & Hentries' & H).
    injection H as <-.
    destruct paths as [| | | | | |es]; try discriminate. injection Hentries as <-.
    right. exists s, es, entries'. split; [reflexivity|]. split; [exact Hpaths|].
    split; [reflexivity|].
    apply mapM_ret in Hentries'. clear Hpaths.
    induction Hentries' as [|kv kv' d d' Hkv _ IH]; [constructor|].
    apply bind_ret in Hkv. destruct Hkv as (y & Hy & Hkv). injection Hkv as <-.
    constructor.
    + split; [reflexivity|]. apply (Hf kv y (or_introl eq_refl) Hy).
    + apply IH. intros kv0 r Hin. apply Hf. right; exact Hin.
  - cbn [items bind mapM]. intros [= <-]. left. exists s. auto.
Qed.

Lemma paths_of_set_paths (s entries : dict) :
  paths_of (JDict (dict_set "paths" (JDict entries) s)) = entries.
Proof. cbn [paths_of]. rewrite dict_get_set_same. reflexivity. Qed.

Lemma paths_of_dict (s entries : dict) :
  dict_get "paths" s = Some (JDict entries) -> paths_of (JDict s) = entries.
Proof. intros H. cbn [paths_of]. rewrite H. reflexivity. Qed.

(** A pass over the paths keeps the paths, in their order. *)
Lemma over_paths_keys (f : string -> json -> res json) spec out :
  over_paths f spec = Ret out ->
  map fst (paths_of out) = map fst (paths_of spec).
Proof.
  intros H.
  destruct (over_paths_related f (fun _ _ _ => True) spec out (fun _ _ _ _ => I) H)
    as [(s & -> & _ & ->)|(s & entries & entries' & -> & Hpaths & -> & Hall)]; [reflexivity|].
  rewrite paths_of_set_paths, (paths_of_dict _ _ Hpaths). clear H Hpaths.
  induction Hall as [|kv kv' d d' [Hk _] _ IH]; [reflexivity|].
  cbn [map]. rewrite Hk, IH. reflexivity.
Qed.

Lemma over_paths_blank (f : string -> json -> res json) spec out :
  (forall path v r, f path v = Ret r -> blank r = blank v) ->
  over_paths f spec = Ret out -> blank out = blank spec.
Proof.
  intros Hf H.
  destruct (over_paths_related f (fun _ v r => blank r = blank v) spec out
              (fun kv r _ => Hf (fst kv) (snd kv) r) H)
    as [(s & -> & _ & ->)|(s & entries & entries' & -> & Hpaths & -> & Hall)]; [reflexivity|].
  apply (blank_dict_set "paths" (JDict entries)); [exact Hpaths|].
  apply blank_entries. exact Hall.
Qed.

Lemma over_paths_unchanged (f : string -> json -> res json) spec out :
  (forall kv r, In kv (paths_of spec) -> f (fst kv) (snd kv) = Ret r -> r = snd kv) ->
  over_paths f spec = Ret out -> out = spec.
Proof.
  intros Hf H.
  destruct (over_paths_related f (fun _ v r => r = v) spec out Hf H)
    as [(s & -> & _ & ->)|(s & entries & entries' & -> & Hpaths & -> & Hall)]; [reflexivity|].
  assert (Hsame : entries' = entries).
  { apply Forall2_same. eapply Forall2_impl; [|exact Hall].
    intros [k v] [k' v'] [Hk Hv]. simpl in *. congruence. }
  rewrite Hsame, (dict_set_same_value _ _ _ Hpaths). reflexivity.
Qed.

(** The part of the pass on the definitions changes nothing but the
    entry under ["components"], and there nothing but descriptions. *)
Lemma update_components_spec updated_spec out :
  update_components updated_spec = Ret out ->
  paths_of out = paths_of updated_spec
  /\ blank out = blank updated_spec
  /\ (describes "endpoint" updated_spec = false -> out = updated_spec).
Proof.
  unfold update_components. intros H.
  apply bind_ret in H. destruct H as (has_components & Hin & H).
  destruct has_components; [|injection H as <-; auto].
  apply bind_ret in H. destruct H as (components & Hcomponents & H).
  apply bind_ret in H. destruct H as (has_schemas & Hin' & H).
  destruct has_schemas; [|injection H as <-; auto].
  apply bind_ret in H. destruct H as (schemas & Hschemas & H).
  apply bind_ret in H. destruct H as (schemas' & Hupdated & H).
  apply bind_ret in H. destruct H as (components' & Hset & H).
  destruct updated_spec as [| | | | | |s]; try discriminate Hcomponents.
  destruct components as [| | | | | |c]; try discriminate Hschemas.
  cbn [getitem] in Hcomponents, Hschemas.
  destruct (dict_get "components" s) as [v|] eqn:Hc; [|discriminate Hcomponents].
  injection Hcomponents as ->.
  destruct (dict_get "schemas" c) as [v|] eqn:Hs; [|discriminate Hschemas].
  injection Hschemas as ->.
  cbn [setitem] in Hset, H. injection Hset as <-. injection H as <-.
  destruct (update_descriptions_blank schemas) as (r & Hr & Hblank).
  rewrite Hr in Hupdated. injection Hupdated as ->.
  split; [|split].
  - cbn [paths_of]. rewrite dict_get_set_other by discriminate. reflexivity.
  - apply (blank_dict_set "components" (JDict c)); [exact Hc|].
    apply (blank_dict_set "schemas" schemas); [exact Hs | exact Hblank].
  - intros Hfree.
    pose proof (describes_member _ _ _ Hfree (dict_get_In _ _ _ Hc)) as Hfree_c.
    pose proof (describes_member _ _ _ Hfree_c (dict_get_In _ _ _ Hs)) as Hfree_s.
    cbn [snd] in Hfree_c, Hfree_s.
    rewrite (update_descriptions_unchanged schemas Hfree_s) in Hr.
    injection Hr as <-.
    rewrite (dict_set_same_value _ _ _ Hs), (dict_set_same_value _ _ _ Hc).
    reflexivity.
Qed.

Lemma describes_path w spec kv :
  describes w spec = false -> In kv (paths_of spec) -> describes w (snd kv) = false.
Proof.
  intros Hfree Hin. destruct spec as [| | | | | |s]; try contradiction.
  cbn [paths_of] in Hin.
  destruct (dict_get "paths" s) as [paths|] eqn:Hpaths; [|contradiction].
  destruct paths as [| | | | | |entries]; try contradiction.
  pose proof (describes_member _ _ _ Hfree (dict_get_In _ _ _ Hpaths)) as Hfree_paths.
  apply (describes_member _ _ _ Hfree_paths Hin).
Qed.

(** X16.  The description pass changes descriptions and nothing else:
    what it returns has the paths of the specification in their order,
    and differs from the specification at most in descriptions that are
    strings.  A specification none of whose descriptions contains the
    word [endpoint] comes back as it was. *)
Theorem description_pass_rewrites_descriptions_only spec out :
  _update_parameter_descriptions spec = Ret out ->
  map fst (paths_of out) = map fst (paths_of spec)
  /\ blank out = blank spec
  /\ (describes "endpoint" spec = false -> out = spec).
Proof.
  unfold _update_parameter_descriptions. intros H.
  apply bind_ret in H. destruct H as (updated_spec & Hpaths & H).
  destruct (update_components_spec _ _ H) as (Hkeys & Hblank & Hsame).
  split; [|split].
  - rewrite Hkeys. apply (over_paths_keys _ _ _ Hpaths).
  - rewrite Hblank. apply (over_paths_blank _ _ _ update_path_blank Hpaths).
  - intros Hfree.
    assert (Hfirst : updated_spec = spec).
    { apply (over_paths_unchanged _ _ _ (fun kv r Hin =>
               update_path_unchanged (fst kv) (snd kv) r
                 (describes_path _ _ _ Hfree Hin)) Hpaths). }
    subst updated_spec. apply Hsame. exact Hfree.
Qed.

Lemma description_pass_rewrites_descriptions_only_witness :
  _update_parameter_descriptions Samples.description_test_spec
  = Ret Samples.description_test_spec.
Proof.
  destruct (_update_parameter_descriptions Samples.description_test_spec)
    as [out| |] eqn:Hpass; try (vm_compute in Hpass; discriminate Hpass).
  f_equal.
  destruct (description_pass_rewrites_descriptions_only _ _ Hpass) as (_ & _ & Hsame).
  apply Hsame. vm_compute. reflexivity.
Defined.

(** *** The operations through the passes *)

Lemma operation_ids_paths_of spec :
  operation_ids spec = flat_map (fun kv => method_ids (fst kv) (snd kv)) (paths_of spec).
Proof.
  destruct spec as [| | | | | |s]; try reflexivity.
  cbn [operation_ids paths_of].
  destruct (dict_get "paths" s) as [paths|]; [|reflexivity].
  destruct paths; reflexivity.
Qed.

Lemma forallb_flat_map_in {A B : Type} (P : B -> bool) (f : A -> list B) l x :
  forallb P (flat_map f l) = true -> In x l -> forallb P (f x) = true.
Proof.
  induction l as [|y rest IH]; simpl; [contradiction|].
  rewrite forallb_app. intros H. apply andb_true_iff in H. destruct H as [Hy Hrest].
  intros [->|Hin]; [exact Hy | apply (IH Hrest Hin)].
Qed.

Lemma update_description_keeps k (d : dict) :
  k <> "description" -> dict_get k (update_description d) = dict_get k d.
Proof.
  intros Hk. unfold update_description.
  destruct (dict_get "description" d) as [v|]; [|reflexivity].
  destruct v as [| | | |s| |]; try reflexivity.
  destruct (String.eqb (apply_patterns s) s); [reflexivity|].
  apply dict_get_set_other. congruence.
Qed.

Lemma dict_get_related (R : json -> json -> Prop) k (d d' : dict) :
  Forall2 (fun kv kv' => fst kv' = fst kv /\ R (snd kv) (snd kv')) d d' ->
  match dict_get k d with
  | Some v => exists v', dict_get k d' = Some v' /\ R v v'
  | None => dict_get k d' = None
  end.
Proof.
  induction 1 as [|[k0 v0] [k0' v0'] d d' [Hk Hv] _ IH]; [reflexivity|].
  simpl in Hk, Hv. subst k0'. cbn [dict_get].
  destruct (String.eqb k k0); [|exact IH].
  exists v0'. split; [reflexivity | exact Hv].
Qed.

Lemma update_descriptions_recursive_str gas s r :
  update_descriptions_recursive gas (JStr s) = Ret r -> r = JStr s.
Proof. destruct gas; simpl; [discriminate|]. intros [= <-]. reflexivity. Qed.

(** The operation keeps its identifier when that is a string. *)
Lemma update_method_keeps_id method_data r :
  update_method method_data = Ret r ->
  match method_data with
  | JDict m => match dict_get "operationId" m with
               | Some id => is_str id
               | None => true
               end
  | _ => true
  end = true ->
  match r with JDict m' => dict_get "operationId" m' | _ => None end
  = match method_data with JDict m => dict_get "operationId" m | _ => None end.
Proof.
  unfold update_method.
  destruct method_data as [| | | | | |m]; try (intros [= <-]; reflexivity).
  cbn [is_dict]. unfold update_descriptions.
  cbn [update_descriptions_recursive]. intros H Hid.
  apply bind_ret in H. destruct H as (entries & Hentries & H). injection H as <-.
  pose proof (mapM_entries_related _
                (fun v v' => update_descriptions_recursive (height (JDict m)) v = Ret v')
                _ _ (fun kv r _ Hr => Hr) Hentries) as Hall.
  pose proof (dict_get_related _ "operationId" _ _ Hall) as Hget.
  rewrite update_description_keeps in Hget by discriminate.
  destruct (dict_get "operationId" m) as [id|]; [|exact Hget].
  destruct Hget as (id' & -> & Hid'). f_equal.
  destruct id; try discriminate Hid.
  apply (update_descriptions_recursive_str _ _ _ Hid').
Qed.

Lemma methods_ids_kept_when (g : json -> res json) path (methods methods' : dict) :
  (forall kv r, In kv methods -> g (snd kv) = Ret r ->
     match r with JDict m' => dict_get "operationId" m' | _ => None end
     = match snd kv with JDict m0 => dict_get "operationId" m0 | _ => None end) ->
  mapM (fun kv => v <- g (snd kv) ;; Ret (fst kv, v)) methods = Ret methods' ->
  method_ids path (JDict methods') = method_ids path (JDict methods).
Proof.
  intros Hg H. apply mapM_ret in H.
  induction H as [|[k v] [k' v'] d d' Hkv _ IH]; [reflexivity|].
  simpl in Hkv. apply bind_ret in Hkv. destruct Hkv as (y & Hy & Hkv).
  injection Hkv as <- <-.
  rewrite !method_ids_cons, IH by (intros kv r Hin; apply Hg; right; exact Hin).
  f_equal.
  pose proof (Hg (k, v) y (or_introl eq_refl) Hy) as Hid. cbn [snd] in Hid.
  destruct y as [| | | | | |m']; destruct v as [| | | | | |m0];
    try rewrite Hid; try reflexivity;
    try (rewrite <- Hid; reflexivity).
Qed.

Lemma in_method_ids path (methods : dict) mname (m : dict) id :
  In (mname, JDict m) methods -> dict_get "operationId" m = Some id ->
  In (path, mname, id) (method_ids path (JDict methods)).
Proof.
  intros Hin Hid. unfold method_ids. apply in_flat_map.
  exists (mname, JDict m). split; [exact Hin|]. cbn [fst snd]. rewrite Hid.
  left; reflexivity.
Qed.

Lemma update_path_ids path path_data r :
  forallb (fun op => is_str (snd op)) (method_ids path path_data) = true ->
  update_path path path_data = Ret r ->
  method_ids path r = method_ids path path_data.
Proof.
  unfold update_path. intros Hnamed H.
  apply bind_ret in H. destruct H as (methods & Hmethods & H).
  apply bind_ret in H. destruct H as (methods' & Hmethods' & H).
  injection H as <-.
  destruct path_data as [| | | | | |ms]; try discriminate. injection Hmethods as <-.
  refine (methods_ids_kept_when update_method path _ _ _ Hmethods').
  intros [mname md] r Hin Hr. cbn [snd] in *.
  apply (update_method_keeps_id _ _ Hr).
  destruct md as [| | | | | |m]; try reflexivity.
  destruct (dict_get "operationId" m) as [id|] eqn:Hid; [|reflexivity].
  rewrite forallb_forall in Hnamed.
  apply (Hnamed _ (in_method_ids path ms mname m id Hin Hid)).
Qed.

Lemma over_paths_ids_when (f : string -> json -> res json) spec out :
  (forall kv r, In kv (paths_of spec) -> f (fst kv) (snd kv) = Ret r ->
     method_ids (fst kv) r = method_ids (fst kv) (snd kv)) ->
  over_paths f spec = Ret out ->
  operation_ids out = operation_ids spec.
Proof.
  intros Hf H.
  destruct (over_paths_related f
              (fun path v r => method_ids path r = method_ids path v)
              spec out Hf H)
    as [(s & -> & _ & ->)|(s & entries & entries' & -> & Hpaths & -> & Hall)]; [reflexivity|].
  rewrite !operation_ids_paths_of, paths_of_set_paths, (paths_of_dict _ _ Hpaths).
  clear Hf H Hpaths.
  induction Hall as [|kv kv' d d' [Hk Hids] _ IH]; [reflexivity|].
  cbn [flat_map]. rewrite Hk, Hids, IH. reflexivity.
Qed.

Lemma description_pass_ids spec out :
  named_by_strings spec = true ->
  _update_parameter_descriptions spec = Ret out ->
  operation_ids out = operation_ids spec.
Proof.
  unfold _update_parameter_descriptions. intros Hnamed H.
  apply bind_ret in H. destruct H as (updated_spec & Hpaths & H).
  destruct (update_components_spec _ _ H) as (Hkeys & _ & _).
  rewrite (operation_ids_paths_of out), Hkeys, <- operation_ids_paths_of.
  refine (over_paths_ids_when _ _ _ _ Hpaths).
  intros kv r Hin Hr. apply (update_path_ids _ _ _) ; [|exact Hr].
  unfold named_by_strings in Hnamed. rewrite operation_ids_paths_of in Hnamed.
  apply (forallb_flat_map_in _ _ _ kv Hnamed Hin).
Qed.

Lemma update_parameter_descriptions_keys spec out :
  _update_parameter_descriptions spec = Ret out ->
  map fst (paths_of out) = map fst (paths_of spec).
Proof.
  unfold _update_parameter_descriptions. intros H.
  apply bind_ret in H. destruct H as (updated_spec & Hpaths & H).
  destruct (update_components_spec _ _ H) as (-> & _ & _).
  apply (over_paths_keys _ _ _ Hpaths).
Qed.

Lemma fix_pass_keys spec fixed :
  _fix_openapi_schema_references spec = Ret fixed ->
  map fst (paths_of fixed) = map fst (paths_of spec).
Proof.
  unfold _fix_openapi_schema_references. intros H.
  apply bind_ret in H. destruct H as (components & _ & H).
  apply bind_ret in H. destruct H as (schemas & _ & H).
  apply bind_ret in H. destruct H as (entries & _ & H).
  apply (over_paths_keys _ _ _ H).
Qed.

Lemma canonical_named_by_strings (ops : list (string * string * json)) :
  forallb (fun op => is_str (snd op)) ops = true ->
  forallb (fun op => is_str (snd op)) (map canonical ops) = true.
Proof.
  induction ops as [|[[path method] id] rest IH]; [reflexivity|].
  cbn [forallb map]. intros H. apply andb_true_iff in H. destruct H as [Hid Hrest].
  rewrite (IH Hrest), andb_true_r. unfold canonical.
  destruct (table_get path path_to_operation_id); [reflexivity | exact Hid].
Qed.

(** X17.  What the loader returns, when it returns, is the downloaded
    specification after the four passes, with the paths of the download
    in their order, none added and none dropped.  When the identifiers
    of the download are strings, every operation has the identifier the
    table gives to its path, or its own when the path is not in the
    table: the later passes do not touch what the identifier pass
    set. *)
Theorem loaded_spec_has_the_paths_and_canonical_ids fetched loaded :
  _load_openapi_spec fetched = Ret loaded ->
  exists response spec,
    fetched = Ret response
    /\ raise_for_status response = Ret tt
    /\ response_json response = Ret spec
    /\ map fst (paths_of loaded) = map fst (paths_of spec)
    /\ (named_by_strings spec = true ->
        operation_ids loaded = map canonical (operation_ids spec)).
Proof.
  unfold _load_openapi_spec. intros H.
  apply bind_ret in H. destruct H as (response & Hfetched & H).
  apply bind_ret in H. destruct H as ([] & Hstatus & H).
  apply bind_ret in H. destruct H as (spec & Hjson & H).
  apply bind_ret in H. destruct H as (fixed & Hfixed & H).
  apply bind_ret in H. destruct H as (simplified & Hsimplified & H).
  apply bind_ret in H. destruct H as (described & Hdescribed & H).
  apply bind_ret in H. destruct H as (guided & Hguided & H).
  apply bind_ret in H. destruct H as (paths & _ & H).
  apply bind_ret in H. destruct H as (n & _ & H). injection H as <-.
  exists response, spec. repeat (split; [assumption|]). split.
  - unfold _add_admin_level_guidance in Hguided.
    rewrite (over_paths_keys _ _ _ Hguided).
    rewrite (update_parameter_descriptions_keys _ _ Hdescribed).
    unfold _simplify_operation_ids in Hsimplified.
    rewrite (over_paths_keys _ _ _ Hsimplified).
    apply (fix_pass_keys _ _ Hfixed).
  - intros Hnamed.
    rewrite (guidance_pass_ids _ _ Hguided).
    assert (Hstrings : named_by_strings simplified = true).
    { unfold named_by_strings.
      rewrite (simplified_operation_ids _ _ Hsimplified).
      apply canonical_named_by_strings.
      rewrite (fix_pass_ids _ _ Hfixed). exact Hnamed. }
    rewrite (description_pass_ids _ _ Hstrings Hdescribed).
    rewrite (simplified_operation_ids _ _ Hsimplified).
    rewrite (fix_pass_ids _ _ Hfixed). reflexivity.
Qed.

Lemma loaded_spec_has_the_paths_and_canonical_ids_witness :
  exists loaded,
    _load_openapi_spec (Samples.downloaded Examples.operation_id_test_spec) = Ret loaded
    /\ map snd (operation_ids loaded)
       = [ JStr "affected_people_idps_get"; JStr "metadata_location_get";
           JStr "should_remain_unchanged" ].
Proof.
  destruct (_load_openapi_spec (Samples.downloaded Examples.operation_id_test_spec))
    as [loaded| |] eqn:Hload; try (vm_compute in Hload; discriminate Hload).
  exists loaded. split; [reflexivity|].
  destruct (loaded_spec_has_the_paths_and_canonical_ids _ _ Hload)
    as (response & spec & Hfetched & _ & Hjson & _ & Hids).
  injection Hfetched as <-. cbn [response_json] in Hjson. injection Hjson as <-.
  rewrite Hids by reflexivity. reflexivity.
Defined.

(** ** The server information tool *)

(** X18.  [get_server_info] has no [try] block: on a specification that
    is not a dict it raises.  On what the loader returned it answers,
    and the number of endpoints it reports is the number of paths of
    the downloaded specification. *)
Theorem server_info_counts_the_downloaded_paths base_url :
  (forall spec, is_dict spec = false ->
     get_server_info base_url spec = Exc AttributeError)
  /\ (forall fetched loaded,
        _load_openapi_spec fetched = Ret loaded ->
        exists response spec,
          fetched = Ret response
          /\ response_json response = Ret spec
          /\ get_server_info base_url loaded
             = Ret (JDict
                      [ ("server_name", JStr "HDX MCP Server");
                        ("version", JStr "1.0.0");
                        ("base_url", base_url);
                        ("total_endpoints",
                         JInt (Z.of_nat (List.length (paths_of spec))));
                        ("available_tools",
                         JStr "Multiple tools available (see tools/list)");
                        ("description",
                         JStr "MCP server for Humanitarian Data Exchange API") ])).
Proof.
  split.
  - intros spec Hspec. destruct spec; try reflexivity. discriminate Hspec.
  - intros fetched loaded Hload.
    assert (Hkeys : exists response spec,
               fetched = Ret response /\ response_json response = Ret spec
               /\ map fst (paths_of loaded) = map fst (paths_of spec)
               /\ exists described, _add_admin_level_guidance described = Ret loaded).
    { unfold _load_openapi_spec in Hload.
      apply bind_ret in Hload. destruct Hload as (response & Hfetched & H).
      apply bind_ret in H. destruct H as ([] & Hstatus & H).
      apply bind_ret in H. destruct H as (spec & Hjson & H).
      apply bind_ret in H. destruct H as (fixed & Hfixed & H).
      apply bind_ret in H. destruct H as (simplified & Hsimplified & H).
      apply bind_ret in H. destruct H as (described & Hdescribed & H).
      apply bind_ret in H. destruct H as (guided & Hguided & H).
      apply bind_ret in H. destruct H as (paths & _ & H).
      apply bind_ret in H. destruct H as (n & _ & H). injection H as <-.
      exists response, spec. split; [assumption|]. split; [assumption|]. split.
      - rewrite (over_paths_keys _ _ _ Hguided).
        rewrite (update_parameter_descriptions_keys _ _ Hdescribed).
        rewrite (over_paths_keys _ _ _ Hsimplified).
        apply (fix_pass_keys _ _ Hfixed).
      - exists described. exact Hguided. }
    destruct Hkeys as (response & spec & Hfetched & Hjson & Hkeys & described & Hguided).
    exists response, spec. split; [assumption|]. split; [assumption|].
    apply (f_equal (@List.length string)) in Hkeys. rewrite !length_map in Hkeys.
    rewrite <- Hkeys. unfold _add_admin_level_guidance in Hguided.
    destruct (over_paths_related guide_path (fun _ _ _ => True) described loaded
                (fun _ _ _ _ => I) Hguided)
      as [(s & -> & Hnone & ->)|(s & entries & entries' & -> & Hpaths & -> & Hall)].
    + unfold get_server_info, get, paths_of. rewrite Hnone. reflexivity.
    + unfold get_server_info, get, paths_of. rewrite dict_get_set_same. reflexivity.
Qed.

Lemma server_info_counts_the_downloaded_paths_witness :
  match get_server_info (JStr "https://hapi.humdata.org/api/v2")
          match _load_openapi_spec (Samples.downloaded Examples.operation_id_test_spec) with
          | Ret loaded => loaded
          | _ => JNull
          end with
  | Ret info => field "total_endpoints" info
  | _ => None
  end = Some (JInt 3).
Proof.
  destruct (_load_openapi_spec (Samples.downloaded Examples.operation_id_test_spec))
    as [loaded| |] eqn:Hload; try (vm_compute in Hload; discriminate Hload).
  destruct (server_info_counts_the_downloaded_paths
              (JStr "https://hapi.humdata.org/api/v2")) as (_ & Hcount).
  destruct (Hcount _ _ Hload) as (response & spec & Hfetched & Hjson & ->).
  injection Hfetched as <-. cbn [response_json] in Hjson. injection Hjson as <-.
  reflexivity.
Defined.

(** ** The required settings *)

Lemma lstrip_split s :
  exists pre,
    s = (pre ++ lstrip s)%list
    /\ forallb isspace pre = true
    /\ isspace (hd 0%N (lstrip s)) = false.
Proof.
  induction s as [|c rest (pre & Hsplit & Hpre & Hhd)].
  - exists []. repeat split.
  - cbn [lstrip]. destruct (isspace c) eqn:Hc.
    + exists (c :: pre). cbn [app forallb]. rewrite Hc, Hpre, <- Hsplit. auto.
    + exists []. cbn [app forallb hd]. auto.
Qed.

Lemma lstrip_blank s : forallb isspace s = true -> lstrip s = [].
Proof.
  induction s as [|c rest IH]; [reflexivity|].
  cbn [forallb lstrip]. intros H. apply andb_true_iff in H. destruct H as [-> H].
  apply IH. exact H.
Qed.

Lemma lstrip_fixed s : isspace (hd 0%N s) = false -> lstrip s = s.
Proof. destruct s as [|c rest]; [reflexivity|]. cbn [hd lstrip]. intros ->. reflexivity. Qed.

Lemma hd_rev_last (s : text) : hd 0%N (rev s) = last s 0%N.
Proof.
  induction s as [|c rest IH]; [reflexivity|].
  cbn [rev]. destruct rest as [|c' rest'].
  - reflexivity.
  - change (last (c :: c' :: rest') 0%N) with (last (c' :: rest') 0%N).
    rewrite <- IH. destruct (rev (c' :: rest')) eqn:E; [|reflexivity].
    apply (f_equal (@List.length N)) in E. rewrite length_rev in E. discriminate E.
Qed.

(** What [strip] gives: the text between a run of whitespace at the
    start and a run of whitespace at the end, neither of which can be
    made longer. *)
Lemma strip_split s :
  exists pre post,
    s = (pre ++ strip s ++ post)%list
    /\ forallb isspace pre = true
    /\ forallb isspace post = true
    /\ isspace (hd 0%N (strip s)) = false
    /\ isspace (last (strip s) 0%N) = false.
Proof.
  unfold strip.
  destruct (lstrip_split s) as (pre & Hs & Hpre & Hhd).
  destruct (lstrip_split (rev (lstrip s))) as (erp & Hrev & Herp & Hlast).
  set (inner := lstrip (rev (lstrip s))) in *.
  assert (Hmiddle : lstrip s = (rev inner ++ rev erp)%list).
  { rewrite <- rev_app_distr, <- Hrev, rev_involutive. reflexivity. }
  exists pre, (rev erp). split; [|split; [|split; [|split]]].
  - rewrite <- Hmiddle. exact Hs.
  - exact Hpre.
  - rewrite forallb_forall in *. intros c Hc. apply Herp. apply in_rev. exact Hc.
  - destruct (rev inner) as [|c rest] eqn:E.
    + assert (inner = []) as Hempty.
      { apply (f_equal (@rev N)) in E. rewrite rev_involutive in E. exact E. }
      reflexivity.
    + rewrite Hmiddle in Hhd. exact Hhd.
  - rewrite <- hd_rev_last, rev_involutive. exact Hlast.
Qed.

Lemma strip_blank s : strip s = [] <-> forallb isspace s = true.
Proof.
  split.
  - intros Hempty. destruct (strip_split s) as (pre & post & Hs & Hpre & Hpost & _).
    rewrite Hs, Hempty, !forallb_app, Hpre, Hpost. reflexivity.
  - intros Hblank. unfold strip. rewrite (lstrip_blank s Hblank). reflexivity.
Qed.

(** X19.  [_get_required_env] returns the value of the variable without
    the whitespace around it, and never a value that is empty or that
    starts or ends with whitespace, so that trimming the result again
    changes nothing.  It raises exactly when the variable is not set or
    its value is whitespace throughout, the empty value included, and
    the message names the variable. *)
Theorem required_env_is_trimmed_and_not_blank environ key :
  match _get_required_env environ key with
  | Value v =>
      exists value pre post,
        environ key = Some value
        /\ value = (pre ++ v ++ post)%list
        /\ forallb isspace pre = true
        /\ forallb isspace post = true
        /\ v <> []
        /\ isspace (hd 0%N v) = false
        /\ isspace (last v 0%N) = false
        /\ strip v = v
  | ValueError message =>
      message = (text_of "Required environment variable " ++ key
                 ++ text_of " is not set")%list
      /\ (environ key = None
          \/ exists value, environ key = Some value
                           /\ forallb isspace value = true)
  end.
Proof.
  unfold _get_required_env.
  destruct (environ key) as [value|]; [|split; [reflexivity | left; reflexivity]].
  destruct value as [|c rest].
  - cbn [falsy orb]. split; [reflexivity|]. right. exists []. auto.
  - cbn [falsy orb]. destruct (strip (c :: rest)) as [|c' rest'] eqn:Hstrip.
    + cbn [falsy]. split; [reflexivity|]. right. exists (c :: rest).
      split; [reflexivity|]. apply strip_blank. exact Hstrip.
    + cbn [falsy].
      destruct (strip_split (c :: rest)) as (pre & post & Hs & Hpre & Hpost & Hhd & Hlast).
      rewrite Hstrip in Hs, Hhd, Hlast.
      exists (c :: rest), pre, post. repeat (split; [assumption || reflexivity|]).
      split; [discriminate|]. split; [exact Hhd|]. split; [exact Hlast|].
      unfold strip. rewrite (lstrip_fixed _ Hhd).
      rewrite lstrip_fixed by (rewrite hd_rev_last; exact Hlast).
      apply rev_involutive.
Qed.

Lemma required_env_is_trimmed_and_not_blank_witness :
  exists v,
    _get_required_env (fun _ => Some (text_of "  trimmed  ")) (text_of "HDX_API_KEY")
    = Value v
    /\ strip v = v.
Proof.
  pose proof (required_env_is_trimmed_and_not_blank
                (fun _ => Some (text_of "  trimmed  ")) (text_of "HDX_API_KEY")) as H.
  destruct (_get_required_env (fun _ => Some (text_of "  trimmed  "))
              (text_of "HDX_API_KEY")) as [v|message] eqn:Hcall.
  - exists v. split; [reflexivity|].
    destruct H as (value & pre & post & _ & _ & _ & _ & _ & _ & _ & Hfixed).
    exact Hfixed.
  - vm_compute in Hcall. discriminate Hcall.
Defined.

(** [test_get_required_env_validation]: the value with blanks around
    it, the value of blanks, a tab and a line feed, and the variable
    that is not set. *)
Example get_required_env_test :
  let environ key :=
    if list_eq_dec N.eq_dec key (text_of "WHITESPACE_KEY")
    then Some (text_of "  trimmed  ")
    else if list_eq_dec N.eq_dec key (text_of "WHITESPACE_ONLY")
    then Some [32; 32; 32; 9; 10; 32; 32]%N
    else None in
  _get_required_env environ (text_of "WHITESPACE_KEY") = Value (text_of "trimmed")
  /\ _get_required_env environ (text_of "WHITESPACE_ONLY")
     = ValueError (text_of "Required environment variable WHITESPACE_ONLY is not set")
  /\ _get_required_env environ (text_of "MISSING")
     = ValueError (text_of "Required environment variable MISSING is not set").
Proof. vm_compute. auto. Qed.

(** ** The application identifier *)

Lemma b64_digits_checked :
  forallb (fun n =>
             match b64_digit n with
             | String c EmptyString =>
                 Nat.eqb (b64_value c) n && negb (Ascii.eqb c "="%char)
             | _ => false
             end) (seq 0 64) = true.
Proof. vm_compute. reflexivity. Qed.

Lemma b64_digit_value n :
  n < 64 ->
  exists c,
    b64_digit n = String c EmptyString
    /\ b64_value c = n
    /\ Ascii.eqb c "="%char = false.
Proof.
  intros Hn. pose proof b64_digits_checked as Hall.
  rewrite forallb_forall in Hall. specialize (Hall n).
  assert (Hin : In n (seq 0 64)) by (apply in_seq; lia).
  specialize (Hall Hin).
  destruct (b64_digit n) as [|c [|c' rest]]; try discriminate Hall.
  apply andb_true_iff in Hall. destruct Hall as [Hvalue Hpad].
  exists c. split; [reflexivity|]. split.
  - apply Nat.eqb_eq. exact Hvalue.
  - apply negb_true_iff. exact Hpad.
Qed.

Lemma nat_of_ascii_below a : nat_of_ascii a < 256.
Proof. apply nat_ascii_bounded. Qed.

Lemma b64decode_encode_three a b c rest :
  b64decode (b64encode rest) = rest ->
  b64decode (b64encode (String a (String b (String c rest))))
  = String a (String b (String c rest)).
Proof.
  intros IH. cbn [b64encode].
  pose proof (nat_of_ascii_below a) as Ha.
  pose proof (nat_of_ascii_below b) as Hb.
  pose proof (nat_of_ascii_below c) as Hc.
  set (x := nat_of_ascii a) in *. set (y := nat_of_ascii b) in *.
  set (z := nat_of_ascii c) in *.
  destruct (b64_digit_value (x / 4)) as (c1 & -> & V1 & _).
  { apply Nat.Div0.div_lt_upper_bound. lia. }
  destruct (b64_digit_value (x mod 4 * 16 + y / 16)) as (c2 & -> & V2 & _).
  { pose proof (Nat.mod_upper_bound x 4). 
    assert (y / 16 < 16) by (apply Nat.Div0.div_lt_upper_bound; lia). lia. }
  destruct (b64_digit_value (y mod 16 * 4 + z / 64)) as (c3 & -> & V3 & P3).
  { pose proof (Nat.mod_upper_bound y 16).
    assert (z / 64 < 4) by (apply Nat.Div0.div_lt_upper_bound; lia). lia. }
  destruct (b64_digit_value (z mod 64)) as (c4 & -> & V4 & P4).
  { apply Nat.mod_upper_bound. lia. }
  cbn [append b64decode]. rewrite P3, P4, V1, V2, V3, V4, IH.
  assert (E1 : x / 4 * 4 + (x mod 4 * 16 + y / 16) / 16 = x).
  { assert (y / 16 < 16) by (apply Nat.Div0.div_lt_upper_bound; lia).
    rewrite (Nat.add_comm (x mod 4 * 16)), Nat.div_add by lia.
    rewrite (Nat.div_small (y / 16)) by lia.
    pose proof (Nat.div_mod_eq x 4). lia. }
  assert (E2 : (x mod 4 * 16 + y / 16) mod 16 * 16 + (y mod 16 * 4 + z / 64) / 4 = y).
  { assert (y / 16 < 16) by (apply Nat.Div0.div_lt_upper_bound; lia).
    assert (z / 64 < 4) by (apply Nat.Div0.div_lt_upper_bound; lia).
    rewrite (Nat.add_comm (x mod 4 * 16)), Nat.Div0.mod_add.
    rewrite (Nat.mod_small (y / 16)) by lia.
    rewrite (Nat.add_comm (y mod 16 * 4)), Nat.div_add by lia.
    rewrite (Nat.div_small (z / 64)) by lia.
    pose proof (Nat.div_mod_eq y 16). lia. }
  assert (E3 : (y mod 16 * 4 + z / 64) mod 4 * 64 + z mod 64 = z).
  { assert (z / 64 < 4) by (apply Nat.Div0.div_lt_upper_bound; lia).
    rewrite (Nat.add_comm (y mod 16 * 4)), Nat.Div0.mod_add.
    rewrite (Nat.mod_small (z / 64)) by lia.
    pose proof (Nat.div_mod_eq z 64). lia. }
  rewrite E1, E2, E3. unfold x, y, z. rewrite !ascii_nat_embedding. reflexivity.
Qed.

Lemma b64decode_encode_one a :
  b64decode (b64encode (String a EmptyString)) = String a EmptyString.
Proof.
  cbn [b64encode]. pose proof (nat_of_ascii_below a) as Ha.
  set (x := nat_of_ascii a) in *.
  destruct (b64_digit_value (x / 4)) as (c1 & -> & V1 & _).
  { apply Nat.Div0.div_lt_upper_bound. lia. }
  destruct (b64_digit_value (x mod 4 * 16)) as (c2 & -> & V2 & _).
  { pose proof (Nat.mod_upper_bound x 4). lia. }
  cbn [append b64decode]. rewrite Ascii.eqb_refl, V1, V2.
  rewrite Nat.div_mul by lia.
  assert (E : x / 4 * 4 + x mod 4 = x) by (pose proof (Nat.div_mod_eq x 4); lia).
  rewrite E. unfold x. rewrite ascii_nat_embedding. reflexivity.
Qed.

Lemma b64decode_encode_two a b :
  b64decode (b64encode (String a (String b EmptyString)))
  = String a (String b EmptyString).
Proof.
  cbn [b64encode].
  pose proof (nat_of_ascii_below a) as Ha. pose proof (nat_of_ascii_below b) as Hb.
  set (x := nat_of_ascii a) in *. set (y := nat_of_ascii b) in *.
  destruct (b64_digit_value (x / 4)) as (c1 & -> & V1 & _).
  { apply Nat.Div0.div_lt_upper_bound. lia. }
  destruct (b64_digit_value (x mod 4 * 16 + y / 16)) as (c2 & -> & V2 & _).
  { pose proof (Nat.mod_upper_bound x 4).
    assert (y / 16 < 16) by (apply Nat.Div0.div_lt_upper_bound; lia). lia. }
  destruct (b64_digit_value (y mod 16 * 4)) as (c3 & -> & V3 & P3).
  { pose proof (Nat.mod_upper_bound y 16). lia. }
  cbn [append b64decode]. rewrite P3, Ascii.eqb_refl, V1, V2, V3.
  assert (E1 : x / 4 * 4 + (x mod 4 * 16 + y / 16) / 16 = x).
  { assert (y / 16 < 16) by (apply Nat.Div0.div_lt_upper_bound; lia).
    rewrite (Nat.add_comm (x mod 4 * 16)), Nat.div_add by lia.
    rewrite (Nat.div_small (y / 16)) by lia.
    pose proof (Nat.div_mod_eq x 4). lia. }
  assert (E2 : (x mod 4 * 16 + y / 16) mod 16 * 16 + y mod 16 * 4 / 4 = y).
  { assert (y / 16 < 16) by (apply Nat.Div0.div_lt_upper_bound; lia).
    rewrite (Nat.add_comm (x mod 4 * 16)), Nat.Div0.mod_add.
    rewrite (Nat.mod_small (y / 16)) by lia.
    rewrite Nat.div_mul by lia.
    pose proof (Nat.div_mod_eq y 16). lia. }
  rewrite E1, E2. unfold x, y. rewrite !ascii_nat_embedding. reflexivity.
Qed.

(** Decoding gives back what was encoded. *)
Lemma b64decode_encode s : b64decode (b64encode s) = s.
Proof.
  assert (Hthree : b64decode (b64encode s) = s
                   /\ (forall a, b64decode (b64encode (String a s)) = String a s)
                   /\ (forall a b, b64decode (b64encode (String a (String b s)))
                                   = String a (String b s))).
  { induction s as [|c rest (IH0 & IH1 & IH2)].
    - split; [reflexivity|]. split.
      + apply b64decode_encode_one.
      + apply b64decode_encode_two.
    - split; [apply IH1|]. split; [intros a; apply IH2|].
      intros a b. apply b64decode_encode_three. exact IH0. }
  apply Hthree.
Qed.

(** X20.  The application identifier can be decoded: it determines the
    text [app_name:app_email] it was made from, so that two servers
    have the same identifier exactly when these texts are the same.  It
    does not determine the name and the address apart: a colon in the
    name moves the border between them. *)
Theorem app_identifier_determines_the_joined_identity :
  (forall self,
      b64decode (_create_app_identifier self)
      = app_name self ++ ":" ++ app_email self)
  /\ (forall self self',
        _create_app_identifier self = _create_app_identifier self'
        <-> app_name self ++ ":" ++ app_email self
            = app_name self' ++ ":" ++ app_email self')
  /\ (forall key url t,
        _create_app_identifier
          {| api_key := key; base_url := url; timeout := t;
             app_name := "hdx:mcp"; app_email := "a@b.org" |}
        = _create_app_identifier
            {| api_key := key; base_url := url; timeout := t;
               app_name := "hdx"; app_email := "mcp:a@b.org" |}).
Proof.
  split; [|split].
  - intros self. apply b64decode_encode.
  - intros self self'. unfold _create_app_identifier. split.
    + intros H. apply (f_equal b64decode) in H.
      rewrite !b64decode_encode in H. exact H.
    + intros ->. reflexivity.
  - intros key url t. reflexivity.
Qed.

Lemma app_identifier_determines_the_joined_identity_witness :
  b64decode (_create_app_identifier Samples.test_server) = "test-app:user@example.com".
Proof.
  destruct app_identifier_determines_the_joined_identity as (Hdecoded & _).
  apply (Hdecoded Samples.test_server).
Defined.

(* ================================================================== *)
(** * The defaults of the parameters, through the pass *)
(* ================================================================== *)







Section PassDefaults.

Variable schemas : json.
Hypothesis schemas_wf : wf schemas = true.




End PassDefaults.











(** A parameter named [limit] whose schema is [true] takes no default:
    the assignment raises, and the pass with it. *)
Example limit_with_boolean_schema_raises :
  _fix_openapi_schema_references Samples.boolean_schema_spec = Exc TypeError.
Proof. reflexivity. Qed.
